(** * Quantitative core of the trading-analysis service

    A shallow embedding of the hand-written numerical code of the
    repository:

    - [analyzers/signal_processing.py]: [fractional_diff], [find_min_ffd];
    - [analyzers/cointegration.py]: [calculate_half_life];
    - [analyzers/recommendation.py]: [calculate_trading_signal].

    Numbers.  Python floats are embedded as exact rationals ([Q]): every
    arithmetic operation is the exact one, comparisons are the exact
    comparisons.  A missing observation ([NaN] in a pandas series) is
    [None].  The few places where the code can produce an infinity (a
    division by a zero price, the half-life of a series that does not
    revert) use the small type [pyfloat].

    Two parts of the file leave that idealisation where the code's
    result depends on it.  [FusionBinary64] repeats the fusion step of
    [calculate_trading_signal] with every operation rounded to binary64,
    since the comparison of the weighted signal with [0.3] is decided by
    the rounding when the exact value is on the boundary.  [RawInput]
    repeats the whole function over the Python values a caller can pass
    (a key that is absent, [None], an empty dictionary, a NaN), with the
    exceptions they lead to; on a typed dictionary it agrees with
    [Recommendation.calculate_trading_signal].

    Loops.  The only unbounded loop ([while abs(weights[-1]) > threshold])
    takes a fuel argument; the theorems show that enough fuel always
    exists for [d >= 0] and [threshold > 0].

    External collaborators (the ADF test, scikit-learn's linear
    regression, the value of [np.log(2)], float formatting) are section
    variables. *)

From Stdlib Require Import QArith Qabs Qround Qminmax Lqa Lia ZArith String.
From stdpp Require Import base option list gmap.

Open Scope Q_scope.

(** ** Python numbers and containers *)

Module PyNum.

(** [x > y] and [x < y] on floats. *)
Definition Qgtb (x y : Q) : bool := negb (Qle_bool x y).
Definition Qltb (x y : Q) : bool := Qgtb y x.

(** A Python [int] used in float arithmetic. *)
Definition Qn (k : nat) : Q := inject_Z (Z.of_nat k).

(** [sum] of a list of floats. *)
Definition Qsum (l : list Q) : Q := foldr Qplus 0 l.

(** Rounding to the nearest integer, ties to the even one. *)
Definition rint (x : Q) : Z :=
  let f := Qfloor x in
  match Qcompare (x - inject_Z f) (1 # 2) with
  | Lt => f
  | Gt => (f + 1)%Z
  | Eq => if Z.even f then f else (f + 1)%Z
  end.

(** [round(x, ndigits)]. *)
Definition py_round (x : Q) (ndigits : nat) : Q :=
  inject_Z (rint (x * inject_Z (10 ^ Z.of_nat ndigits)))
  / inject_Z (10 ^ Z.of_nat ndigits).

(** [l[i]] for a Python list or [s.iloc[i]] for a series: a negative
    index counts from the end; [None] is the out-of-bounds case. *)
Definition py_index {A : Type} (l : list A) (i : Z) : option A :=
  if (0 <=? i)%Z then l !! Z.to_nat i
  else if (- Z.of_nat (length l) <=? i)%Z
       then l !! Z.to_nat (Z.of_nat (length l) + i)
       else None.

(** Floats that may be infinite or undefined. *)
Inductive pyfloat : Type :=
| Finite (q : Q)
| PosInf
| NegInf
| NaN.

(** numpy's float division: [x / 0] is an infinity with the sign of
    [x], [0 / 0] is [NaN], and a missing operand gives [NaN]. *)
Definition np_div (a b : option Q) : pyfloat :=
  match a, b with
  | Some x, Some y =>
      if Qeq_bool y 0
      then if Qltb 0 x then PosInf else if Qltb x 0 then NegInf else NaN
      else Finite (x / y)
  | _, _ => NaN
  end.

Definition fsub (a : pyfloat) (c : Q) : pyfloat :=
  match a with
  | Finite x => Finite (x - c)
  | other => other
  end.

(** [a > c] and [a < c]; every comparison with [NaN] is false. *)
Definition fgtb (a : pyfloat) (c : Q) : bool :=
  match a with
  | Finite x => Qgtb x c
  | PosInf => true
  | NegInf | NaN => false
  end.

Definition fltb (a : pyfloat) (c : Q) : bool :=
  match a with
  | Finite x => Qltb x c
  | NegInf => true
  | PosInf | NaN => false
  end.

(** Exceptions the modelled code can raise. *)
Inductive exn : Type :=
| IndexError
| TypeError
| ValueError.

Inductive result (A : Type) : Type :=
| Ok (a : A)
| Raise (e : exn).
Global Arguments Ok {A} a.
Global Arguments Raise {A} e.

Definition rbind {A B : Type} (m : result A) (k : A -> result B) : result B :=
  match m with
  | Ok a => k a
  | Raise e => Raise e
  end.

(** An [option] that raises [e] when empty. *)
Definition or_raise {A : Type} (e : exn) (o : option A) : result A :=
  match o with
  | Some a => Ok a
  | None => Raise e
  end.

End PyNum.

Export PyNum.

Notation "x <-r m ;; k" := (rbind m (fun x => k))
  (at level 100, m at next level, right associativity).

(** A pandas series over a range index: position [i] holds a float or
    is missing. *)
Abbreviation Series := (list (option Q)).

(** A series after [dropna()]: the surviving positions with their
    values, in index order. *)
Abbreviation IndexedSeries := (list (nat * Q)).

(** ** analyzers/signal_processing.py *)

Module SignalProcessing.

(** The weight loop of [fractional_diff]:
<<
    weights = [1.0]; k = 1
    while abs(weights[-1]) > threshold:
        weight = -weights[-1] * (d - k + 1) / k
        weights.append(weight)
        k += 1
>>
    called with [weights = [1]] and [k = 1]. *)
Fixpoint weights_loop (fuel : nat) (d threshold : Q)
         (weights : list Q) (k : nat) : option (list Q) :=
  match fuel with
  | O => None
  | S fuel' =>
      let lastw := List.last weights 0 in
      if Qgtb (Qabs lastw) threshold
      then weights_loop fuel' d threshold
             (weights ++ [ - lastw * (d - Qn k + 1) / Qn k ]) (S k)
      else Some weights
  end.

Definition compute_weights (fuel : nat) (d threshold : Q) : option (list Q) :=
  weights_loop fuel d threshold [1] 1.

(** [series.iloc[a:b]] for [a <= b]. *)
Definition iloc_slice (series : Series) (a b : nat) : Series :=
  take (b - a) (drop a series).

(** [np.dot(weights.T, window)[0, 0]]: a missing value in the window
    makes the product [NaN]. *)
Fixpoint np_dot (w : list Q) (x : Series) : option Q :=
  match w, x with
  | [], [] => Some 0
  | wi :: w', Some xi :: x' =>
      match np_dot w' x' with
      | Some r => Some (wi * xi + r)
      | None => None
      end
  | _, _ => None
  end.

(** [series.dropna()], keeping the index. *)
Fixpoint dropna_from (i : nat) (s : Series) : IndexedSeries :=
  match s with
  | [] => []
  | Some v :: s' => (i, v) :: dropna_from (S i) s'
  | None :: s' => dropna_from (S i) s'
  end.

Definition dropna (s : Series) : IndexedSeries := dropna_from 0 s.

(** The body of [fractional_diff] after the weights are known
    ([weights] is in construction order and gets reversed here):
<<
    weights = np.array(weights[::-1])
    width = len(weights)
    result = pd.Series(index=series.index, dtype=float)
    for iloc in range(width, len(series)):
        result.iloc[iloc] = np.dot(weights.T, series.iloc[iloc-width:iloc])
    return result.dropna()
>> *)
Definition apply_weights (weights : list Q) (series : Series) : Series :=
  let w := rev weights in
  let width := length w in
  foldl (fun result iloc =>
           <[ iloc := np_dot w (iloc_slice series (iloc - width) iloc) ]> result)
        (replicate (length series) None)
        (seq width (length series - width)).

Definition fractional_diff (fuel : nat) (series : Series) (d threshold : Q)
  : option IndexedSeries :=
  match compute_weights fuel d threshold with
  | Some weights => Some (dropna (apply_weights weights series))
  | None => None
  end.

(** [np.arange(0.0, stop, step)]: [ceil((stop - 0.0) / step)] values
    [0.0 + i * step]. *)
Definition np_arange (stop step : Q) : list Q :=
  map (fun i => 0 + Qn i * step)
      (seq 0 (Z.to_nat (Qceiling ((stop - 0) / step)))).

Section FindMinFFD.

(** [adfuller(x, regression='c', autolag='AIC')[1]]: the p-value
    reported by the ADF test. *)
Variable adfuller_pvalue : list Q -> Q.

(** The [for d in ...] loop of [find_min_ffd]; falling off the end
    returns [max_d]. *)
Fixpoint find_min_ffd_loop (fuel : nat) (series : Series) (threshold : Q)
         (max_d : Q) (candidates : list Q) : option Q :=
  match candidates with
  | [] => Some max_d
  | d :: rest =>
      match fractional_diff fuel series d threshold with
      | None => None
      | Some ffd_series =>
          if (length ffd_series <? 10)%nat
          then find_min_ffd_loop fuel series threshold max_d rest
          else if Qltb (adfuller_pvalue (map snd ffd_series)) (5 # 100)
               then Some d
               else find_min_ffd_loop fuel series threshold max_d rest
      end
  end.

Definition find_min_ffd (fuel : nat) (series : Series) (max_d threshold : Q)
  : option Q :=
  find_min_ffd_loop fuel series threshold max_d (np_arange max_d (1 # 10)).

End FindMinFFD.

End SignalProcessing.

(** ** analyzers/cointegration.py *)

Module Cointegration.

(** [spread.shift(1)]: every value moves one position later. *)
Definition shift1 (s : Series) : Series :=
  match s with
  | [] => []
  | _ :: _ => None :: removelast s
  end.

(** [spread.diff()]: [s[t] - s[t-1]], missing where an operand is. *)
Definition diff1 (s : Series) : Series :=
  zip_with (fun cur prev =>
              match cur, prev with
              | Some a, Some b => Some (a - b)
              | _, _ => None
              end) s (shift1 s).

(** Value of an indexed series at label [i]. *)
Definition at_index (s : IndexedSeries) (i : nat) : option Q :=
  match list_find (fun p => fst p = i) s with
  | Some (_, p) => Some (snd p)
  | None => None
  end.

(** [pd.DataFrame({'diff': a, 'lag': b}).dropna()]: the rows whose
    label carries a value in both columns, as [(diff, lag)] pairs in
    index order. *)
Definition frame_dropna (a b : IndexedSeries) : list (Q * Q) :=
  omap (fun p => match at_index b (fst p) with
                 | Some lv => Some (snd p, lv)
                 | None => None
                 end) a.

(** The frame [df] of [calculate_half_life], rows [(diff, lag)]:
<<
    spread_lag = spread.shift(1).dropna()
    spread_diff = spread.diff().dropna()
    df = pd.DataFrame({'diff': spread_diff, 'lag': spread_lag}).dropna()
>> *)
Definition half_life_frame (spread : Series) : list (Q * Q) :=
  let spread_lag := SignalProcessing.dropna (shift1 spread) in
  let spread_diff := SignalProcessing.dropna (diff1 spread) in
  frame_dropna spread_diff spread_lag.

Section HalfLife.

(** [np.log(2)]. *)
Variable np_log2 : Q.

(** [LinearRegression(fit_intercept=True).fit(X, y).coef_[0]] for a
    single regressor [X]; the library may refuse the data. *)
Variable linear_regression_coef : list Q -> list Q -> result Q.

Definition calculate_half_life (spread : Series) : result pyfloat :=
  let df := half_life_frame spread in
  theta <-r linear_regression_coef (map snd df) (map fst df) ;;
  if Qltb theta 0
  then Ok (Finite (- np_log2 / theta))
  else Ok PosInf.

End HalfLife.

(** An ordinary-least-squares slope with intercept, to instantiate
    [linear_regression_coef] in examples: it refuses an empty sample
    and gives the minimum-norm slope 0 for a constant regressor. *)
Definition ols_slope (X y : list Q) : result Q :=
  match X with
  | [] => Raise ValueError
  | _ :: _ =>
      let n := Qn (length X) in
      let mean_x := Qsum X / n in
      let mean_y := Qsum y / n in
      let sxx := Qsum (map (fun x => (x - mean_x) * (x - mean_x)) X) in
      let sxy := Qsum (zip_with (fun x y => (x - mean_x) * (y - mean_y)) X y) in
      if Qeq_bool sxx 0 then Ok 0 else Ok (Qred (sxy / sxx))
  end.

(** [np.log(2)] as the binary64 number numpy returns. *)
Definition np_log2_binary64 : Q := 6243314768165359 # 9007199254740992.

End Cointegration.

(** ** analyzers/recommendation.py *)

Module Recommendation.

(** The [analysis] dictionary, typed: every number is a finite float
    and no key holds [None].  A key holding a dictionary is [None] when
    the key is missing or holds the empty dictionary the caller passes
    for a stage that failed, and [Some] of a record for a non-empty
    dictionary; each field of such a record is a key that [.get] may or
    may not find.  Dictionaries outside this type (a Hurst exponent
    that is NaN, a key that holds [None], which raises [AttributeError]
    under [signal_processing] and [metrics]) are the subject of
    [RawInput] below. *)
Record SignalProcessingDict : Type := {
  hurst_exponent : option Q
}.

Record RegimeDict : Type := {
  current_regime : option Z;
  regime_descriptions : option (gmap Z string);
  regime_probabilities : option (list Q)
}.

Record VolatilityDict : Type := {
  annualized_volatility : option Q
}.

Record MetricsDict : Type := {
  sharpe_ratio : option Q
}.

Record CointegrationDict : Type := {
  is_stationary : option bool
}.

Record Analysis : Type := {
  signal_processing : option SignalProcessingDict;
  regime : option RegimeDict;
  volatility : option VolatilityDict;
  price_change_pct : option Q;
  metrics : option MetricsDict;
  cointegration : option CointegrationDict
}.

Inductive Category : Type := BUY | SELL | HOLD.

(** The dictionary returned by [calculate_trading_signal]. *)
Record TradingSignal : Type := {
  recommendation : Category;
  confidence : Q;
  signal_strength : Q;
  reasoning : string
}.

(** [needle in haystack] on strings. *)
Definition str_contains (needle haystack : string) : bool :=
  match String.index 0 needle haystack with
  | Some _ => true
  | None => false
  end.

(** [analysis.get('signal_processing', {}).get('hurst_exponent')] *)
Definition get_hurst (analysis : Analysis) : option Q :=
  match signal_processing analysis with
  | Some sp => hurst_exponent sp
  | None => None
  end.

(** [analysis.get('price_change_pct', 0)] *)
Definition get_price_change (analysis : Analysis) : Q :=
  default 0 (price_change_pct analysis).

(** [analysis.get('metrics', {}).get('sharpe_ratio', 0)] *)
Definition get_sharpe (analysis : Analysis) : Q :=
  match metrics analysis with
  | Some m => default 0 (sharpe_ratio m)
  | None => 0
  end.

(** [price_series.iloc[-1] / price_series.iloc[-20] - 1] *)
Definition return_20 (price_series : Series) : result pyfloat :=
  last_price <-r or_raise IndexError (py_index price_series (-1)) ;;
  old_price <-r or_raise IndexError (py_index price_series (-20)) ;;
  Ok (fsub (np_div last_price old_price) 1).

(** 1. Hurst exponent signal. *)
Definition hurst_signal (hurst : Q) (price_series : Series) : result Q :=
  if Qltb hurst (45 # 100) then
    recent_return <-r return_20 price_series ;;
    if fgtb recent_return (5 # 100) then Ok (-1)
    else if fltb recent_return (- (5 # 100)) then Ok 1
    else Ok 0
  else if Qgtb hurst (55 # 100) then
    momentum <-r return_20 price_series ;;
    if fgtb momentum 0 then Ok 1 else Ok (-1)
  else Ok 0.

(** [regime.get('regime_descriptions', {}).get(key, '')] *)
Definition regime_description (r : RegimeDict) (key : option Z) : string :=
  match key with
  | Some c => default ""%string (default ∅ (regime_descriptions r) !! c)
  | None => ""%string
  end.

(** [regime.get('regime_probabilities', [0, 0, 0])[current_regime]] *)
Definition regime_probability (r : RegimeDict) : result Q :=
  match current_regime r with
  | None => Raise TypeError
  | Some c =>
      or_raise IndexError
        (py_index (default [0; 0; 0] (regime_probabilities r)) c)
  end.

(** 2. Regime signal. *)
Definition regime_signal (r : RegimeDict) : result Q :=
  let regime_desc := regime_description r (current_regime r) in
  regime_prob <-r regime_probability r ;;
  if str_contains "Bull" regime_desc && Qgtb regime_prob (6 # 10) then Ok 1
  else if str_contains "Bear" regime_desc && Qgtb regime_prob (6 # 10) then Ok (-1)
  else Ok 0.

(** 3. Volatility signal. *)
Definition volatility_signal (v : VolatilityDict) : Q :=
  let current_vol := default 0 (annualized_volatility v) in
  if Qgtb current_vol (40 # 100) then - (1 # 2)
  else if Qltb current_vol (15 # 100) then 1 # 2
  else 0.

(** 4. Momentum signal. *)
Definition momentum_signal (sharpe price_change : Q) : Q :=
  if Qgtb sharpe (15 # 10) then
    if Qgtb price_change 0 then 1 else 1 # 2
  else if Qltb sharpe (5 # 10) then
    if Qltb price_change 0 then -1 else - (1 # 2)
  else 0.

(** 5. Statistical signal. *)
Definition statistical_signal (c : CointegrationDict) (price_change : Q) : Q :=
  let stationary := default false (is_stationary c) in
  if negb stationary then
    if Qgtb price_change 2 then 1
    else if Qltb price_change (-2) then -1
    else 0
  else
    if Qgtb price_change 3 then -1
    else if Qltb price_change (-3) then 1
    else 0.

(** The two lists [signals] and [weights] after the five factor
    blocks, each block appending to both. *)
Definition gather_signals (analysis : Analysis) (price_series : Series)
  : result (list Q * list Q) :=
  let signals := [] in
  let weights := [] in
  sw1 <-r match get_hurst analysis with
          | Some hurst =>
              s <-r hurst_signal hurst price_series ;;
              Ok (signals ++ [s], weights ++ [30 # 100])
          | None => Ok (signals, weights)
          end ;;
  sw2 <-r match regime analysis with
          | Some r =>
              s <-r regime_signal r ;;
              Ok (sw1.1 ++ [s], sw1.2 ++ [25 # 100])
          | None => Ok sw1
          end ;;
  let sw3 := match volatility analysis with
             | Some v => (sw2.1 ++ [volatility_signal v], sw2.2 ++ [15 # 100])
             | None => sw2
             end in
  let price_change := get_price_change analysis in
  let sharpe := get_sharpe analysis in
  let sw4 := (sw3.1 ++ [momentum_signal sharpe price_change], sw3.2 ++ [20 # 100]) in
  let sw5 := match cointegration analysis with
             | Some c => (sw4.1 ++ [statistical_signal c price_change], sw4.2 ++ [10 # 100])
             | None => sw4
             end in
  Ok sw5.

(** [weights_array / weights_array.sum()], in exact arithmetic; the
    binary64 run of the fusion step is in [FusionBinary64] below. *)
Definition normalize (weights : list Q) : list Q :=
  map (fun w => w / Qsum weights) weights.

(** [np.average(a, weights=w)]: [sum(a * w) / sum(w)]. *)
Definition np_average (a w : list Q) : Q :=
  Qsum (zip_with Qmult a w) / Qsum w.

Definition weighted_signal_of (signals weights : list Q) : Q :=
  np_average signals (normalize weights).

(** The recommendation and the confidence before it is rounded. *)
Definition decide_recommendation (weighted_signal : Q) : Category * Q :=
  if Qgtb weighted_signal (3 # 10) then
    (BUY, Qmin (Qabs weighted_signal * 100) 100)
  else if Qltb weighted_signal (- (3 # 10)) then
    (SELL, Qmin (Qabs weighted_signal * 100) 100)
  else
    (HOLD, 100 - Qabs weighted_signal * 100).

Section Reasoning.

(** [format_float n x] is the text of [f"{x:.nf}"]. *)
Variable format_float : nat -> Q -> string.

Definition hurst_reason (analysis : Analysis) : list string :=
  match get_hurst analysis with
  | Some hurst =>
      if Qltb hurst (45 # 100)
      then ["Mean reverting (H=" ++ format_float 2 hurst ++ ")"]%string
      else if Qgtb hurst (55 # 100)
           then ["Trending (H=" ++ format_float 2 hurst ++ ")"]%string
           else []
  | None => []
  end.

Definition regime_reason (analysis : Analysis) : list string :=
  match regime analysis with
  | Some r => [regime_description r (Some (default 0%Z (current_regime r)))]
  | None => []
  end.

Definition volatility_reason (analysis : Analysis) : list string :=
  match volatility analysis with
  | Some v =>
      let vol_pct := default 0 (annualized_volatility v) * 100 in
      if Qgtb vol_pct 40
      then ["High volatility (" ++ format_float 1 vol_pct ++ "%)"]%string
      else if Qltb vol_pct 15
           then ["Low volatility (" ++ format_float 1 vol_pct ++ "%)"]%string
           else []
  | None => []
  end.

Definition sharpe_reason (analysis : Analysis) : list string :=
  let sharpe := get_sharpe analysis in
  if Qgtb sharpe (15 # 10)
  then ["Strong Sharpe (" ++ format_float 2 sharpe ++ ")"]%string
  else if Qltb sharpe (5 # 10)
       then ["Weak Sharpe (" ++ format_float 2 sharpe ++ ")"]%string
       else [].

Definition build_reasoning (analysis : Analysis) : string :=
  let reasoning_parts :=
    hurst_reason analysis ++ regime_reason analysis
    ++ volatility_reason analysis ++ sharpe_reason analysis in
  match reasoning_parts with
  | [] => "Based on technical analysis"%string
  | _ => String.concat " | " reasoning_parts
  end.

Definition calculate_trading_signal
           (analysis : Analysis) (price_series : Series) (returns : Series)
  : result TradingSignal :=
  sw <-r gather_signals analysis price_series ;;
  let signals := sw.1 in
  let weights := sw.2 in
  match signals with
  | [] =>
      Ok {| recommendation := HOLD;
            confidence := 0;
            signal_strength := 0;
            reasoning := "Insufficient data for recommendation" |}
  | _ :: _ =>
      let weighted_signal := weighted_signal_of signals weights in
      let rc := decide_recommendation weighted_signal in
      Ok {| recommendation := rc.1;
            confidence := py_round rc.2 1;
            signal_strength := py_round weighted_signal 3;
            reasoning := build_reasoning analysis |}
  end.

End Reasoning.

End Recommendation.

(** ** Specification-side definitions *)

Module Closed.

Import SignalProcessing.

(** The weight recursion of [fractional_diff] as a function of the
    index: [frac_weight d k] is the [k]-th weight appended. *)
Fixpoint frac_weight (d : Q) (k : nat) : Q :=
  match k with
  | O => 1
  | S k' => - frac_weight d k' * (d - Qn (S k') + 1) / Qn (S k')
  end.

(** The first [n + 1] weights, in construction order. *)
Definition weights_upto (d : Q) (n : nat) : list Q :=
  map (frac_weight d) (seq 0 (S n)).

(** The loop test at index [k]. *)
Definition above (d threshold : Q) (k : nat) : bool :=
  Qgtb (Qabs (frac_weight d k)) threshold.

(** The [i]-th candidate order of [find_min_ffd]: 0.0, 0.1, 0.2, ... *)
Definition grid_point (i : nat) : Q := 0 + Qn i * (1 # 10).

(** A candidate order passes: its differenced series has at least 10
    valid points and the oracle reports a p-value below 0.05. *)
Definition qualifies (adfuller_pvalue : list Q -> Q)
           (series : Series) (threshold d : Q) : Prop :=
  exists fuel ffd_series,
    fractional_diff fuel series d threshold = Some ffd_series
    /\ (10 <= length ffd_series)%nat
    /\ adfuller_pvalue (map snd ffd_series) < 5 # 100.

(** Every observation of the series is present. *)
Definition all_valid (series : Series) : Prop :=
  forall i, (i < length series)%nat -> exists x, series !! i = Some (Some x).

End Closed.

(** ** Sample inputs *)

Module Samples.

Import Recommendation.

(** A formatting function for the examples. *)
Definition plain_format (ndigits : nat) (x : Q) : string := "#"%string.

(** [analysis = {}]: no factor supplied. *)
Definition no_factors : Analysis :=
  {| signal_processing := None; regime := None; volatility := None;
     price_change_pct := None; metrics := None; cointegration := None |}.

(** Low volatility, a strong Sharpe ratio and a rising price. *)
Definition calm_and_strong : Analysis :=
  {| signal_processing := None; regime := None;
     volatility := Some {| annualized_volatility := Some (10 # 100) |};
     price_change_pct := Some 1;
     metrics := Some {| sharpe_ratio := Some 2 |};
     cointegration := None |}.

(** A middling Sharpe ratio and nothing else. *)
Definition neutral : Analysis :=
  {| signal_processing := None; regime := None; volatility := None;
     price_change_pct := Some 1;
     metrics := Some {| sharpe_ratio := Some 1 |};
     cointegration := None |}.

(** A regime dictionary whose [current_regime] is 3 and that has no
    [regime_probabilities], so that the default [[0, 0, 0]] is used. *)
Definition regime_out_of_range : Analysis :=
  {| signal_processing := None;
     regime := Some {| current_regime := Some 3%Z;
                       regime_descriptions := None;
                       regime_probabilities := None |};
     volatility := None;
     price_change_pct := Some 1;
     metrics := Some {| sharpe_ratio := Some 1 |};
     cointegration := None |}.

(** The same with a three-state posterior and a valid state. *)
Definition regime_bull : Analysis :=
  {| signal_processing := None;
     regime := Some {| current_regime := Some 2%Z;
                       regime_descriptions :=
                         Some {[ 2%Z := "Bull Market (Positive Mean)"%string ]};
                       regime_probabilities := Some [1 # 10; 1 # 10; 8 # 10] |};
     volatility := None;
     price_change_pct := Some 1;
     metrics := Some {| sharpe_ratio := Some 1 |};
     cointegration := None |}.

Definition twenty_prices : Series := replicate 20 (Some 100).

(** Twenty prices ending 8% above the first. *)
Definition rally_prices : Series := replicate 19 (Some 100) ++ [Some 108].

(** Only the Hurst exponent, at 0.30. *)
Definition hurst_only : Analysis :=
  {| signal_processing := Some {| hurst_exponent := Some (30 # 100) |};
     regime := None; volatility := None;
     price_change_pct := None; metrics := None; cointegration := None |}.

(** The integers 0 .. 13 as a price series. *)
Definition ramp_14 : Series := map (fun i => Some (Qn i)) (seq 0 14).

(** An oracle that accepts a series as soon as it has fewer than 12
    points. *)
Definition short_series_oracle (x : list Q) : Q :=
  if (length x <? 12)%nat then 1 # 100 else 1.

End Samples.

(** ** Derived notions for the fusion engine *)

Module Fusion.

Import Recommendation.

(** The weights the five blocks append, read off which factors the
    dictionary carries. *)
Definition present_weights (analysis : Analysis) : list Q :=
  match get_hurst analysis with Some _ => [30 # 100] | None => [] end
  ++ match regime analysis with Some _ => [25 # 100] | None => [] end
  ++ match volatility analysis with Some _ => [15 # 100] | None => [] end
  ++ [20 # 100]
  ++ match cointegration analysis with Some _ => [10 # 100] | None => [] end.

End Fusion.

(** ** More sample inputs *)

Module MoreSamples.

Import Recommendation Samples.

(** All five factors: a trending Hurst exponent, a confident bull
    regime, low volatility, a strong Sharpe ratio and a non-stationary
    series that rose by 2.5%. *)
Definition all_factors : Analysis :=
  {| signal_processing := Some {| hurst_exponent := Some (60 # 100) |};
     regime := Some {| current_regime := Some 2%Z;
                       regime_descriptions :=
                         Some {[ 2%Z := "Bull Market (Positive Mean)"%string ]};
                       regime_probabilities := Some [1 # 10; 1 # 10; 8 # 10] |};
     volatility := Some {| annualized_volatility := Some (10 # 100) |};
     price_change_pct := Some (25 # 10);
     metrics := Some {| sharpe_ratio := Some 2 |};
     cointegration := Some {| is_stationary := Some false |} |}.

(** A mean-reverting Hurst exponent with a price series that is too
    short for the 20-period return. *)
Definition five_prices : Series := replicate 5 (Some 100).

End MoreSamples.

(** ** Operations on series used to state properties *)

Module SeriesOps.

(** [series * c]: every present value is multiplied by [c]. *)
Definition scale (c : Q) (series : Series) : Series :=
  map (fmap (fun x => x * c)) series.

(** Two values of a series, the first being [c] times the second. *)
Definition scaled_value (c : Q) (x' x : option Q) : Prop :=
  match x', x with
  | Some a', Some a => a' == a * c
  | None, None => True
  | _, _ => False
  end.

(** The same for the points of an indexed series. *)
Definition scaled_point (c : Q) (p' p : nat * Q) : Prop :=
  fst p' = fst p /\ snd p' == snd p * c.

(** One pass over a series that emits, for every present value that
    follows a present value, the pair (difference, previous value). *)
Fixpoint adjacent_rows (prev : option Q) (series : Series) : list (Q * Q) :=
  match series with
  | [] => []
  | x :: rest =>
      match x, prev with
      | Some b, Some a => [(b - a, a)]
      | _, _ => []
      end ++ adjacent_rows x rest
  end.

(** [prev] followed by the series without its last value:
    [spread.shift(1)] with [prev] in the vacated first position. *)
Definition shifted (prev : option Q) (s : Series) : Series :=
  prev :: removelast s.

(** The element-wise difference of a series and a shifted copy. *)
Definition diff_against (s shifted_s : Series) : Series :=
  zip_with (fun cur prev =>
              match cur, prev with
              | Some a, Some b => Some (a - b)
              | _, _ => None
              end) s shifted_s.

End SeriesOps.

(** * Further functions of the repository

    The modules below embed [adf_test], [kpss_test],
    [combined_stationarity_test], [johansen_cointegration_test] and
    [calculate_z_score] of [analyzers/cointegration.py],
    [calculate_hurst_exponent] of [analyzers/signal_processing.py],
    [detect_regime] of [analyzers/regime.py], [calculate_max_drawdown]
    of [routes/analysis.py] and [_get_ticker_symbol] of
    [data/provider.py].  The library routines they call (statsmodels'
    [adfuller], [kpss] and [coint_johansen], the fitted hidden Markov
    model, [np.sqrt], the log-log regression of [np.polyfit]) are
    section variables; pandas' [rolling], [cummax], [cumsum], [min] and
    [max] are written out with their treatment of missing values. *)

(** ** Stationarity and Johansen tests ([analyzers/cointegration.py]) *)

Module CointegrationTests.

(** What the code reads of the tuple returned by statsmodels'
    [adfuller]: [result[0]], [result[1]] and [result[4]]. *)
Record AdfullerOutput : Type := {
  adfstat : Q;
  adf_p : Q;
  adf_crit : list (string * Q)
}.

(** What the code reads of the tuple returned by statsmodels' [kpss]:
    [result[0]], [result[1]] and [result[3]]. *)
Record KpssOutput : Type := {
  kpss_stat : Q;
  kpss_p : Q;
  kpss_crit : list (string * Q)
}.

(** The pydantic model [CointegrationResult]. *)
Record CointegrationResult : Type := {
  adf_statistic : Q;
  adf_pvalue : Q;
  adf_critical_values : list (string * Q);
  is_stationary : bool;
  kpss_statistic : option Q;
  kpss_pvalue : option Q;
  kpss_critical_values : option (list (string * Q))
}.

(** The dictionary returned by [kpss_test]. *)
Record KpssDict : Type := {
  statistic : Q;
  pvalue : Q;
  critical_values : list (string * Q);
  kpss_is_stationary : bool
}.

(** The values of [series.dropna()]. *)
Definition dropna_values (series : Series) : list Q :=
  map snd (SignalProcessing.dropna series).

Section Tests.

(** [adfuller(x, regression=..., autolag=...)] and
    [kpss(x, regression=..., nlags=...)] of statsmodels. *)
Variable adfuller : list Q -> string -> string -> AdfullerOutput.
Variable kpss : list Q -> string -> string -> KpssOutput.

Definition adf_test (series : Series) (regression autolag : string)
  : CointegrationResult :=
  let result := adfuller (dropna_values series) regression autolag in
  let pvalue := adf_p result in
  {| adf_statistic := adfstat result;
     adf_pvalue := pvalue;
     adf_critical_values := adf_crit result;
     is_stationary := Qltb pvalue (5 # 100);
     kpss_statistic := None;
     kpss_pvalue := None;
     kpss_critical_values := None |}.

Definition kpss_test (series : Series) (regression nlags : string) : KpssDict :=
  let result := kpss (dropna_values series) regression nlags in
  {| statistic := kpss_stat result;
     pvalue := kpss_p result;
     critical_values := kpss_crit result;
     kpss_is_stationary := Qgtb (kpss_p result) (5 # 100) |}.

Definition combined_stationarity_test (series : Series) : CointegrationResult :=
  let adf_result := adf_test series "c" "AIC" in
  let kpss_result := kpss_test series "c" "auto" in
  {| adf_statistic := adf_statistic adf_result;
     adf_pvalue := adf_pvalue adf_result;
     adf_critical_values := adf_critical_values adf_result;
     is_stationary := is_stationary adf_result && kpss_is_stationary kpss_result;
     kpss_statistic := Some (statistic kpss_result);
     kpss_pvalue := Some (pvalue kpss_result);
     kpss_critical_values := Some (critical_values kpss_result) |}.

(** The p-value [find_min_ffd] reads:
    [adfuller(x, regression='c', autolag='AIC')[1]]. *)
Definition adfuller_pvalue (x : list Q) : Q := adf_p (adfuller x "c" "AIC").

End Tests.

(** A differentiated series as the [pd.Series] handed on to a test. *)
Definition as_series (s : IndexedSeries) : Series :=
  map (fun p => Some (snd p)) s.

(** What the code reads of the object returned by statsmodels'
    [coint_johansen]; a row of [cvt] and [cvm] holds the 90%, 95% and
    99% critical values. *)
Record JohansenResult : Type := {
  lr1 : list Q;
  cvt : list (Q * Q * Q);
  lr2 : list Q;
  cvm : list (Q * Q * Q);
  evec : list (list Q)
}.

(** [crit[i, 1]] within row [i]. *)
Definition column_1 (row : Q * Q * Q) : Q := snd (fst row).

(** One pass of
<<
    for i in range(len(trace_stat)):
        if trace_stat[i] > trace_crit[i, 1]:
            n_cointegrating = i + 1
>> *)
Definition count_step (trace_stat : list Q) (trace_crit : list (Q * Q * Q))
           (acc : result nat) (i : nat) : result nat :=
  n_cointegrating <-r acc ;;
  stat <-r or_raise IndexError (trace_stat !! i) ;;
  row <-r or_raise IndexError (trace_crit !! i) ;;
  if Qgtb stat (column_1 row) then Ok (i + 1)%nat else Ok n_cointegrating.

Definition n_cointegrating_loop (trace_stat : list Q)
           (trace_crit : list (Q * Q * Q)) : result nat :=
  foldl (count_step trace_stat trace_crit) (Ok 0%nat)
        (seq 0 (length trace_stat)).

(** The dictionary returned by [johansen_cointegration_test]. *)
Record JohansenDict : Type := {
  trace_statistic : list Q;
  trace_critical_values : list Q;
  max_eig_statistic : list Q;
  max_eig_critical_values : list Q;
  n_cointegrating_vectors : nat;
  eigenvectors : list (list Q)
}.

Section Johansen.

Variable DataFrame : Type.

(** [coint_johansen(data.dropna(), det_order=..., k_ar_diff=...)] *)
Variable coint_johansen : DataFrame -> Z -> Z -> JohansenResult.

Definition johansen_cointegration_test (data : DataFrame)
           (det_order k_ar_diff : Z) : result JohansenDict :=
  let result := coint_johansen data det_order k_ar_diff in
  let trace_stat := lr1 result in
  let trace_crit := cvt result in
  let max_eig_stat := lr2 result in
  let max_eig_crit := cvm result in
  n_cointegrating <-r n_cointegrating_loop trace_stat trace_crit ;;
  Ok {| trace_statistic := trace_stat;
        trace_critical_values := map column_1 trace_crit;
        max_eig_statistic := max_eig_stat;
        max_eig_critical_values := map column_1 max_eig_crit;
        n_cointegrating_vectors := n_cointegrating;
        eigenvectors := evec result |}.

End Johansen.

(** Rank [i] (counted from 0) is rejected by the trace test at the
    95% level. *)
Definition trace_rejects (trace_stat : list Q) (trace_crit : list (Q * Q * Q))
           (i : nat) : Prop :=
  exists stat row, trace_stat !! i = Some stat /\ trace_crit !! i = Some row
                   /\ column_1 row < stat.

End CointegrationTests.

(** ** Maximum drawdown ([routes/analysis.py]) *)

Module Routes.

(** [prices.cummax()]: the running maximum of the values seen so far;
    a missing value stays missing and does not change the maximum. *)
Fixpoint cummax_from (best : option Q) (prices : Series) : Series :=
  match prices with
  | [] => []
  | None :: rest => None :: cummax_from best rest
  | Some x :: rest =>
      let best' := match best with
                   | Some m => if Qgtb x m then x else m
                   | None => x
                   end in
      Some best' :: cummax_from (Some best') rest
  end.

Definition cummax (prices : Series) : Series := cummax_from None prices.

(** [a - b] on two aligned series. *)
Definition series_sub (a b : Series) : Series :=
  zip_with (fun x y => match x, y with
                       | Some u, Some v => Some (u - v)
                       | _, _ => None
                       end) a b.

(** [a / b] on two aligned series. *)
Definition series_div (a b : Series) : list pyfloat := zip_with np_div a b.

(** The smaller of two floats, a [NaN] being skipped. *)
Definition fmin (a b : pyfloat) : pyfloat :=
  match a, b with
  | NaN, _ => b
  | _, NaN => a
  | NegInf, _ => NegInf
  | _, NegInf => NegInf
  | PosInf, _ => b
  | _, PosInf => a
  | Finite x, Finite y => if Qltb y x then Finite y else Finite x
  end.

(** [s.min()]: the smallest value that is not [NaN], and [NaN] when
    there is none. *)
Definition series_min (s : list pyfloat) : pyfloat := foldr fmin NaN s.

(** [abs(float(x))] *)
Definition fabs (a : pyfloat) : pyfloat :=
  match a with
  | Finite x => Finite (Qabs x)
  | PosInf | NegInf => PosInf
  | NaN => NaN
  end.

Definition calculate_max_drawdown (prices : Series) : pyfloat :=
  let cummax := cummax prices in
  let drawdown := series_div (series_sub prices cummax) cummax in
  fabs (series_min drawdown).

End Routes.

(** ** Symbol table of the data provider ([data/provider.py]) *)

Module Provider.

Definition NASDAQ_SYMBOLS : list string :=
  ["AAPL"; "MSFT"; "GOOGL"; "AMZN"; "NVDA"; "META"; "TSLA"; "AVGO";
   "COST"; "NFLX"; "AMD"; "PEP"; "CSCO"; "ADBE"; "CMCSA"; "INTC";
   "QCOM"; "TXN"; "INTU"; "AMGN"; "AMAT"; "HON"; "SBUX"; "GILD";
   "ADI"; "PYPL"; "MDLZ"; "VRTX"; "REGN"; "ISRG"; "MU"; "LRCX"]%string.

Definition SP500_SYMBOLS : list string :=
  ["AAPL"; "MSFT"; "GOOGL"; "AMZN"; "NVDA"; "BRK-B"; "META"; "TSLA";
   "V"; "UNH"; "XOM"; "LLY"; "JNJ"; "JPM"; "WMT"; "MA"; "PG";
   "AVGO"; "HD"; "CVX"; "MRK"; "COST"; "ABBV"; "KO"; "PEP";
   "BAC"; "CRM"; "NFLX"; "TMO"; "AMD"; "ACN"; "MCD"; "CSCO";
   "DHR"; "ABT"; "LIN"; "ADBE"; "DIS"; "WFC"; "VZ"; "CMCSA"]%string.

(** The dictionary [FOREX_SYMBOLS], in insertion order. *)
Definition FOREX_SYMBOLS : list (string * string) :=
  [("EURUSD", "EURUSD=X");
   ("GBPUSD", "GBPUSD=X");
   ("USDJPY", "JPY=X");
   ("AUDUSD", "AUDUSD=X");
   ("USDCAD", "CAD=X");
   ("USDCHF", "CHF=X");
   ("XAUUSD", "GC=F");
   ("XAGUSD", "SI=F")]%string.

(** [d[key]] when [key in d]. *)
Fixpoint dict_get (d : list (string * string)) (key : string) : option string :=
  match d with
  | [] => None
  | (k, v) :: rest => if String.eqb key k then Some v else dict_get rest key
  end.

(** [_get_ticker_symbol] *)
Definition get_ticker_symbol (symbol : string) : string :=
  match dict_get FOREX_SYMBOLS symbol with
  | Some ticker => ticker
  | None => symbol
  end.

End Provider.

(** ** Regime detection ([analyzers/regime.py]) *)

Module Regime.

(** What [detect_regime] reads of the fitted model: the predicted
    state of every observation, the posterior probabilities of every
    observation, and the flattened state means and variances. *)
Record HMMFit : Type := {
  hidden_states : list Z;
  posteriors : list (list Q);
  means_ : list Q;
  covars_ : list Q
}.

(** The pydantic model [RegimeDetection]. *)
Record RegimeDetection : Type := {
  current_regime : Z;
  regime_probabilities : list Q;
  regime_descriptions : gmap Z string;
  n_states : nat
}.

(** [np.argsort]: the positions of the values in increasing order of
    value, by insertion of one position after the other.  numpy leaves
    the order of equal values to the sorting routine; here a position
    is placed after the earlier positions of the same value, and the
    properties stated for [detect_regime] assume distinct values. *)
Fixpoint insert_by_value (p : Q * nat) (sorted : list (Q * nat))
  : list (Q * nat) :=
  match sorted with
  | [] => [p]
  | q :: rest =>
      if Qltb (fst p) (fst q) then p :: q :: rest
      else q :: insert_by_value p rest
  end.

Definition np_argsort (a : list Q) : list nat :=
  map snd (foldl (fun sorted p => insert_by_value p sorted) []
                 (zip a (seq 0 (length a)))).

Section DetectRegime.

(** [f"Regime {i+1} (mu={means[idx]:.4f}, sigma2={variances[idx]:.4f})"],
    as a function of [i + 1] and the two numbers. *)
Variable regime_label : nat -> Q -> Q -> string.

(** The model fitted to the returns for a number of states, with its
    predictions on the returns. *)
Variable fit_hmm : Series -> nat -> HMMFit.

(** The descriptions generated when no names are given. *)
Definition generated_descriptions (n_states : nat) (means variances : list Q)
  : result (gmap Z string) :=
  let sorted_indices := np_argsort means in
  if (n_states =? 2)%nat then
    i0 <-r or_raise IndexError (sorted_indices !! 0%nat) ;;
    i1 <-r or_raise IndexError (sorted_indices !! 1%nat) ;;
    Ok (<[ Z.of_nat i1 := "Bull Market (High Mean)"%string ]>
        (<[ Z.of_nat i0 := "Bear Market (Low Mean)"%string ]> ∅))
  else if (n_states =? 3)%nat then
    i0 <-r or_raise IndexError (sorted_indices !! 0%nat) ;;
    i1 <-r or_raise IndexError (sorted_indices !! 1%nat) ;;
    i2 <-r or_raise IndexError (sorted_indices !! 2%nat) ;;
    Ok (<[ Z.of_nat i2 := "Bull Market (Positive Mean)"%string ]>
        (<[ Z.of_nat i1 := "Sideways (Low Volatility)"%string ]>
         (<[ Z.of_nat i0 := "Bear Market (Negative Mean)"%string ]> ∅)))
  else
    foldl (fun acc '(i, idx) =>
             descriptions <-r acc ;;
             m <-r or_raise IndexError (means !! idx) ;;
             v <-r or_raise IndexError (variances !! idx) ;;
             Ok (<[ Z.of_nat idx := regime_label (i + 1) m v ]> descriptions))
          (Ok ∅)
          (zip (seq 0 (length sorted_indices)) sorted_indices).

Definition detect_regime (returns : Series) (n_states : nat)
           (regime_names : option (gmap Z string)) : result RegimeDetection :=
  let model := fit_hmm returns n_states in
  current_regime <-r or_raise IndexError (py_index (hidden_states model) (-1)) ;;
  current_probabilities <-r or_raise IndexError (py_index (posteriors model) (-1)) ;;
  let means := means_ model in
  let variances := covars_ model in
  regime_descriptions <-r
    match regime_names with
    | None => generated_descriptions n_states means variances
    | Some names => Ok names
    end ;;
  Ok {| current_regime := current_regime;
        regime_probabilities := current_probabilities;
        regime_descriptions := regime_descriptions;
        n_states := n_states |}.

End DetectRegime.

(** [regime_result.dict()], the dictionary [analyze_symbol] hands to
    [calculate_trading_signal]. *)
Definition regime_dict (r : RegimeDetection) : Recommendation.RegimeDict :=
  {| Recommendation.current_regime := Some (current_regime r);
     Recommendation.regime_descriptions := Some (regime_descriptions r);
     Recommendation.regime_probabilities := Some (regime_probabilities r) |}.

(** [m] is the largest, respectively the smallest, of the state means. *)
Definition is_largest (means : list Q) (m : Q) : bool :=
  forallb (fun m' => Qle_bool m' m) means.

Definition is_smallest (means : list Q) (m : Q) : bool :=
  forallb (fun m' => Qle_bool m m') means.

End Regime.

(** ** Rolling statistics: the z-score ([analyzers/cointegration.py])
       and the Hurst exponent ([analyzers/signal_processing.py]) *)

Module RollingStats.

Import SignalProcessing.

(** The values of a window when none of them is missing. *)
Fixpoint present_values (w : Series) : option (list Q) :=
  match w with
  | [] => Some []
  | Some x :: rest =>
      match present_values rest with
      | Some xs => Some (x :: xs)
      | None => None
      end
  | None :: _ => None
  end.

(** The [window] values that end at position [i]; pandas yields no
    result while fewer than [window] observations are in the window
    ([min_periods] defaults to the window size). *)
Definition rolling_window (series : Series) (window i : nat) : option (list Q) :=
  if (i + 1 <? window)%nat then None
  else present_values (iloc_slice series (i + 1 - window) (i + 1)).

(** [series.rolling(window=window).f()] *)
Definition rolling (f : list Q -> option Q) (series : Series) (window : nat)
  : Series :=
  map (fun i => rolling_window series window i ≫= f) (seq 0 (length series)).

(** The mean of a window. *)
Definition window_mean (w : list Q) : option Q :=
  match w with
  | [] => None
  | _ => Some (Qsum w / Qn (length w))
  end.

(** The sample variance of a window (one degree of freedom removed),
    undefined for fewer than two values. *)
Definition window_var (w : list Q) : option Q :=
  if (length w <? 2)%nat then None
  else
    let m := Qsum w / Qn (length w) in
    Some (Qsum (map (fun x => (x - m) * (x - m)) w) / Qn (length w - 1)).

(** [s.cumsum()]: a missing value stays missing and is skipped by the
    running sum. *)
Fixpoint cumsum_from (acc : Q) (s : Series) : Series :=
  match s with
  | [] => []
  | None :: rest => None :: cumsum_from acc rest
  | Some x :: rest => Some (acc + x) :: cumsum_from (acc + x) rest
  end.

Definition cumsum (s : Series) : Series := cumsum_from 0 s.

(** [s.max()] and [s.min()], missing values skipped; [None] when no
    value is present. *)
Definition skipna_max (s : Series) : option Q :=
  foldr (fun x acc =>
           match x, acc with
           | Some a, Some b => Some (if Qgtb a b then a else b)
           | Some a, None => Some a
           | None, _ => acc
           end) None s.

Definition skipna_min (s : Series) : option Q :=
  foldr (fun x acc =>
           match x, acc with
           | Some a, Some b => Some (if Qltb a b then a else b)
           | Some a, None => Some a
           | None, _ => acc
           end) None s.

Section WithSqrt.

(** [np.sqrt] on the non-negative numbers it is applied to. *)
Variable np_sqrt : Q -> Q.

Definition window_std (w : list Q) : option Q := np_sqrt <$> window_var w.

(** [calculate_z_score] *)
Definition calculate_z_score (spread : Series) (window : nat) : list pyfloat :=
  let mean := rolling window_mean spread window in
  let std := rolling window_std spread window in
  Routes.series_div (Routes.series_sub spread mean) std.

(** The body of the loop of [calculate_hurst_exponent] for one lag:
    [None] is the [continue] taken when no rolling standard deviation
    is defined, otherwise the value appended to [tau]. *)
Definition rs_for_lag (series : Series) (lag : nat) : option pyfloat :=
  let std := map snd (dropna (rolling window_std series lag)) in
  if (length std =? 0)%nat then None
  else
    let rolling_mean := map snd (dropna (rolling window_mean series lag)) in
    let deviations :=
      zip_with (fun x m => (fun v => v - m) <$> x)
               (iloc_slice series (lag - 1) (length rolling_mean + lag - 1))
               rolling_mean in
    let cumulative_dev := cumsum deviations in
    let R := match skipna_max cumulative_dev, skipna_min cumulative_dev with
             | Some hi, Some lo => Some (hi - lo)
             | _, _ => None
             end in
    let std_mean := Qsum std / Qn (length std) in
    Some (if Qgtb std_mean 0
          then match R with
               | Some r => Finite (r / std_mean)
               | None => NaN
               end
          else Finite 0).

Definition tau_step (series : Series) (tau : list pyfloat) (lag : nat)
  : list pyfloat :=
  match rs_for_lag series lag with
  | None => tau
  | Some RS => tau ++ [RS]
  end.

(** [np.polyfit(np.log(lags), np.log(tau), 1)[0]] *)
Variable log_log_slope : list nat -> list pyfloat -> result pyfloat.

Definition calculate_hurst_exponent (series : Series) (max_lag : nat)
  : result pyfloat :=
  let lags := seq 2 (max_lag - 2) in
  let tau := foldl (tau_step series) [] lags in
  if (length tau =? 0)%nat then Ok (Finite (5 # 10))
  else log_log_slope (take (length tau) lags) tau.

End WithSqrt.

(** Some window of [lag] consecutive values of the series has no
    missing value. *)
Definition has_full_window (series : Series) (lag : nat) : Prop :=
  exists i, (lag <= i + 1 <= length series)%nat
            /\ forall j, (i + 1 - lag <= j <= i)%nat ->
                         exists x, series !! j = Some (Some x).

End RollingStats.

(** ** Sample inputs for the further properties *)

Module CoverageSamples.

(** A Johansen result on two series whose trace statistic stays below
    the 95% critical value for rank 0 and exceeds it for rank 1. *)
Definition johansen_second_only : CointegrationTests.JohansenResult :=
  {| CointegrationTests.lr1 := [10; 5];
     CointegrationTests.cvt := [(13, 15, 20); (3, 4, 7)];
     CointegrationTests.lr2 := [5; 5];
     CointegrationTests.cvm := [(12, 14, 19); (3, 4, 7)];
     CointegrationTests.evec := [[1; 0]; [0; 1]] |}.

(** Prices that peak at 120, fall to 90 and recover to 110. *)
Definition peak_and_recovery : list Q := [100; 120; 90; 110].

(** A fitted three-state model whose state 1 has the lowest and state
    0 the highest mean (all three negative); the last observation is
    in state 0 with posterior probability 0.9. *)
Definition falling_market_fit : Regime.HMMFit :=
  {| Regime.hidden_states := [1; 1; 2; 0]%Z;
     Regime.posteriors := [[0; 1; 0]; [0; 1; 0]; [0; 0; 1];
                           [9 # 10; 0; 1 # 10]];
     Regime.means_ := [- (1 # 1000); - (2 # 100); - (5 # 1000)];
     Regime.covars_ := [1 # 10000; 4 # 10000; 2 # 10000] |}.

(** A label for the general branch of the descriptions. *)
Definition plain_label (i : nat) (m v : Q) : string := "Regime"%string.

(** An ADF routine that accepts a series as soon as it has fewer than
    12 points. *)
Definition short_series_adfuller (x : list Q) (regression autolag : string)
  : CointegrationTests.AdfullerOutput :=
  {| CointegrationTests.adfstat := -4;
     CointegrationTests.adf_p := Samples.short_series_oracle x;
     CointegrationTests.adf_crit := [("5%"%string, - (29 # 10))] |}.

(** Stand-ins for [np.sqrt] and for the log-log regression: the
    properties hold for every choice of the two. *)
Definition sample_sqrt (x : Q) : Q := x.

Definition sample_slope (lags : list nat) (tau : list pyfloat) : result pyfloat :=
  Ok (Finite (Qn (length lags) / 100)).

(** A spread of three values. *)
Definition three_spreads : Series := [Some 1; Some 2; Some 4].

End CoverageSamples.

(** * The fusion step in binary64 arithmetic

    The category of a recommendation is decided by comparing the
    weighted signal with 0.3, and the exact average of the gathered
    signals can be exactly 0.3, where the rounding of the float
    operations decides.  This part therefore repeats the fusion step of
    [calculate_trading_signal] with every arithmetic operation rounded
    to binary64, as numpy and Python perform it. *)

Module Binary64.

(** [2 ** e] *)
Definition pow2 (e : Z) : Q :=
  if (0 <=? e)%Z then inject_Z (2 ^ e) else 1 / inject_Z (2 ^ (- e)).

(** The binary64 number nearest to a real (53 significant bits, ties
    to the even significand), for magnitudes in the normal range, which
    is where the fusion step works. *)
Definition b64 (x : Q) : Q :=
  if Qeq_bool x 0 then 0
  else
    let e0 := (Z.log2 (Z.abs (Qnum x)) - Z.log2 (Zpos (Qden x)) - 52)%Z in
    let e := if Qltb (Qabs x / pow2 e0) (pow2 52) then (e0 - 1)%Z else e0 in
    inject_Z (rint (x / pow2 e)) * pow2 e.

(** [a.sum()] of a short float array: the elements are added one after
    the other. *)
Definition np_sum (a : list Q) : Q := foldl (fun acc x => b64 (acc + x)) 0 a.

(** [round(x, ndigits)] of a numpy float:
    [rint(x * 10**ndigits) / 10**ndigits]. *)
Definition np_round (x : Q) (ndigits : nat) : Q :=
  b64 (inject_Z (rint (b64 (x * inject_Z (10 ^ Z.of_nat ndigits))))
       / inject_Z (10 ^ Z.of_nat ndigits)).

End Binary64.

Module FusionBinary64.

Import Recommendation Binary64.

(** [weights_array / weights_array.sum()] *)
Definition normalize_b64 (weights : list Q) : list Q :=
  let total := np_sum weights in
  map (fun w => b64 (w / total)) weights.

(** [np.average(a, weights=w)]: [np.multiply(a, w).sum() / w.sum()]. *)
Definition np_average_b64 (a w : list Q) : Q :=
  b64 (np_sum (zip_with (fun x y => b64 (x * y)) a w) / np_sum w).

(** The weighted signal computed from the gathered lists; the weight
    literals 0.30, 0.25, ... are read as binary64 numbers, and the
    signals (0, 0.5 and 1 with either sign) are binary64 numbers as
    they are. *)
Definition weighted_signal_b64 (signals weights : list Q) : Q :=
  np_average_b64 signals (normalize_b64 (map b64 weights)).

(** The literal [0.3]. *)
Definition threshold_b64 : Q := b64 (3 # 10).

(** The recommendation and the confidence before it is rounded. *)
Definition decide_recommendation_b64 (weighted_signal : Q) : Category * Q :=
  if Qgtb weighted_signal threshold_b64 then
    (BUY, Qmin (b64 (Qabs weighted_signal * 100)) 100)
  else if Qltb weighted_signal (- threshold_b64) then
    (SELL, Qmin (b64 (Qabs weighted_signal * 100)) 100)
  else
    (HOLD, b64 (100 - b64 (Qabs weighted_signal * 100))).

Section Reasoning.

Variable format_float : nat -> Q -> string.

(** [calculate_trading_signal] with the fusion step in binary64. *)
Definition calculate_trading_signal_b64
           (analysis : Analysis) (price_series : Series) (returns : Series)
  : result TradingSignal :=
  sw <-r gather_signals analysis price_series ;;
  let signals := sw.1 in
  let weights := sw.2 in
  match signals with
  | [] =>
      Ok {| recommendation := HOLD;
            confidence := 0;
            signal_strength := 0;
            reasoning := "Insufficient data for recommendation" |}
  | _ :: _ =>
      let weighted_signal := weighted_signal_b64 signals weights in
      let rc := decide_recommendation_b64 weighted_signal in
      Ok {| recommendation := rc.1;
            confidence := np_round rc.2 1;
            signal_strength := np_round weighted_signal 3;
            reasoning := build_reasoning format_float analysis |}
  end.

End Reasoning.

(** ** What the five blocks can gather

    Each block appends one of a few signal values with its weight, or
    nothing when its factor is absent, so the fusion step has finitely
    many inputs and its two runs can be compared on all of them. *)

(** A block that appends one of [values] with [weight], or nothing. *)
Definition optional_block (weight : Q) (values : list Q)
  : list (list Q * list Q) :=
  ([], []) :: map (fun s => ([s], [weight])) values.

Definition hurst_choices := optional_block (30 # 100) [-1; 0; 1].
Definition regime_choices := optional_block (25 # 100) [-1; 0; 1].
Definition volatility_choices := optional_block (15 # 100) [- (1 # 2); 0; 1 # 2].
Definition momentum_choices : list (list Q * list Q) :=
  map (fun s => ([s], [20 # 100])) [-1; - (1 # 2); 0; 1 # 2; 1].
Definition statistical_choices := optional_block (10 # 100) [-1; 0; 1].

Definition all_gathered : list (list Q * list Q) :=
  h ← hurst_choices; r ← regime_choices; v ← volatility_choices;
  m ← momentum_choices; c ← statistical_choices;
  [((((h.1 ++ r.1) ++ v.1) ++ m.1) ++ c.1,
    (((h.2 ++ r.2) ++ v.2) ++ m.2) ++ c.2)].

Definition category_eqb (a b : Category) : bool :=
  match a, b with
  | BUY, BUY | SELL, SELL | HOLD, HOLD => true
  | _, _ => false
  end.

(** The binary64 run gives the category of the exact run and the exact
    run's two numbers as floats, unless the exact weighted signal is on
    a threshold. *)
Definition agrees_off_threshold (signals weights : list Q) : bool :=
  let exact := weighted_signal_of signals weights in
  let float := weighted_signal_b64 signals weights in
  Qeq_bool (Qabs exact) (3 # 10)
  || (category_eqb (decide_recommendation_b64 float).1 (decide_recommendation exact).1
      && Qeq_bool (np_round (decide_recommendation_b64 float).2 1)
                  (b64 (py_round (decide_recommendation exact).2 1))
      && Qeq_bool (np_round float 3) (b64 (py_round exact 3))).

End FusionBinary64.

(** * The analysis dictionary with its Python values

    [Recommendation.Analysis] above types the dictionary: a number is a
    finite float, a key is there or not.  The dictionary that
    [analyze_symbol] builds can carry more: a Hurst exponent that is NaN
    or infinite, and keys that hold [None].  This part embeds the
    gathering blocks of [calculate_trading_signal] over such
    dictionaries, to say exactly when the function raises.  A key of a
    dictionary is missing, holds [None] or holds a value of its type;
    numbers are floats that may be NaN or infinite; a dictionary-valued
    key may also hold the empty dictionary. *)

Module RawInput.

Import Recommendation.

Inductive entry (A : Type) : Type :=
| Absent
| PyNone
| Present (a : A).
Global Arguments Absent {A}.
Global Arguments PyNone {A}.
Global Arguments Present {A} a.

(** A key whose value is a dictionary; [Dict] is a dictionary with at
    least one key. *)
Inductive dict_entry (A : Type) : Type :=
| NoKey
| NoneValue
| EmptyDict
| Dict (d : A).
Global Arguments NoKey {A}.
Global Arguments NoneValue {A}.
Global Arguments EmptyDict {A}.
Global Arguments Dict {A} d.

Record RawSignalProcessing : Type := {
  raw_hurst_exponent : entry pyfloat
}.

Record RawRegime : Type := {
  raw_current_regime : entry Z;
  raw_regime_descriptions : entry (gmap Z string);
  raw_regime_probabilities : entry (list pyfloat)
}.

Record RawVolatility : Type := {
  raw_annualized_volatility : entry pyfloat
}.

Record RawMetrics : Type := {
  raw_sharpe_ratio : entry pyfloat
}.

Record RawCointegration : Type := {
  raw_is_stationary : entry bool
}.

Record RawAnalysis : Type := {
  raw_signal_processing : dict_entry RawSignalProcessing;
  raw_regime : dict_entry RawRegime;
  raw_volatility : dict_entry RawVolatility;
  raw_price_change_pct : entry pyfloat;
  raw_metrics : dict_entry RawMetrics;
  raw_cointegration : dict_entry RawCointegration
}.

(** The exceptions of [PyNum.exn], and [AttributeError] for a method
    called on [None]. *)
Inductive raised : Type :=
| Builtin (e : exn)
| AttributeError.

Inductive outcome (A : Type) : Type :=
| Returns (a : A)
| Fails (e : raised).
Global Arguments Returns {A} a.
Global Arguments Fails {A} e.

Definition obind {A B : Type} (m : outcome A) (k : A -> outcome B) : outcome B :=
  match m with
  | Returns a => k a
  | Fails e => Fails e
  end.

Notation "x <-o m ;; k" := (obind m (fun x => k))
  (at level 100, m at next level, right associativity).

Definition of_result {A : Type} (r : result A) : outcome A :=
  match r with
  | Ok a => Returns a
  | Raise e => Fails (Builtin e)
  end.

Definition returns {A : Type} (m : outcome A) : Prop :=
  exists a, m = Returns a.

(** [d.get(key, default)] for a float-valued key: the default when the
    key is missing, and [None] when it holds [None]. *)
Definition get_float (default : pyfloat) (e : entry pyfloat) : option pyfloat :=
  match e with
  | Absent => Some default
  | PyNone => None
  | Present f => Some f
  end.

(** [x > c] and [x < c] for a value that may be [None]: Python refuses
    to order [None] and a number. *)
Definition py_gt (x : option pyfloat) (c : Q) : outcome bool :=
  match x with
  | Some f => Returns (fgtb f c)
  | None => Fails (Builtin TypeError)
  end.

Definition py_lt (x : option pyfloat) (c : Q) : outcome bool :=
  match x with
  | Some f => Returns (fltb f c)
  | None => Fails (Builtin TypeError)
  end.

(** [analysis.get('signal_processing', {}).get('hurst_exponent')] *)
Definition raw_hurst (analysis : RawAnalysis) : outcome (option pyfloat) :=
  match raw_signal_processing analysis with
  | NoneValue => Fails AttributeError
  | NoKey | EmptyDict => Returns None
  | Dict sp =>
      match raw_hurst_exponent sp with
      | Present h => Returns (Some h)
      | Absent | PyNone => Returns None
      end
  end.

(** 1. Hurst exponent signal: every comparison with NaN is false, so a
    NaN exponent takes the last branch. *)
Definition raw_hurst_signal (hurst : pyfloat) (price_series : Series)
  : outcome Q :=
  if fltb hurst (45 # 100) then
    recent_return <-o of_result (return_20 price_series) ;;
    if fgtb recent_return (5 # 100) then Returns (-1)
    else if fltb recent_return (- (5 # 100)) then Returns 1
    else Returns 0
  else if fgtb hurst (55 # 100) then
    momentum <-o of_result (return_20 price_series) ;;
    if fgtb momentum 0 then Returns 1 else Returns (-1)
  else Returns 0.

(** [regime.get('current_regime')] *)
Definition raw_current (r : RawRegime) : option Z :=
  match raw_current_regime r with
  | Present c => Some c
  | Absent | PyNone => None
  end.

(** 2. Regime signal. *)
Definition raw_regime_signal (r : RawRegime) : outcome Q :=
  let current_regime := raw_current r in
  descriptions <-o match raw_regime_descriptions r with
                   | Absent => Returns ∅
                   | PyNone => Fails AttributeError
                   | Present m => Returns m
                   end ;;
  let regime_desc := match current_regime with
                     | Some c => default ""%string (descriptions !! c)
                     | None => ""%string
                     end in
  probabilities <-o match raw_regime_probabilities r with
                    | Absent => Returns [Finite 0; Finite 0; Finite 0]
                    | PyNone => Fails (Builtin TypeError)
                    | Present l => Returns l
                    end ;;
  regime_prob <-o match current_regime with
                  | None => Fails (Builtin TypeError)
                  | Some c =>
                      match py_index probabilities c with
                      | Some p => Returns p
                      | None => Fails (Builtin IndexError)
                      end
                  end ;;
  if str_contains "Bull" regime_desc && fgtb regime_prob (6 # 10) then Returns 1
  else if str_contains "Bear" regime_desc && fgtb regime_prob (6 # 10)
       then Returns (-1)
       else Returns 0.

(** 3. Volatility signal. *)
Definition raw_volatility_signal (v : RawVolatility) : outcome Q :=
  let current_vol := get_float (Finite 0) (raw_annualized_volatility v) in
  high <-o py_gt current_vol (40 # 100) ;;
  if high then Returns (- (1 # 2))
  else
    low <-o py_lt current_vol (15 # 100) ;;
    if low then Returns (1 # 2) else Returns 0.

(** [analysis.get('price_change_pct', 0)] *)
Definition raw_price_change (analysis : RawAnalysis) : option pyfloat :=
  get_float (Finite 0) (raw_price_change_pct analysis).

(** [analysis.get('metrics', {}).get('sharpe_ratio', 0)] *)
Definition raw_sharpe (analysis : RawAnalysis) : outcome (option pyfloat) :=
  match raw_metrics analysis with
  | NoneValue => Fails AttributeError
  | NoKey | EmptyDict => Returns (Some (Finite 0))
  | Dict m => Returns (get_float (Finite 0) (raw_sharpe_ratio m))
  end.

(** 4. Momentum signal. *)
Definition raw_momentum_signal (sharpe price_change : option pyfloat)
  : outcome Q :=
  strong <-o py_gt sharpe (15 # 10) ;;
  if strong then
    up <-o py_gt price_change 0 ;;
    Returns (if up then 1 else 1 # 2)
  else
    weak <-o py_lt sharpe (5 # 10) ;;
    if weak then
      down <-o py_lt price_change 0 ;;
      Returns (if down then -1 else - (1 # 2))
    else Returns 0.

(** 5. Statistical signal; [None] counts as not stationary. *)
Definition raw_statistical_signal (c : RawCointegration)
           (price_change : option pyfloat) : outcome Q :=
  let is_stationary := match raw_is_stationary c with
                       | Present b => b
                       | Absent | PyNone => false
                       end in
  if negb is_stationary then
    up <-o py_gt price_change 2 ;;
    if up then Returns 1
    else
      down <-o py_lt price_change (-2) ;;
      Returns (if down then -1 else 0)
  else
    up <-o py_gt price_change 3 ;;
    if up then Returns (-1)
    else
      down <-o py_lt price_change (-3) ;;
      Returns (if down then 1 else 0).

(** The five blocks in the order of the source. *)
Definition raw_gather_signals (analysis : RawAnalysis) (price_series : Series)
  : outcome (list Q * list Q) :=
  hurst <-o raw_hurst analysis ;;
  sw1 <-o match hurst with
          | Some h =>
              s <-o raw_hurst_signal h price_series ;;
              Returns ([s], [30 # 100])
          | None => Returns ([], [])
          end ;;
  sw2 <-o match raw_regime analysis with
          | Dict r =>
              s <-o raw_regime_signal r ;;
              Returns (sw1.1 ++ [s], sw1.2 ++ [25 # 100])
          | NoKey | NoneValue | EmptyDict => Returns sw1
          end ;;
  sw3 <-o match raw_volatility analysis with
          | Dict v =>
              s <-o raw_volatility_signal v ;;
              Returns (sw2.1 ++ [s], sw2.2 ++ [15 # 100])
          | NoKey | NoneValue | EmptyDict => Returns sw2
          end ;;
  let price_change := raw_price_change analysis in
  sharpe <-o raw_sharpe analysis ;;
  s4 <-o raw_momentum_signal sharpe price_change ;;
  let sw4 := (sw3.1 ++ [s4], sw3.2 ++ [20 # 100]) in
  match raw_cointegration analysis with
  | Dict c =>
      s <-o raw_statistical_signal c price_change ;;
      Returns (sw4.1 ++ [s], sw4.2 ++ [10 # 100])
  | NoKey | NoneValue | EmptyDict => Returns sw4
  end.

(** [x * 100] on a float. *)
Definition fmul100 (a : pyfloat) : pyfloat :=
  match a with
  | Finite x => Finite (x * 100)
  | other => other
  end.

Section Reasoning.

(** [format_pyfloat n x] is the text of [f"{x:.nf}"]. *)
Variable format_pyfloat : nat -> pyfloat -> string.

(** The reasoning parts, read again from the dictionary as the source
    does after the decision. *)
Definition raw_reasoning_parts (analysis : RawAnalysis)
           (hurst sharpe : option pyfloat) : outcome (list string) :=
  let hurst_part :=
    match hurst with
    | Some h =>
        if fltb h (45 # 100)
        then ["Mean reverting (H=" ++ format_pyfloat 2 h ++ ")"]%string
        else if fgtb h (55 # 100)
             then ["Trending (H=" ++ format_pyfloat 2 h ++ ")"]%string
             else []
    | None => []
    end in
  regime_part <-o
    match raw_regime analysis with
    | Dict r =>
        descriptions <-o match raw_regime_descriptions r with
                         | Absent => Returns ∅
                         | PyNone => Fails AttributeError
                         | Present m => Returns m
                         end ;;
        Returns [match raw_current_regime r with
                 | Absent => default ""%string (descriptions !! 0%Z)
                 | PyNone => ""%string
                 | Present c => default ""%string (descriptions !! c)
                 end]
    | NoKey | NoneValue | EmptyDict => Returns []
    end ;;
  volatility_part <-o
    match raw_volatility analysis with
    | Dict v =>
        match get_float (Finite 0) (raw_annualized_volatility v) with
        | None => Fails (Builtin TypeError)
        | Some vol =>
            let vol_pct := fmul100 vol in
            if fgtb vol_pct 40
            then Returns ["High volatility (" ++ format_pyfloat 1 vol_pct ++ "%)"]%string
            else if fltb vol_pct 15
                 then Returns ["Low volatility (" ++ format_pyfloat 1 vol_pct ++ "%)"]%string
                 else Returns []
        end
    | NoKey | NoneValue | EmptyDict => Returns []
    end ;;
  strong <-o py_gt sharpe (15 # 10) ;;
  sharpe_part <-o
    (if strong
     then Returns ["Strong Sharpe (" ++ format_pyfloat 2 (default NaN sharpe) ++ ")"]%string
     else
       weak <-o py_lt sharpe (5 # 10) ;;
       Returns (if weak
                then ["Weak Sharpe (" ++ format_pyfloat 2 (default NaN sharpe) ++ ")"]%string
                else [])) ;;
  Returns (hurst_part ++ regime_part ++ volatility_part ++ sharpe_part).

(** [calculate_trading_signal] over a dictionary with Python values.
    The fusion step is the exact-rational one of
    [Recommendation.calculate_trading_signal]. *)
Definition calculate_trading_signal_raw
           (analysis : RawAnalysis) (price_series : Series) (returns_ : Series)
  : outcome TradingSignal :=
  hurst <-o raw_hurst analysis ;;
  sw <-o raw_gather_signals analysis price_series ;;
  sharpe <-o raw_sharpe analysis ;;
  let signals := sw.1 in
  let weights := sw.2 in
  match signals with
  | [] =>
      Returns {| recommendation := HOLD;
                 confidence := 0;
                 signal_strength := 0;
                 reasoning := "Insufficient data for recommendation" |}
  | _ :: _ =>
      let weighted_signal := weighted_signal_of signals weights in
      let rc := decide_recommendation weighted_signal in
      reasoning_parts <-o raw_reasoning_parts analysis hurst sharpe ;;
      Returns {| recommendation := rc.1;
                 confidence := py_round rc.2 1;
                 signal_strength := py_round weighted_signal 3;
                 reasoning := match reasoning_parts with
                              | [] => "Based on technical analysis"%string
                              | _ => String.concat " | " reasoning_parts
                              end |}
  end.

End Reasoning.

(** The Hurst block returns: the key [signal_processing] does not hold
    [None], and an exponent below 0.45 or above 0.55 (NaN is neither)
    finds 20 prices. *)
Definition hurst_block_returns (analysis : RawAnalysis) (price_series : Series)
  : Prop :=
  match raw_signal_processing analysis with
  | NoneValue => False
  | NoKey | EmptyDict => True
  | Dict sp =>
      match raw_hurst_exponent sp with
      | Present h =>
          fltb h (45 # 100) = true \/ fgtb h (55 # 100) = true ->
          (20 <= length price_series)%nat
      | Absent | PyNone => True
      end
  end.

(** The regime block returns: [regime_descriptions] does not hold
    [None], and [current_regime] is an integer that indexes the list of
    probabilities (the default list when the key is missing). *)
Definition regime_block_returns (analysis : RawAnalysis) : Prop :=
  match raw_regime analysis with
  | Dict r =>
      raw_regime_descriptions r <> PyNone
      /\ exists c probabilities,
           raw_current_regime r = Present c
           /\ match raw_regime_probabilities r with
              | Absent => Some [Finite 0; Finite 0; Finite 0]
              | PyNone => None
              | Present l => Some l
              end = Some probabilities
           /\ is_Some (py_index probabilities c)
  | NoKey | NoneValue | EmptyDict => True
  end.

(** The volatility block returns: [annualized_volatility] does not hold
    [None]. *)
Definition volatility_block_returns (analysis : RawAnalysis) : Prop :=
  match raw_volatility analysis with
  | Dict v => raw_annualized_volatility v <> PyNone
  | NoKey | NoneValue | EmptyDict => True
  end.

(** The momentum block returns: [metrics] does not hold [None], the
    Sharpe ratio is a number, and the price change is a number when the
    Sharpe ratio is above 1.5 or below 0.5. *)
Definition momentum_block_returns (analysis : RawAnalysis) : Prop :=
  exists sharpe,
    raw_sharpe analysis = Returns (Some sharpe)
    /\ (fgtb sharpe (15 # 10) = true \/ fltb sharpe (5 # 10) = true ->
        raw_price_change_pct analysis <> PyNone).

(** The stationarity block returns: the price change is a number. *)
Definition statistical_block_returns (analysis : RawAnalysis) : Prop :=
  match raw_cointegration analysis with
  | Dict _ => raw_price_change_pct analysis <> PyNone
  | NoKey | NoneValue | EmptyDict => True
  end.

(** Some dictionary-valued key holds [None] where the function calls
    [.get] on it. *)
Definition none_where_dict_expected (analysis : RawAnalysis) : Prop :=
  raw_signal_processing analysis = NoneValue
  \/ raw_metrics analysis = NoneValue
  \/ exists r, raw_regime analysis = Dict r /\ raw_regime_descriptions r = PyNone.

(** What an exception of the function can be. *)
Definition expected_failure (analysis : RawAnalysis) (e : raised) : Prop :=
  e = Builtin IndexError
  \/ e = Builtin TypeError
  \/ (e = AttributeError /\ none_where_dict_expected analysis).

(** A computation that can only fail with an exception in [P]. *)
Definition fails_only {A : Type} (P : raised -> Prop) (m : outcome A) : Prop :=
  forall e, m = Fails e -> P e.

(** The typed dictionary as a dictionary with Python values. *)
Definition of_option {A B : Type} (f : A -> B) (o : option A) : entry B :=
  match o with
  | Some a => Present (f a)
  | None => Absent
  end.

Definition of_dict {A B : Type} (f : A -> B) (o : option A) : dict_entry B :=
  match o with
  | Some a => Dict (f a)
  | None => NoKey
  end.

Definition of_analysis (a : Analysis) : RawAnalysis :=
  {| raw_signal_processing :=
       of_dict (fun sp => {| raw_hurst_exponent :=
                               of_option Finite (hurst_exponent sp) |})
               (signal_processing a);
     raw_regime :=
       of_dict (fun r => {| raw_current_regime := of_option id (current_regime r);
                            raw_regime_descriptions :=
                              of_option id (regime_descriptions r);
                            raw_regime_probabilities :=
                              of_option (map Finite) (regime_probabilities r) |})
               (regime a);
     raw_volatility :=
       of_dict (fun v => {| raw_annualized_volatility :=
                              of_option Finite (annualized_volatility v) |})
               (volatility a);
     raw_price_change_pct := of_option Finite (price_change_pct a);
     raw_metrics :=
       of_dict (fun m => {| raw_sharpe_ratio := of_option Finite (sharpe_ratio m) |})
               (metrics a);
     raw_cointegration :=
       of_dict (fun c => {| raw_is_stationary := of_option id (is_stationary c) |})
               (cointegration a) |}.

End RawInput.

(** ** Sample inputs for edge cases *)

Module EdgeSamples.

Import Recommendation.

(** All five factors, of which only the Hurst block gives a signal: a
    trending exponent over a rising price, a sideways regime, ordinary
    volatility, a middling Sharpe ratio and a non-stationary series
    that moved by 1%. *)
Definition trend_only : Analysis :=
  {| signal_processing := Some {| hurst_exponent := Some (60 # 100) |};
     regime := Some {| current_regime := Some 1%Z;
                       regime_descriptions :=
                         Some {[ 1%Z := "Sideways (Low Volatility)"%string ]};
                       regime_probabilities := Some [1 # 10; 8 # 10; 1 # 10] |};
     volatility := Some {| annualized_volatility := Some (20 # 100) |};
     price_change_pct := Some 1;
     metrics := Some {| sharpe_ratio := Some 1 |};
     cointegration := Some {| is_stationary := Some false |} |}.

(** A formatting function for the examples. *)
Definition plain_format_pyfloat (ndigits : nat) (x : pyfloat) : string :=
  "#"%string.

(** The dictionary of the empty analysis with a Hurst exponent that is
    NaN. *)
Definition nan_hurst : RawInput.RawAnalysis :=
  {| RawInput.raw_signal_processing :=
       RawInput.Dict {| RawInput.raw_hurst_exponent := RawInput.Present NaN |};
     RawInput.raw_regime := RawInput.EmptyDict;
     RawInput.raw_volatility := RawInput.EmptyDict;
     RawInput.raw_price_change_pct := RawInput.Present (Finite 1);
     RawInput.raw_metrics :=
       RawInput.Dict {| RawInput.raw_sharpe_ratio := RawInput.Present (Finite 1) |};
     RawInput.raw_cointegration := RawInput.EmptyDict |}.

(** A dictionary whose [signal_processing] key holds [None]. *)
Definition none_signal_processing : RawInput.RawAnalysis :=
  {| RawInput.raw_signal_processing := RawInput.NoneValue;
     RawInput.raw_regime := RawInput.NoKey;
     RawInput.raw_volatility := RawInput.NoKey;
     RawInput.raw_price_change_pct := RawInput.Present (Finite 1);
     RawInput.raw_metrics :=
       RawInput.Dict {| RawInput.raw_sharpe_ratio := RawInput.Present (Finite 1) |};
     RawInput.raw_cointegration := RawInput.NoKey |}.

(** Seven points, the second one missing. *)
Definition gapped_series : Series :=
  [Some 1; None; Some 3; Some 4; Some 5; Some 6; Some 7].

(** A stand-in for the log-log regression that does what [np.polyfit]
    does with a statistic that is not a positive number: [np.log] turns
    it into [-inf] or NaN, and the least-squares slope over such a value
    is NaN.  Over positive statistics it is the stand-in of
    [CoverageSamples]. *)
Definition degenerate_slope (lags : list nat) (tau : list pyfloat)
  : result pyfloat :=
  if forallb (fun t => match t with
                       | Finite x => Qgtb x 0
                       | PosInf | NegInf | NaN => false
                       end) tau
  then CoverageSamples.sample_slope lags tau
  else Ok NaN.

End EdgeSamples.

(** * Properties *)

Import SignalProcessing Cointegration Recommendation Closed Samples.

(** ** Comparisons *)

Section Comparisons.

Lemma Qgtb_true (x y : Q) : Qgtb x y = true <-> y < x.
Proof.
  unfold Qgtb. rewrite negb_true_iff, <- not_true_iff_false, Qle_bool_iff.
  split; [apply Qnot_le_lt | apply Qlt_not_le].
Qed.

Lemma Qgtb_false (x y : Q) : Qgtb x y = false <-> x <= y.
Proof.
  unfold Qgtb. rewrite negb_false_iff. apply Qle_bool_iff.
Qed.

Lemma Qltb_true (x y : Q) : Qltb x y = true <-> x < y.
Proof. apply Qgtb_true. Qed.

Lemma Qltb_false (x y : Q) : Qltb x y = false <-> y <= x.
Proof. apply Qgtb_false. Qed.

Lemma Qn_nonneg (k : nat) : 0 <= Qn k.
Proof.
  unfold Qn. change 0 with (inject_Z 0). rewrite <- Zle_Qle. lia.
Qed.

Lemma Qn_S (k : nat) : Qn (S k) == Qn k + 1.
Proof.
  unfold Qn. rewrite Nat2Z.inj_succ, <- Z.add_1_r, inject_Z_plus. reflexivity.
Qed.

Lemma Qn_pos (k : nat) : 0 < Qn (S k).
Proof. rewrite Qn_S. pose proof (Qn_nonneg k). lra. Qed.

Lemma Qn_le (j k : nat) : (j <= k)%nat -> Qn j <= Qn k.
Proof. intros H. unfold Qn. rewrite <- Zle_Qle. lia. Qed.

Lemma Qmult_le_nonneg_l (x y z : Q) : 0 <= z -> x <= y -> z * x <= z * y.
Proof.
  intros Hz Hxy. rewrite !(Qmult_comm z). apply Qmult_le_compat_r; assumption.
Qed.

End Comparisons.

(** ** The weight loop *)

Section WeightLoop.

Variables d threshold : Q.

Lemma weights_upto_last (n : nat) :
  List.last (weights_upto d n) 0 = frac_weight d n.
Proof.
  unfold weights_upto. rewrite seq_S, map_app. simpl.
  apply last_last.
Qed.

Lemma weights_upto_S (n : nat) :
  weights_upto d n ++ [ - frac_weight d n * (d - Qn (S n) + 1) / Qn (S n) ]
  = weights_upto d (S n).
Proof.
  unfold weights_upto. rewrite (seq_S (S n)), map_app. reflexivity.
Qed.

Lemma length_weights_upto (n : nat) : length (weights_upto d n) = S n.
Proof. unfold weights_upto. rewrite length_map, length_seq. reflexivity. Qed.

Lemma weights_upto_lookup (n k : nat) :
  (k <= n)%nat -> weights_upto d n !! k = Some (frac_weight d k).
Proof.
  intros H. unfold weights_upto. rewrite list_lookup_fmap.
  rewrite lookup_seq_lt by lia. reflexivity.
Qed.

Lemma weights_loop_unfold (fuel : nat) (weights : list Q) (k : nat) :
  weights_loop (S fuel) d threshold weights k
  = if Qgtb (Qabs (List.last weights 0)) threshold
    then weights_loop fuel d threshold
           (weights ++ [ - List.last weights 0 * (d - Qn k + 1) / Qn k ]) (S k)
    else Some weights.
Proof. reflexivity. Qed.

(** One unfolding of the loop from the state reached after [n]
    appends. *)
Lemma weights_loop_step (fuel n : nat) :
  weights_loop (S fuel) d threshold (weights_upto d n) (S n)
  = if above d threshold n
    then weights_loop fuel d threshold (weights_upto d (S n)) (S (S n))
    else Some (weights_upto d n).
Proof.
  rewrite weights_loop_unfold, weights_upto_last. unfold above.
  destruct (Qgtb _ _); [| reflexivity].
  rewrite weights_upto_S. reflexivity.
Qed.

(** If the test fails at some index at most [m] steps ahead, the loop
    stops at the first such index, whatever fuel above [m] it has. *)
Lemma weights_loop_stops (m : nat) : forall n,
  above d threshold (n + m) = false ->
  exists j, (j <= m)%nat
    /\ (forall i, (n <= i < n + j)%nat -> above d threshold i = true)
    /\ above d threshold (n + j) = false
    /\ forall fuel, (m < fuel)%nat ->
         weights_loop fuel d threshold (weights_upto d n) (S n)
         = Some (weights_upto d (n + j)).
Proof.
  induction m as [|m IH]; intros n Hm.
  - exists 0%nat. rewrite Nat.add_0_r in *. repeat split; [lia | lia | done |].
    intros [|fuel] Hf; [lia |]. rewrite weights_loop_step, Hm. reflexivity.
  - destruct (above d threshold n) eqn:Hn.
    + destruct (IH (S n)) as (j & Hj & Hbefore & Hat & Hrun).
      { replace (S n + m)%nat with (n + S m)%nat by lia. exact Hm. }
      exists (S j). replace (n + S j)%nat with (S n + j)%nat by lia.
      repeat split; [lia | | done |].
      * intros i Hi. destruct (decide (i = n)) as [->|]; [done |].
        apply Hbefore. lia.
      * intros [|fuel] Hf; [lia |].
        rewrite weights_loop_step, Hn. apply Hrun. lia.
    + exists 0%nat. rewrite Nat.add_0_r. repeat split; [lia | lia | done |].
      intros [|fuel] Hf; [lia |]. rewrite weights_loop_step, Hn. reflexivity.
Qed.

(** Whatever the loop returns is a prefix of the weight sequence cut
    at the first index where the test fails. *)
Lemma weights_loop_inv (fuel : nat) : forall n ws,
  weights_loop fuel d threshold (weights_upto d n) (S n) = Some ws ->
  exists j, ws = weights_upto d (n + j)
    /\ (forall i, (n <= i < n + j)%nat -> above d threshold i = true)
    /\ above d threshold (n + j) = false.
Proof.
  induction fuel as [|fuel IH]; intros n ws Hrun; [discriminate |].
  rewrite weights_loop_step in Hrun.
  destruct (above d threshold n) eqn:Hn.
  - destruct (IH _ _ Hrun) as (j & -> & Hbefore & Hat).
    exists (S j). replace (n + S j)%nat with (S n + j)%nat by lia.
    repeat split; [| done].
    intros i Hi. destruct (decide (i = n)) as [->|]; [done |].
    apply Hbefore. lia.
  - injection Hrun as <-. exists 0%nat. rewrite Nat.add_0_r.
    repeat split; [| done]. lia.
Qed.

End WeightLoop.

(** ** Size of the weights *)

Section WeightDecay.

Variable d : Q.
Hypothesis d_nonneg : 0 <= d.

Lemma frac_weight_step (k : nat) :
  frac_weight d (S k) * Qn (S k) == - frac_weight d k * (d - Qn k).
Proof.
  change (frac_weight d (S k))
    with (- frac_weight d k * (d - Qn (S k) + 1) / Qn (S k)).
  pose proof (Qn_pos k) as Hpos. rewrite (Qn_S k) in *.
  field. lra.
Qed.

Lemma frac_weight_abs_step (k : nat) :
  Qabs (frac_weight d (S k)) * Qn (S k)
  == Qabs (frac_weight d k) * Qabs (d - Qn k).
Proof.
  rewrite <- (Qabs_pos (Qn (S k))) at 1 by apply Qlt_le_weak, Qn_pos.
  rewrite <- !Qabs_Qmult, frac_weight_step.
  rewrite !Qabs_Qmult, Qabs_opp. reflexivity.
Qed.

(** From index [(d + 1) / 2] on, the magnitudes do not increase. *)
Lemma frac_weight_nonincreasing (k : nat) :
  d <= 2 * Qn (S k) - 1 ->
  Qabs (frac_weight d (S k)) <= Qabs (frac_weight d k).
Proof.
  intros Hk.
  pose proof (frac_weight_abs_step k) as Hstep.
  pose proof (Qn_pos k) as Hpos.
  pose proof (Qn_nonneg k) as Hk0.
  pose proof (Qabs_nonneg (frac_weight d k)) as Ha.
  assert (Hbound : Qabs (d - Qn k) <= Qn (S k)).
  { rewrite Qn_S in *. apply Qabs_Qle_condition. lra. }
  assert (Hle : Qabs (frac_weight d (S k)) * Qn (S k)
                <= Qabs (frac_weight d k) * Qn (S k)).
  { rewrite Hstep. apply Qmult_le_nonneg_l; assumption. }
  apply Qmult_le_r in Hle; assumption.
Qed.

(** Past [d], the product [k * |w k|] does not increase. *)
Lemma frac_weight_decay (K : nat) :
  d <= Qn K ->
  forall m, Qn (K + m) * Qabs (frac_weight d (K + m))
            <= Qn K * Qabs (frac_weight d K).
Proof.
  intros HK. induction m as [|m IH].
  - rewrite Nat.add_0_r. apply Qle_refl.
  - replace (K + S m)%nat with (S (K + m)) by lia.
    eapply Qle_trans; [| exact IH].
    rewrite (Qmult_comm (Qn (S (K + m)))), frac_weight_abs_step.
    rewrite (Qmult_comm (Qn (K + m))).
    apply Qmult_le_nonneg_l; [apply Qabs_nonneg |].
    assert (Qn K <= Qn (K + m)) by (apply Qn_le; lia).
    apply Qabs_Qle_condition. lra.
Qed.

(** The loop test fails somewhere: the weights fall to any positive
    threshold. *)
Lemma frac_weight_eventually_small (threshold : Q) :
  0 < threshold -> exists N, above d threshold N = false.
Proof.
  intros Ht.
  set (K := Z.to_nat (Qceiling d)).
  assert (HK : d <= Qn K).
  { unfold K, Qn. rewrite Z2Nat.id.
    - apply Qle_ceiling.
    - change 0%Z with (Qceiling 0). apply Qceiling_resp_le, d_nonneg. }
  set (C := Qn K * Qabs (frac_weight d K)).
  set (m := S (Z.to_nat (Qceiling (C / threshold)))).
  assert (HC : 0 <= C).
  { unfold C. apply Qmult_le_0_compat; [apply Qn_nonneg | apply Qabs_nonneg]. }
  assert (Hm : C / threshold <= Qn m).
  { unfold m. rewrite Qn_S. unfold Qn. rewrite Z2Nat.id.
    - pose proof (Qle_ceiling (C / threshold)). lra.
    - change 0%Z with (Qceiling 0). apply Qceiling_resp_le.
      apply Qle_shift_div_l; [assumption | lra]. }
  exists (K + m)%nat. unfold above. apply Qgtb_false.
  pose proof (frac_weight_decay K HK m) as Hdec. fold C in Hdec.
  assert (Hmn : Qn m <= Qn (K + m)) by (apply Qn_le; lia).
  assert (Hmpos : 0 < Qn m) by apply Qn_pos.
  assert (HCm : C <= Qn m * threshold).
  { apply Qmult_le_compat_r with (z := threshold) in Hm; [| lra].
    assert (Heq : C / threshold * threshold == C) by (field; lra).
    rewrite Heq in Hm. exact Hm. }
  pose proof (Qabs_nonneg (frac_weight d (K + m))) as Ha.
  apply Qnot_lt_le. intros Hgt.
  assert (Qn m * threshold < Qn (K + m) * Qabs (frac_weight d (K + m))); [| lra].
  apply Qle_lt_trans with (Qn (K + m) * threshold).
  - apply Qmult_le_compat_r; lra.
  - apply Qmult_lt_l; lra.
Qed.

End WeightDecay.

(** ** Termination and determinism of the weight construction *)

Section ComputeWeights.

Variables d threshold : Q.

Lemma weights_upto_0 : weights_upto d 0 = [1].
Proof. reflexivity. Qed.

(** Any result of [compute_weights] is the weight sequence cut at the
    first index whose magnitude is not above the threshold. *)
Lemma compute_weights_inv (fuel : nat) (ws : list Q) :
  compute_weights fuel d threshold = Some ws ->
  exists n, ws = weights_upto d n
    /\ (forall i, (i < n)%nat -> above d threshold i = true)
    /\ above d threshold n = false.
Proof.
  unfold compute_weights. rewrite <- weights_upto_0. intros Hrun.
  destruct (weights_loop_inv _ _ _ _ _ Hrun) as (j & -> & Hbefore & Hat).
  exists j. simpl in *. repeat split; [| done].
  intros i Hi. apply Hbefore. lia.
Qed.

(** The result does not depend on the fuel. *)
Lemma compute_weights_deterministic (fuel1 fuel2 : nat) (ws1 ws2 : list Q) :
  compute_weights fuel1 d threshold = Some ws1 ->
  compute_weights fuel2 d threshold = Some ws2 ->
  ws1 = ws2.
Proof.
  intros H1 H2.
  destruct (compute_weights_inv _ _ H1) as (n1 & -> & Hb1 & Ha1).
  destruct (compute_weights_inv _ _ H2) as (n2 & -> & Hb2 & Ha2).
  destruct (Nat.lt_trichotomy n1 n2) as [Hlt | [-> | Hgt]]; [| done |].
  - rewrite (Hb2 _ Hlt) in Ha1. discriminate.
  - rewrite (Hb1 _ Hgt) in Ha2. discriminate.
Qed.

Hypothesis d_nonneg : 0 <= d.
Hypothesis threshold_pos : 0 < threshold.

(** The loop terminates: some amount of fuel is enough, and then any
    larger amount gives the same weights. *)
Lemma compute_weights_total :
  exists n, (forall i, (i < n)%nat -> above d threshold i = true)
    /\ above d threshold n = false
    /\ forall fuel, (n < fuel)%nat ->
         compute_weights fuel d threshold = Some (weights_upto d n).
Proof.
  destruct (frac_weight_eventually_small d d_nonneg threshold threshold_pos)
    as [N HN].
  destruct (weights_loop_stops d threshold N 0 HN) as (j & _ & Hbefore & Hat & _).
  simpl in Hat.
  destruct (weights_loop_stops d threshold j 0 Hat) as (j' & Hj' & Hb' & Ha' & Hrun).
  simpl in *.
  assert (j' = j) as ->.
  { destruct (decide (j' = j)) as [|Hne]; [done |].
    rewrite Hbefore in Ha' by lia. discriminate. }
  exists j. repeat split; [| done | exact Hrun].
  intros i Hi. apply Hbefore. lia.
Qed.

End ComputeWeights.

(** ** Applying the weights *)

Section ApplyWeights.

Lemma foldl_insert_lookup {A : Type} (f : nat -> A) (n : nat) :
  forall (a : nat) (init : list A) (i : nat),
    foldl (fun result j => <[ j := f j ]> result) init (seq a n) !! i
    = if decide ((a <= i < a + n)%nat /\ (i < length init)%nat)
      then Some (f i) else init !! i.
Proof.
  induction n as [|n IH]; intros a init i; simpl.
  - case_decide; [lia | reflexivity].
  - rewrite IH, length_insert.
    destruct (decide (i = a)) as [->|Hne].
    + case_decide as H1; case_decide as H2; try lia; try reflexivity.
      * rewrite list_lookup_insert_eq by lia. reflexivity.
      * rewrite lookup_ge_None_2; [| rewrite length_insert; lia].
        rewrite lookup_ge_None_2; [reflexivity | lia].
    + rewrite list_lookup_insert_ne by done.
      case_decide as H1; case_decide as H2; try lia; reflexivity.
Qed.

(** What [result] holds at each position when the loop of
    [fractional_diff] is over. *)
Lemma apply_weights_lookup (weights : list Q) (series : Series) (i : nat) :
  apply_weights weights series !! i
  = if decide (length weights <= i < length series)%nat
    then Some (np_dot (rev weights)
                 (iloc_slice series (i - length weights) i))
    else if decide (i < length series)%nat then Some None else None.
Proof.
  unfold apply_weights. rewrite length_rev.
  rewrite (foldl_insert_lookup
             (fun j => np_dot (rev weights)
                         (iloc_slice series (j - length weights) j))).
  rewrite length_replicate.
  case_decide as H1; case_decide as H2; try lia; try reflexivity.
  case_decide.
  - apply lookup_replicate_2. lia.
  - apply lookup_ge_None_2. rewrite length_replicate. lia.
Qed.

Lemma elem_of_dropna_from (s : Series) : forall (k i : nat) (v : Q),
  (i, v) ∈ dropna_from k s <-> (k <= i)%nat /\ s !! (i - k)%nat = Some (Some v).
Proof.
  induction s as [|[x|] s IH]; intros k i v; simpl.
  - rewrite elem_of_nil. split; [done | intros [_ H]; discriminate].
  - rewrite elem_of_cons, IH. split.
    + intros [Heq | [Hle Hl]].
      * injection Heq as -> ->. rewrite Nat.sub_diag. split; [lia | done].
      * split; [lia |]. replace (i - k)%nat with (S (i - S k)) by lia. done.
    + intros [Hle Hl]. destruct (decide (i = k)) as [->|Hne].
      * rewrite Nat.sub_diag in Hl. simpl in Hl. left. congruence.
      * right. split; [lia |].
        replace (i - k)%nat with (S (i - S k)) in Hl by lia. done.
  - rewrite IH. split.
    + intros [Hle Hl]. split; [lia |].
      replace (i - k)%nat with (S (i - S k)) by lia. done.
    + intros [Hle Hl]. destruct (decide (i = k)) as [->|Hne].
      * rewrite Nat.sub_diag in Hl. discriminate.
      * split; [lia |].
        replace (i - k)%nat with (S (i - S k)) in Hl by lia. done.
Qed.

Lemma elem_of_dropna (s : Series) (i : nat) (v : Q) :
  (i, v) ∈ dropna s <-> s !! i = Some (Some v).
Proof.
  unfold dropna. rewrite elem_of_dropna_from, Nat.sub_0_r.
  split; [intros [_ H]; done | intros H; split; [lia | done]].
Qed.

Lemma iloc_slice_lookup (series : Series) (a b j : nat) :
  iloc_slice series a b !! j
  = if decide (j < b - a)%nat then series !! (a + j)%nat else None.
Proof.
  unfold iloc_slice. case_decide.
  - rewrite lookup_take_lt by done. apply lookup_drop.
  - apply lookup_take_ge. lia.
Qed.

Lemma length_iloc_slice (series : Series) (a b : nat) :
  (a <= b <= length series)%nat -> length (iloc_slice series a b) = (b - a)%nat.
Proof.
  intros H. unfold iloc_slice. rewrite length_take, length_drop. lia.
Qed.

(** The dot product is defined exactly when the window has the
    length of the weights and no missing value. *)
Lemma np_dot_is_Some (w : list Q) : forall (x : Series),
  is_Some (np_dot w x)
  <-> length x = length w
      /\ forall j, (j < length x)%nat -> exists v, x !! j = Some (Some v).
Proof.
  induction w as [|wi w IH]; intros [|[xi|] x]; simpl.
  - split; [intros _; split; [done | intros j Hj; lia] | intros _; eauto].
  - split; [intros [? H]; discriminate | intros [H _]; discriminate].
  - split; [intros [? H]; discriminate | intros [H _]; discriminate].
  - split; [intros [? H]; discriminate | intros [H _]; discriminate].
  - specialize (IH x). split.
    + intros Hs. destruct (np_dot w x) eqn:E; [| destruct Hs; discriminate].
      destruct IH as [IH _]. destruct (IH (mk_is_Some _ _ eq_refl)) as [Hlen Hval].
      split; [lia |]. intros [|j] Hj; simpl; [eauto | apply Hval; lia].
    + intros [Hlen Hval]. destruct IH as [_ IH].
      destruct IH as [r Hr].
      { split; [lia |]. intros j Hj. apply (Hval (S j)). lia. }
      rewrite Hr. eauto.
  - split; [intros [? H]; discriminate |].
    intros [_ Hval]. destruct (Hval 0%nat) as [v Hv]; [lia | discriminate].
Qed.

End ApplyWeights.

(** ** Fractional differentiation *)

Section FractionalDiff.

(** With the weights in hand, the output of [fractional_diff] holds
    position [i] exactly when [i] is in [width, len(series)) and the
    [width] values before [i] are all present; the value is their dot
    product with the reversed weights. *)
Lemma fractional_diff_elem (fuel : nat) (series : Series) (d threshold : Q)
      (weights : list Q) :
  compute_weights fuel d threshold = Some weights ->
  fractional_diff fuel series d threshold
  = Some (dropna (apply_weights weights series))
  /\ forall i v,
       (i, v) ∈ dropna (apply_weights weights series)
       <-> (length weights <= i < length series)%nat
           /\ np_dot (rev weights)
                (iloc_slice series (i - length weights) i) = Some v.
Proof.
  intros Hw. unfold fractional_diff. rewrite Hw. split; [reflexivity |].
  intros i v. rewrite elem_of_dropna, apply_weights_lookup.
  case_decide as Hi.
  - split; [intros [= H]; done | intros [_ ->]; done].
  - split; [| intros [? _]; lia]. case_decide; discriminate.
Qed.

Lemma window_valid (series : Series) (width i : nat) :
  (width <= i <= length series)%nat ->
  (forall j, (i - width <= j < i)%nat -> exists x, series !! j = Some (Some x)) ->
  forall w, length w = width ->
    is_Some (np_dot w (iloc_slice series (i - width) i)).
Proof.
  intros Hi Hval w Hw. apply np_dot_is_Some.
  rewrite length_iloc_slice by lia. split; [lia |].
  intros j Hj. rewrite iloc_slice_lookup.
  case_decide; [| lia]. apply Hval. lia.
Qed.

End FractionalDiff.

(** What the code computes at each position, for every series, every
    [d >= 0] and every [threshold > 0]: with [width] the length of the
    weight vector, the output holds position [i] exactly when
    [width <= i < len(series)] and the [width] input values at
    positions [i - width, ..., i - 1] are all present, and the value at
    [i] is the dot product of the reversed weight vector with those
    values. *)
Lemma fractional_diff_window (series : Series) (d threshold : Q) :
  0 <= d -> 0 < threshold ->
  exists fuel0 weights,
    forall fuel, (fuel0 <= fuel)%nat ->
      compute_weights fuel d threshold = Some weights
      /\ exists out,
           fractional_diff fuel series d threshold = Some out
           /\ (forall i v,
                 (i, v) ∈ out
                 <-> (length weights <= i < length series)%nat
                     /\ np_dot (rev weights)
                          (iloc_slice series (i - length weights) i) = Some v)
           /\ ((length series < length weights + 1)%nat -> out = [])
           /\ (all_valid series ->
               forall i, (length weights <= i < length series)%nat ->
                         exists v, (i, v) ∈ out).
Proof.
  intros Hd Ht.
  destruct (compute_weights_total d threshold Hd Ht) as (n & _ & _ & Hrun).
  exists (S n), (weights_upto d n). intros fuel Hfuel.
  assert (Hw : compute_weights fuel d threshold = Some (weights_upto d n))
    by (apply Hrun; lia).
  split; [exact Hw |].
  destruct (fractional_diff_elem fuel series d threshold _ Hw) as [Hfd Hel].
  eexists. split; [exact Hfd |]. split; [exact Hel |]. split.
  - intros Hshort.
    destruct (dropna (apply_weights (weights_upto d n) series)) as [|[i v] out] eqn:E;
      [reflexivity |].
    assert (Hin : (i, v) ∈ (i, v) :: out) by apply list_elem_of_here.
    apply Hel in Hin. lia.
  - intros Hvalid i Hi.
    destruct (window_valid series (length (weights_upto d n)) i) with
      (w := rev (weights_upto d n)) as [v Hv].
    + lia.
    + intros j Hj. apply Hvalid. lia.
    + apply length_rev.
    + exists v. apply Hel. split; [lia | exact Hv].
Qed.

(** C3 (as amended).  For every series, every [d >= 0] and every
    [threshold > 0], [fractional_diff] terminates; with [width] the
    length of its weight vector, the output holds only positions [i]
    with [width <= i < len(series)], so it is empty when the series has
    fewer than [width + 1] points; it holds every such position of a
    series without missing values, and in general every such position
    for which none of the inputs at positions [i - width, ..., i] is
    missing: positions are lost only to missing values, through
    [dropna]. *)
Theorem fractional_diff_defined_positions (series : Series) (d threshold : Q) :
  0 <= d -> 0 < threshold ->
  exists fuel0 weights,
    forall fuel, (fuel0 <= fuel)%nat ->
      compute_weights fuel d threshold = Some weights
      /\ exists out,
           fractional_diff fuel series d threshold = Some out
           /\ (forall i v,
                 (i, v) ∈ out -> (length weights <= i < length series)%nat)
           /\ ((length series < length weights + 1)%nat -> out = [])
           /\ (forall i,
                 (length weights <= i < length series)%nat ->
                 (forall j, (i - length weights <= j <= i)%nat ->
                            exists x, series !! j = Some (Some x)) ->
                 exists v, (i, v) ∈ out)
           /\ (all_valid series ->
               forall i, (length weights <= i < length series)%nat ->
                         exists v, (i, v) ∈ out).
Proof.
  intros Hd Ht.
  destruct (compute_weights_total d threshold Hd Ht) as (n & _ & _ & Hrun).
  exists (S n), (weights_upto d n). intros fuel Hfuel.
  assert (Hw : compute_weights fuel d threshold = Some (weights_upto d n))
    by (apply Hrun; lia).
  split; [exact Hw |].
  destruct (fractional_diff_elem fuel series d threshold _ Hw) as [Hfd Hel].
  assert (Hfull : forall i,
            (length (weights_upto d n) <= i < length series)%nat ->
            (forall j, (i - length (weights_upto d n) <= j < i)%nat ->
                       exists x, series !! j = Some (Some x)) ->
            exists v, (i, v) ∈ dropna (apply_weights (weights_upto d n) series)).
  { intros i Hi Hval.
    destruct (window_valid series (length (weights_upto d n)) i) with
      (w := rev (weights_upto d n)) as [v Hv];
      [lia | exact Hval | apply length_rev |].
    exists v. apply Hel. split; [lia | exact Hv]. }
  eexists. split; [exact Hfd |]. split; [| split; [| split]].
  - intros i v Hin. apply Hel in Hin. tauto.
  - intros Hshort.
    destruct (dropna (apply_weights (weights_upto d n) series)) as [|[i v] out] eqn:E;
      [reflexivity |].
    assert (Hin : (i, v) ∈ (i, v) :: out) by apply list_elem_of_here.
    apply Hel in Hin. lia.
  - intros i Hi Hval. apply (Hfull i Hi). intros j Hj. apply Hval. lia.
  - intros Hvalid i Hi. apply (Hfull i Hi). intros j Hj. apply Hvalid. lia.
Qed.

Lemma fractional_diff_defined_positions_witness :
  0 <= 1 # 2 /\ 0 < 1 # 10 /\
  exists fuel0 weights,
    forall fuel, (fuel0 <= fuel)%nat ->
      compute_weights fuel (1 # 2) (1 # 10) = Some weights
      /\ exists out,
           fractional_diff fuel EdgeSamples.gapped_series (1 # 2) (1 # 10) = Some out
           /\ (forall i v,
                 (i, v) ∈ out -> (length weights <= i < length EdgeSamples.gapped_series)%nat)
           /\ ((length EdgeSamples.gapped_series < length weights + 1)%nat -> out = [])
           /\ (forall i,
                 (length weights <= i < length EdgeSamples.gapped_series)%nat ->
                 (forall j, (i - length weights <= j <= i)%nat ->
                            exists x, EdgeSamples.gapped_series !! j = Some (Some x)) ->
                 exists v, (i, v) ∈ out)
           /\ (all_valid EdgeSamples.gapped_series ->
               forall i, (length weights <= i < length EdgeSamples.gapped_series)%nat ->
                         exists v, (i, v) ∈ out).
Proof.
  split; [unfold Qle; simpl; lia |].
  split; [reflexivity |].
  apply (fractional_diff_defined_positions EdgeSamples.gapped_series (1 # 2) (1 # 10)).
  - unfold Qle; simpl; lia.
  - reflexivity.
Defined.

(** C3 as stated fails: with [d = 0.5] and threshold 0.1 the weight
    vector has four entries, and the seven-point series 1, NaN, 3, 4,
    5, 6, 7 gives a single output point, at position 6: positions 4 and
    5 lie between [width = 4] and [len - 1 = 6] and are not in the
    output, because a window that reaches the missing value gives NaN
    and [dropna] removes it. *)
Lemma fractional_diff_gap_drops_positions :
  exists weights out,
    compute_weights 5 (1 # 2) (1 # 10) = Some weights
    /\ length weights = 4%nat
    /\ length EdgeSamples.gapped_series = 7%nat
    /\ fractional_diff 5 EdgeSamples.gapped_series (1 # 2) (1 # 10) = Some out
    /\ map fst out = [6%nat]
    /\ ~ (forall i, (length weights <= i < length EdgeSamples.gapped_series)%nat ->
                    exists v, (i, v) ∈ out).
Proof.
  eexists _, _.
  split; [vm_compute; reflexivity |]. split; [reflexivity |].
  split; [reflexivity |]. split; [vm_compute; reflexivity |].
  split; [reflexivity |].
  intros H. destruct (H 4%nat) as [v Hv]; [cbn; lia |].
  apply elem_of_cons in Hv. destruct Hv as [Hv | Hv]; [discriminate Hv |].
  apply elem_of_nil in Hv. exact Hv.
Qed.

(** The window stops before the position it is stored at: on the
    series 0, 1, 4, 9 with [d = 0] the value stored at position 2 is 1,
    the dot product over positions 0 and 1, while the window that ends
    at and includes position 2 gives 4.  This is the slice
    [series.iloc[iloc-width:iloc]] of the defect reported for order
    zero below. *)
Example fractional_diff_window_excludes_current :
  exists out v claimed,
    compute_weights 3 0 (1 # 100000) = Some [1; 0]
    /\ fractional_diff 3 [Some 0; Some 1; Some 4; Some 9] 0 (1 # 100000) = Some out
    /\ (2%nat, v) ∈ out
    /\ np_dot (rev [1; 0])
         (iloc_slice [Some 0; Some 1; Some 4; Some 9] (2 + 1 - 2) (2 + 1))
       = Some claimed
    /\ ~ v == claimed.
Proof.
  exists [(2%nat, 1); (3%nat, 4)], 1, 4.
  split; [reflexivity |]. split; [reflexivity |].
  split; [apply list_elem_of_here |]. split; [reflexivity |].
  intros H; discriminate H.
Qed.

(** ** Order zero *)

Section ZeroOrder.

Variable threshold : Q.
Hypothesis threshold_pos : 0 < threshold.

(** The weights built for [d = 0]: the loop appends the zero weight
    before it tests it, unless the threshold is already at least 1. *)
Lemma compute_weights_zero (fuel : nat) :
  (2 <= fuel)%nat ->
  compute_weights fuel 0 threshold
  = Some (if Qgtb 1 threshold then [1; 0] else [1]).
Proof.
  intros Hfuel. destruct fuel as [|[|fuel]]; [lia | lia |].
  unfold compute_weights. rewrite weights_loop_unfold.
  change (Qabs (List.last [1] 0)) with 1.
  destruct (Qgtb 1 threshold); [| reflexivity].
  rewrite weights_loop_unfold.
  change (Qabs (List.last ([1] ++ [- List.last [1] 0 * (0 - Qn 1 + 1) / Qn 1]) 0))
    with 0.
  assert (Hstop : Qgtb 0 threshold = false) by (apply Qgtb_false; lra).
  rewrite Hstop. reflexivity.
Qed.

(** Both weight vectors pick the value just before the position. *)
Lemma np_dot_zero_order (series : Series) (i : nat) (v : Q) :
  let weights := if Qgtb 1 threshold then [1; 0] else [1] in
  (length weights <= i)%nat ->
  np_dot (rev weights) (iloc_slice series (i - length weights) i) = Some v ->
  exists x, series !! (i - 1)%nat = Some (Some x) /\ v == x.
Proof.
  destruct (Qgtb 1 threshold); simpl; intros Hi Hdot.
  - pose proof (iloc_slice_lookup series (i - 2) i 1) as Hl.
    case_decide; [| lia].
    replace (i - 2 + 1)%nat with (i - 1)%nat in Hl by lia.
    destruct (iloc_slice series (i - 2) i) as [|[a|] [|[b|] [|? ?]]];
      simpl in Hdot; try discriminate.
    injection Hdot as <-. exists b. simpl in Hl. split; [done | ring].
  - pose proof (iloc_slice_lookup series (i - 1) i 0) as Hl.
    case_decide; [| lia].
    rewrite Nat.add_0_r in Hl.
    destruct (iloc_slice series (i - 1) i) as [|[b|] [|? ?]];
      simpl in Hdot; try discriminate.
    injection Hdot as <-. exists b. simpl in Hl. split; [done | ring].
Qed.

End ZeroOrder.

(** Order zero in general.  For every series and every [threshold > 0],
    [fractional_diff] with [d = 0] terminates with the weight vector
    [[1, 0]] (width 2) when [threshold < 1] and [[1]] (width 1)
    otherwise; the output holds only positions [i] from [width] to
    [len(series) - 1], each with the input value of position [i - 1],
    and it holds every such position whose [width] preceding inputs are
    present.  The transform delays the series by one position: the
    loop appends a weight before it tests it, and the window stops
    before the position it is stored at. *)
Lemma fractional_diff_zero_order (series : Series) (threshold : Q) :
  0 < threshold ->
  forall fuel, (2 <= fuel)%nat ->
    let weights := if Qgtb 1 threshold then [1; 0] else [1] in
    compute_weights fuel 0 threshold = Some weights
    /\ exists out,
         fractional_diff fuel series 0 threshold = Some out
         /\ (forall i v,
               (i, v) ∈ out ->
               (length weights <= i < length series)%nat
               /\ exists x, series !! (i - 1)%nat = Some (Some x) /\ v == x)
         /\ (forall i,
               (length weights <= i < length series)%nat ->
               (forall j, (i - length weights <= j < i)%nat ->
                          exists x, series !! j = Some (Some x)) ->
               exists v, (i, v) ∈ out).
Proof.
  intros Ht fuel Hfuel weights.
  pose proof (compute_weights_zero threshold Ht fuel Hfuel) as Hw.
  fold weights in Hw. split; [exact Hw |].
  destruct (fractional_diff_elem fuel series 0 threshold _ Hw) as [Hfd Hel].
  eexists. split; [exact Hfd |]. split.
  - intros i v Hin. apply Hel in Hin. destruct Hin as [Hi Hdot].
    split; [exact Hi |].
    apply (np_dot_zero_order threshold series i v); [apply Hi | exact Hdot].
  - intros i Hi Hval.
    destruct (window_valid series (length weights) i) with (w := rev weights)
      as [v Hv]; [split; [apply Hi | apply Nat.lt_le_incl, Hi]
                 | exact Hval | apply length_rev |].
    exists v. apply Hel. split; [exact Hi | exact Hv].
Qed.

(** C2 (the code at the failing input).  With [d = 0] and the default
    threshold the weight vector is [[1, 0]], not [[1]], and the series
    1, 2, 3 comes out as the single point (2, 2), not as the series
    itself. *)
Theorem fractional_diff_zero_order_not_identity :
  compute_weights 3 0 (1 # 100000) = Some [1; 0]
  /\ compute_weights 3 0 (1 # 100000) <> Some [1]
  /\ fractional_diff 3 [Some 1; Some 2; Some 3] 0 (1 # 100000)
     = Some [(2%nat, 2)]
  /\ dropna [Some 1; Some 2; Some 3] = [(0%nat, 1); (1%nat, 2); (2%nat, 3)]
  /\ fractional_diff 3 [Some 1; Some 2; Some 3] 0 (1 # 100000)
     <> Some (dropna [Some 1; Some 2; Some 3]).
Proof.
  repeat split; try reflexivity; intros H; discriminate H.
Qed.

(** ** Shape of the weight vector *)

(** C8 (as amended).  For every [d >= 0] and every [threshold > 0] the
    weight loop terminates and its result, hence its length, depends on
    [(d, threshold)] only.  Every weight before the last one has a
    magnitude above the threshold.  The magnitudes do not increase from
    index [k] to [k + 1] as soon as [d <= 2 (k + 1) - 1]: for [d <= 3]
    that is the whole vector past its first term, for [d <= 5] the
    whole vector past its first two terms. *)
Theorem fractional_weights_magnitudes (d threshold : Q) :
  0 <= d -> 0 < threshold ->
  exists weights,
    (exists fuel0, forall fuel, (fuel0 <= fuel)%nat ->
                     compute_weights fuel d threshold = Some weights)
    /\ (forall fuel ws, compute_weights fuel d threshold = Some ws -> ws = weights)
    /\ (forall k w, weights !! k = Some w -> (S k < length weights)%nat ->
                    threshold < Qabs w)
    /\ (forall k w w',
          weights !! k = Some w -> weights !! S k = Some w' ->
          d <= 2 * Qn (S k) - 1 -> Qabs w' <= Qabs w)
    /\ (d <= 3 ->
        forall k w w',
          (1 <= k)%nat -> weights !! k = Some w -> weights !! S k = Some w' ->
          Qabs w' <= Qabs w)
    /\ (d <= 5 ->
        forall k w w',
          (2 <= k)%nat -> weights !! k = Some w -> weights !! S k = Some w' ->
          Qabs w' <= Qabs w).
Proof.
  intros Hd Ht.
  destruct (compute_weights_total d threshold Hd Ht) as (n & Hbefore & Hat & Hrun).
  assert (Hmono : forall k w w',
             weights_upto d n !! k = Some w -> weights_upto d n !! S k = Some w' ->
             d <= 2 * Qn (S k) - 1 -> Qabs w' <= Qabs w).
  { intros k w w' Hk HSk Hle.
    assert (S k <= n)%nat.
    { apply lookup_lt_Some in HSk. rewrite length_weights_upto in HSk. lia. }
    rewrite weights_upto_lookup in Hk by lia.
    rewrite weights_upto_lookup in HSk by lia.
    injection Hk as <-. injection HSk as <-.
    apply frac_weight_nonincreasing; assumption. }
  exists (weights_upto d n). repeat split.
  - exists (S n). intros fuel Hfuel. apply Hrun. lia.
  - intros fuel ws Hws.
    apply (compute_weights_deterministic d threshold fuel (S n)); [exact Hws |].
    apply Hrun. lia.
  - intros k w Hk Hlen. rewrite length_weights_upto in Hlen.
    rewrite weights_upto_lookup in Hk by lia. injection Hk as <-.
    apply Qgtb_true. apply Hbefore. lia.
  - exact Hmono.
  - intros Hd3 k w w' Hk1 Hk HSk. apply (Hmono k w w' Hk HSk).
    assert (Qn 1 <= Qn k) by (apply Qn_le; lia).
    rewrite Qn_S. change (Qn 1) with 1 in *. lra.
  - intros Hd5 k w w' Hk2 Hk HSk. apply (Hmono k w w' Hk HSk).
    assert (Qn 2 <= Qn k) by (apply Qn_le; lia).
    rewrite Qn_S. change (Qn 2) with 2 in *. lra.
Qed.

Lemma fractional_weights_magnitudes_witness :
  0 <= 1 # 2 /\ 0 < 1 # 10 /\
  exists weights,
    (exists fuel0, forall fuel, (fuel0 <= fuel)%nat ->
                     compute_weights fuel (1 # 2) (1 # 10) = Some weights)
    /\ (forall fuel ws, compute_weights fuel (1 # 2) (1 # 10) = Some ws -> ws = weights)
    /\ (forall k w, weights !! k = Some w -> (S k < length weights)%nat ->
                    1 # 10 < Qabs w)
    /\ (forall k w w',
          weights !! k = Some w -> weights !! S k = Some w' ->
          1 # 2 <= 2 * Qn (S k) - 1 -> Qabs w' <= Qabs w)
    /\ (1 # 2 <= 3 ->
        forall k w w',
          (1 <= k)%nat -> weights !! k = Some w -> weights !! S k = Some w' ->
          Qabs w' <= Qabs w)
    /\ (1 # 2 <= 5 ->
        forall k w w',
          (2 <= k)%nat -> weights !! k = Some w -> weights !! S k = Some w' ->
          Qabs w' <= Qabs w).
Proof.
  split; [unfold Qle; simpl; lia |].
  split; [reflexivity |].
  apply (fractional_weights_magnitudes (1 # 2) (1 # 10)).
  - unfold Qle; simpl; lia.
  - reflexivity.
Defined.

(** C8 as stated fails: for [d = 10] the weights are the signed
    binomial coefficients 1, -10, 45, -120, 210, ..., whose magnitudes
    grow past the first two terms: 45 at index 2, 120 at index 3. *)
Lemma fractional_weights_grow :
  exists weights,
    0 <= 10 /\ 0 < 1 # 100000
    /\ compute_weights 12 10 (1 # 100000) = Some weights
    /\ weights !! 2%nat = Some (90 # 2)
    /\ weights !! 3%nat = Some (-720 # 6)
    /\ Qabs (90 # 2) < Qabs (-720 # 6).
Proof.
  eexists.
  split; [unfold Qle; simpl; lia |]. split; [reflexivity |].
  split; [vm_compute; reflexivity |].
  split; [reflexivity |]. split; reflexivity.
Qed.

(** The loop tests a weight only after it has appended it, so the
    weight that stops the loop stays in the vector: the last weight has
    a magnitude at most the threshold.  For [d = 10] it is the zero
    that follows the binomial coefficients; for [d = 0] it is the 0 of
    [[1, 0]], the first half of the defect reported for order zero. *)
Lemma weight_loop_keeps_stopping_weight (d threshold : Q) :
  0 <= d -> 0 < threshold ->
  exists fuel weights w,
    compute_weights fuel d threshold = Some weights
    /\ last weights = Some w
    /\ Qabs w <= threshold.
Proof.
  intros Hd Ht.
  destruct (compute_weights_total d threshold Hd Ht) as (n & _ & Hat & Hrun).
  exists (S n), (weights_upto d n), (frac_weight d n).
  split; [apply Hrun; lia |]. split.
  - rewrite last_lookup, length_weights_upto. simpl.
    apply weights_upto_lookup. lia.
  - apply Qgtb_false. exact Hat.
Qed.

(** ** Search for the minimal order *)

Section FindMinFFDFacts.

Variable adfuller_pvalue : list Q -> Q.
Variable series : Series.
Variables max_d threshold : Q.
Hypothesis threshold_pos : 0 < threshold.

Lemma grid_point_nonneg (i : nat) : 0 <= grid_point i.
Proof. unfold grid_point. pose proof (Qn_nonneg i). lra. Qed.

Lemma np_arange_grid :
  np_arange max_d (1 # 10)
  = map grid_point (seq 0 (Z.to_nat (Qceiling ((max_d - 0) / (1 # 10))))).
Proof. reflexivity. Qed.

(** The grid stops strictly below [max_d]. *)
Lemma grid_point_in_range (i : nat) :
  (i < Z.to_nat (Qceiling ((max_d - 0) / (1 # 10))))%nat
  <-> grid_point i < max_d.
Proof.
  set (x := (max_d - 0) / (1 # 10)).
  assert (Hx : x == max_d * 10) by (unfold x; field).
  pose proof (Qle_ceiling x) as Hup.
  pose proof (Qceiling_lt x) as Hlow.
  pose proof (Qn_nonneg i) as Hi.
  unfold grid_point, Qn in *. split.
  - intros Hlt.
    assert (Hz : (Z.of_nat i <= Qceiling x - 1)%Z) by lia.
    rewrite Zle_Qle in Hz. lra.
  - intros Hlt.
    assert (Hz : inject_Z (Z.of_nat i) < inject_Z (Qceiling x)) by lra.
    rewrite <- Zlt_Qlt in Hz. lia.
Qed.

Lemma fractional_diff_deterministic (fuel1 fuel2 : nat) (d : Q)
      (out1 out2 : IndexedSeries) :
  fractional_diff fuel1 series d threshold = Some out1 ->
  fractional_diff fuel2 series d threshold = Some out2 ->
  out1 = out2.
Proof.
  unfold fractional_diff. intros H1 H2.
  destruct (compute_weights fuel1 d threshold) as [ws1|] eqn:E1; [| discriminate].
  destruct (compute_weights fuel2 d threshold) as [ws2|] eqn:E2; [| discriminate].
  rewrite (compute_weights_deterministic _ _ _ _ _ _ E1 E2) in H1. congruence.
Qed.

(** One amount of fuel serves every candidate of a list. *)
Lemma enough_fuel_for_all (candidates : list Q) :
  (forall d, d ∈ candidates -> 0 <= d) ->
  exists fuel0, forall fuel, (fuel0 <= fuel)%nat ->
    forall d, d ∈ candidates -> is_Some (fractional_diff fuel series d threshold).
Proof.
  induction candidates as [|c cs IH]; intros Hpos.
  - exists 0%nat. intros fuel _ d Hd. apply elem_of_nil in Hd. done.
  - destruct IH as [f1 Hf1].
    { intros d Hd. apply Hpos. apply list_elem_of_further, Hd. }
    destruct (compute_weights_total c threshold) as (n & _ & _ & Hrun);
      [apply Hpos, list_elem_of_here | exact threshold_pos |].
    exists (Nat.max f1 (S n)). intros fuel Hfuel d Hd.
    apply elem_of_cons in Hd. destruct Hd as [-> | Hd].
    + unfold fractional_diff. rewrite Hrun by lia. eauto.
    + apply Hf1; [lia | exact Hd].
Qed.

(** The loop returns the first candidate that qualifies, or [max_d]
    when it falls off the end of the list. *)
Lemma find_min_ffd_loop_spec (fuel : nat) (candidates : list Q) :
  (forall d, d ∈ candidates -> is_Some (fractional_diff fuel series d threshold)) ->
  exists r,
    find_min_ffd_loop adfuller_pvalue fuel series threshold max_d candidates
    = Some r
    /\ ((exists p, candidates !! p = Some r
           /\ qualifies adfuller_pvalue series threshold r
           /\ forall p' d', (p' < p)%nat -> candidates !! p' = Some d' ->
                            ~ qualifies adfuller_pvalue series threshold d')
        \/ (r = max_d
            /\ forall d', d' ∈ candidates ->
                          ~ qualifies adfuller_pvalue series threshold d')).
Proof.
  induction candidates as [|c cs IH]; intros Hfuel; simpl.
  - exists max_d. split; [reflexivity |]. right. split; [reflexivity |].
    intros d' Hd'. apply elem_of_nil in Hd'. done.
  - destruct (Hfuel c (list_elem_of_here _ _)) as [out Hout]. rewrite Hout.
    destruct IH as (r & Hr & Hspec).
    { intros d Hd. apply Hfuel, list_elem_of_further, Hd. }
    assert (Hskip : (length out <? 10)%nat = true
                    \/ Qltb (adfuller_pvalue (map snd out)) (5 # 100) = false ->
                    ~ qualifies adfuller_pvalue series threshold c).
    { intros Hcase (fuel' & out' & Hout' & Hlen & Hp).
      rewrite (fractional_diff_deterministic _ _ _ _ _ Hout' Hout) in *.
      destruct Hcase as [Hshort | Hfail].
      - apply Nat.ltb_lt in Hshort. lia.
      - apply Qltb_false in Hfail. lra. }
    assert (Hnext : ~ qualifies adfuller_pvalue series threshold c ->
              exists r0,
                Some r = Some r0
                /\ ((exists p, (c :: cs) !! p = Some r0
                       /\ qualifies adfuller_pvalue series threshold r0
                       /\ forall p' d', (p' < p)%nat -> (c :: cs) !! p' = Some d' ->
                             ~ qualifies adfuller_pvalue series threshold d')
                    \/ (r0 = max_d
                        /\ forall d', d' ∈ c :: cs ->
                              ~ qualifies adfuller_pvalue series threshold d'))).
    { intros Hc. exists r. split; [reflexivity |].
      destruct Hspec as [(p & Hp & Hq & Hmin) | [-> Hnone]].
      - left. exists (S p). split; [exact Hp |]. split; [exact Hq |].
        intros [|p'] d' Hlt Hl; simpl in Hl.
        + injection Hl as <-. exact Hc.
        + apply (Hmin p'); [lia | exact Hl].
      - right. split; [reflexivity |]. intros d' Hd'.
        apply elem_of_cons in Hd'. destruct Hd' as [-> | Hd']; [exact Hc |].
        apply Hnone, Hd'. }
    destruct (length out <? 10)%nat eqn:Hlen.
    + rewrite Hr. apply Hnext, Hskip. left. reflexivity.
    + destruct (Qltb (adfuller_pvalue (map snd out)) (5 # 100)) eqn:Hp.
      * exists c. split; [reflexivity |]. left. exists 0%nat.
        split; [reflexivity |]. split.
        -- exists fuel, out. split; [exact Hout |]. split.
           ++ apply Nat.ltb_ge in Hlen. exact Hlen.
           ++ apply Qltb_true. exact Hp.
        -- intros p' d' Hlt. lia.
      * rewrite Hr. apply Hnext, Hskip. right. reflexivity.
Qed.

End FindMinFFDFacts.

(** C5.  For every series, every [max_d], every [threshold > 0] and
    every stationarity oracle, [find_min_ffd] terminates and returns the
    smallest point of the grid 0.0, 0.1, 0.2, ... strictly below [max_d]
    whose differenced series has at least 10 valid points and an oracle
    p-value below 0.05 (a candidate with fewer than 10 valid points does
    not qualify and is passed over); when no grid point below [max_d]
    qualifies the result is [max_d] itself. *)
Theorem find_min_ffd_smallest_qualifying
        (adfuller_pvalue : list Q -> Q) (series : Series) (max_d threshold : Q) :
  0 < threshold ->
  exists fuel0, forall fuel, (fuel0 <= fuel)%nat ->
    exists r,
      find_min_ffd adfuller_pvalue fuel series max_d threshold = Some r
      /\ ((exists i,
             r = grid_point i
             /\ r < max_d
             /\ qualifies adfuller_pvalue series threshold r
             /\ forall j, (j < i)%nat ->
                  ~ qualifies adfuller_pvalue series threshold (grid_point j))
          \/ (r = max_d
              /\ forall j, grid_point j < max_d ->
                   ~ qualifies adfuller_pvalue series threshold (grid_point j))).
Proof.
  intros Ht.
  set (N := Z.to_nat (Qceiling ((max_d - 0) / (1 # 10)))).
  destruct (enough_fuel_for_all series threshold Ht (map grid_point (seq 0 N)))
    as [fuel0 Hfuel0].
  { intros d Hd. apply list_elem_of_fmap in Hd. destruct Hd as (i & -> & _).
    apply grid_point_nonneg. }
  exists fuel0. intros fuel Hfuel.
  destruct (find_min_ffd_loop_spec adfuller_pvalue series max_d threshold fuel
              (map grid_point (seq 0 N)) (Hfuel0 fuel Hfuel))
    as (r & Hr & Hspec).
  exists r. split; [exact Hr |].
  destruct Hspec as [(p & Hp & Hq & Hmin) | [-> Hnone]].
  - left. exists p.
    rewrite list_lookup_fmap in Hp.
    destruct (seq 0 N !! p) as [i|] eqn:Hi; [| discriminate].
    apply lookup_seq in Hi. destruct Hi as [-> HpN]. simpl in Hp.
    injection Hp as <-. split; [reflexivity |]. split.
    + apply grid_point_in_range. exact HpN.
    + split; [exact Hq |]. intros j Hj. apply (Hmin j); [exact Hj |].
      rewrite list_lookup_fmap, lookup_seq_lt by lia. reflexivity.
  - right. split; [reflexivity |]. intros j Hj. apply Hnone.
    apply list_elem_of_fmap. exists j. split; [reflexivity |].
    apply elem_of_seq. apply grid_point_in_range in Hj. fold N in Hj. lia.
Qed.

Lemma find_min_ffd_smallest_qualifying_witness :
  0 < 1 # 10 /\
  exists fuel0, forall fuel, (fuel0 <= fuel)%nat ->
    exists r,
      find_min_ffd (fun _ => 1 # 100) fuel
        (map (fun i => Some (Qn i)) (seq 0 14)) 1 (1 # 10) = Some r
      /\ ((exists i,
             r = grid_point i
             /\ r < 1
             /\ qualifies (fun _ => 1 # 100)
                  (map (fun i => Some (Qn i)) (seq 0 14)) (1 # 10) r
             /\ forall j, (j < i)%nat ->
                  ~ qualifies (fun _ => 1 # 100)
                      (map (fun i => Some (Qn i)) (seq 0 14)) (1 # 10) (grid_point j))
          \/ (r = 1
              /\ forall j, grid_point j < 1 ->
                   ~ qualifies (fun _ => 1 # 100)
                       (map (fun i => Some (Qn i)) (seq 0 14)) (1 # 10)
                       (grid_point j))).
Proof.
  split; [reflexivity |].
  apply (find_min_ffd_smallest_qualifying (fun _ => 1 # 100)
           (map (fun i => Some (Qn i)) (seq 0 14)) 1 (1 # 10)).
  reflexivity.
Defined.

(** ** Half-life *)

(** C6.  Whenever the regression of the first difference on the lagged
    level yields a decay coefficient [theta], [calculate_half_life]
    raises nothing: it returns [- ln 2 / theta] when [theta < 0], and it
    returns plus infinity exactly when [theta >= 0]. *)
Theorem calculate_half_life_by_sign
        (np_log2 : Q) (linear_regression_coef : list Q -> list Q -> result Q)
        (spread : Series) (theta : Q) :
  linear_regression_coef (map snd (half_life_frame spread))
                         (map fst (half_life_frame spread)) = Ok theta ->
  (theta < 0 ->
   calculate_half_life np_log2 linear_regression_coef spread
   = Ok (Finite (- np_log2 / theta)))
  /\ (calculate_half_life np_log2 linear_regression_coef spread = Ok PosInf
      <-> 0 <= theta)
  /\ exists h, calculate_half_life np_log2 linear_regression_coef spread = Ok h.
Proof.
  intros Hfit. unfold calculate_half_life. rewrite Hfit. simpl.
  destruct (Qltb theta 0) eqn:Hsign.
  - apply Qltb_true in Hsign. split; [reflexivity |]. split; [| eauto].
    split; [discriminate | intros Hge; lra].
  - apply Qltb_false in Hsign. split; [intros Hneg; lra |]. split; [| eauto].
    split; [intros _; exact Hsign | reflexivity].
Qed.

Lemma calculate_half_life_by_sign_witness :
  ols_slope (map snd (half_life_frame [Some 8; Some 4; Some 2; Some 1]))
            (map fst (half_life_frame [Some 8; Some 4; Some 2; Some 1]))
  = Ok (-1 # 2)
  /\ ((-1 # 2 < 0 ->
       calculate_half_life np_log2_binary64 ols_slope [Some 8; Some 4; Some 2; Some 1]
       = Ok (Finite (- np_log2_binary64 / (-1 # 2))))
      /\ (calculate_half_life np_log2_binary64 ols_slope
            [Some 8; Some 4; Some 2; Some 1] = Ok PosInf
          <-> 0 <= -1 # 2)
      /\ exists h,
           calculate_half_life np_log2_binary64 ols_slope
             [Some 8; Some 4; Some 2; Some 1] = Ok h).
Proof.
  split; [vm_compute; reflexivity |].
  apply (calculate_half_life_by_sign np_log2_binary64 ols_slope
           [Some 8; Some 4; Some 2; Some 1] (-1 # 2)).
  vm_compute; reflexivity.
Defined.

(** The frame pairs each difference with the level before it and skips
    the rows that touch a missing value.  With the reference slope
    [ols_slope], a flat spread has a zero slope and an infinite
    half-life, and a single point leaves the regression without data. *)
Example half_life_frame_rows :
  half_life_frame [Some 8; Some 4; None; Some 2; Some 1; Some 3]
  = [(4 - 8, 8); (1 - 2, 2); (3 - 1, 1)].
Proof. reflexivity. Qed.

Example half_life_flat :
  calculate_half_life np_log2_binary64 ols_slope [Some 5; Some 5; Some 5; Some 5]
  = Ok PosInf.
Proof. reflexivity. Qed.

Example half_life_single_point :
  calculate_half_life np_log2_binary64 ols_slope [Some 5] = Raise ValueError.
Proof. reflexivity. Qed.

(** ** Rounding *)

Section Rounding.

Lemma rint_cases (y : Q) :
  rint y = Qfloor y
  \/ (rint y = (Qfloor y + 1)%Z /\ inject_Z (Qfloor y) < y).
Proof.
  unfold rint.
  destruct (Qcompare_spec (y - inject_Z (Qfloor y)) (1 # 2)) as [He | Hl | Hg].
  - destruct (Z.even (Qfloor y)); [left; reflexivity |].
    right. split; [reflexivity | lra].
  - left. reflexivity.
  - right. split; [reflexivity | lra].
Qed.

(** Rounding never leaves an interval with integer ends. *)
Lemma rint_bounds (a b : Z) (y : Q) :
  inject_Z a <= y <= inject_Z b -> (a <= rint y <= b)%Z.
Proof.
  intros [Ha Hb].
  assert (Hfa : (a <= Qfloor y)%Z).
  { rewrite <- (Qfloor_Z a). apply Qfloor_resp_le, Ha. }
  assert (Hfb : (Qfloor y <= b)%Z).
  { rewrite <- (Qfloor_Z b). apply Qfloor_resp_le, Hb. }
  destruct (rint_cases y) as [-> | [-> Hlt]]; [lia |].
  assert (Hz : inject_Z (Qfloor y) < inject_Z b) by lra.
  rewrite <- Zlt_Qlt in Hz. lia.
Qed.

Lemma py_round_1_bounds (x : Q) :
  70 <= x <= 100 -> 70 <= py_round x 1 <= 100.
Proof.
  intros Hx. unfold py_round.
  change (inject_Z (10 ^ Z.of_nat 1)) with 10.
  destruct (rint_bounds 700 1000 (x * 10)) as [Hlo Hhi].
  { change (inject_Z 700) with 700. change (inject_Z 1000) with 1000. lra. }
  rewrite Zle_Qle in Hlo, Hhi.
  change (inject_Z 700) with 700 in Hlo.
  change (inject_Z 1000) with 1000 in Hhi.
  split.
  - apply Qle_shift_div_l; [reflexivity | lra].
  - apply Qle_shift_div_r; [reflexivity | lra].
Qed.

End Rounding.

(** ** The fusion engine *)

Section Fusion.

Variable format_float : nat -> Q -> string.

(** The momentum block appends unconditionally, so the lists are never
    empty. *)
Lemma gather_signals_nonempty (analysis : Analysis) (price_series : Series)
      (signals weights : list Q) :
  gather_signals analysis price_series = Ok (signals, weights) ->
  signals <> [] /\ weights <> [].
Proof.
  unfold gather_signals, rbind. intros H.
  repeat case_match; simplify_eq; simpl; split; intros Hnil; discriminate Hnil.
Qed.

(** The result for a non-empty list of signals. *)
Lemma calculate_trading_signal_gathered
      (analysis : Analysis) (price_series returns : Series)
      (signals weights : list Q) :
  gather_signals analysis price_series = Ok (signals, weights) ->
  signals <> [] ->
  calculate_trading_signal format_float analysis price_series returns
  = Ok {| recommendation := (decide_recommendation
                               (weighted_signal_of signals weights)).1;
          confidence := py_round (decide_recommendation
                                    (weighted_signal_of signals weights)).2 1;
          signal_strength := py_round (weighted_signal_of signals weights) 3;
          reasoning := build_reasoning format_float analysis |}.
Proof.
  intros Hg Hne. unfold calculate_trading_signal. rewrite Hg. simpl.
  destruct signals; [done | reflexivity].
Qed.

Lemma decide_recommendation_buy (s : Q) :
  3 # 10 < s ->
  decide_recommendation s = (BUY, Qmin (Qabs s * 100) 100).
Proof.
  intros H. unfold decide_recommendation.
  apply Qgtb_true in H. rewrite H. reflexivity.
Qed.

Lemma decide_recommendation_sell (s : Q) :
  s < - (3 # 10) ->
  decide_recommendation s = (SELL, Qmin (Qabs s * 100) 100).
Proof.
  intros H. unfold decide_recommendation.
  assert (Hb : Qgtb s (3 # 10) = false) by (apply Qgtb_false; lra).
  apply Qltb_true in H. rewrite Hb, H. reflexivity.
Qed.

Lemma decide_recommendation_hold (s : Q) :
  - (3 # 10) <= s <= 3 # 10 ->
  decide_recommendation s = (HOLD, 100 - Qabs s * 100).
Proof.
  intros [Hlo Hhi]. unfold decide_recommendation.
  apply Qgtb_false in Hhi. apply Qltb_false in Hlo.
  rewrite Hhi, Hlo. reflexivity.
Qed.

Lemma decide_recommendation_hold_inv (s : Q) :
  (decide_recommendation s).1 = HOLD -> - (3 # 10) <= s <= 3 # 10.
Proof.
  unfold decide_recommendation.
  destruct (Qgtb s (3 # 10)) eqn:Hb; [discriminate |].
  destruct (Qltb s (- (3 # 10))) eqn:Hs; [discriminate |].
  intros _. apply Qgtb_false in Hb. apply Qltb_false in Hs. split; assumption.
Qed.

End Fusion.

Section FusionWeights.

Lemma Qsum_scale (c : Q) (l : list Q) :
  Qsum (map (fun w => w / c) l) == Qsum l / c.
Proof.
  induction l as [|x l IH]; simpl.
  - unfold Qdiv. ring.
  - rewrite IH. unfold Qdiv. ring.
Qed.

(** The normalized weights sum to 1. *)
Lemma normalize_sums_to_one (weights : list Q) :
  ~ Qsum weights == 0 -> Qsum (normalize weights) == 1.
Proof.
  intros Hne. unfold normalize. rewrite Qsum_scale. field. exact Hne.
Qed.

(** The gathered weights are the constants 0.30, 0.25, 0.15, 0.20 and
    0.10 of the factors that contributed; their sum is positive. *)
Lemma gather_signals_weight_sum (analysis : Analysis) (price_series : Series)
      (signals weights : list Q) :
  gather_signals analysis price_series = Ok (signals, weights) ->
  0 < Qsum weights /\ length signals = length weights.
Proof.
  unfold gather_signals, rbind. intros H.
  repeat case_match; simplify_eq; simpl; split; reflexivity.
Qed.

End FusionWeights.

(** ** The decision in binary64 *)

Section DecisionBinary64.

Import Binary64 FusionBinary64.

Variable format_float : nat -> Q -> string.

(** The binary64 run of the function once the signals are gathered. *)
Lemma calculate_trading_signal_b64_gathered
      (analysis : Analysis) (price_series returns : Series)
      (signals weights : list Q) :
  gather_signals analysis price_series = Ok (signals, weights) ->
  signals <> [] ->
  calculate_trading_signal_b64 format_float analysis price_series returns
  = Ok {| recommendation :=
            (decide_recommendation_b64 (weighted_signal_b64 signals weights)).1;
          confidence :=
            np_round (decide_recommendation_b64
                        (weighted_signal_b64 signals weights)).2 1;
          signal_strength := np_round (weighted_signal_b64 signals weights) 3;
          reasoning := build_reasoning format_float analysis |}.
Proof.
  intros Hg Hne. unfold calculate_trading_signal_b64. rewrite Hg.
  cbn [rbind fst snd]. destruct signals as [|s signals]; [congruence |].
  reflexivity.
Qed.

(** C7 (as amended).  For every non-empty list of gathered signals, with
    [S] the binary64 number that [np.average] returns under the
    renormalized weights, [calculate_trading_signal] returns BUY when
    [S > 0.3], SELL when [S < -0.3] and HOLD otherwise, the comparisons
    being those of binary64 numbers with the literal 0.3; the confidence
    it reports is [min(|S| * 100, 100)] for BUY and SELL and
    [100 - |S| * 100] for HOLD, rounded to one decimal place, and the
    signal strength is [S] rounded to three. *)
Theorem trading_signal_decision_binary64
        (analysis : Analysis) (price_series returns : Series)
        (signals weights : list Q) :
  gather_signals analysis price_series = Ok (signals, weights) ->
  signals <> [] ->
  let S := weighted_signal_b64 signals weights in
  exists r,
    calculate_trading_signal_b64 format_float analysis price_series returns = Ok r
    /\ signal_strength r = np_round S 3
    /\ (threshold_b64 < S ->
        recommendation r = BUY
        /\ confidence r = np_round (Qmin (b64 (Qabs S * 100)) 100) 1)
    /\ (S < - threshold_b64 ->
        recommendation r = SELL
        /\ confidence r = np_round (Qmin (b64 (Qabs S * 100)) 100) 1)
    /\ (- threshold_b64 <= S <= threshold_b64 ->
        recommendation r = HOLD
        /\ confidence r = np_round (b64 (100 - b64 (Qabs S * 100))) 1).
Proof.
  intros Hg Hne S.
  eexists. split.
  { apply (calculate_trading_signal_b64_gathered _ _ _ _ _ Hg Hne). }
  fold S. cbn [signal_strength recommendation confidence].
  split; [reflexivity |].
  unfold decide_recommendation_b64.
  destruct (Qgtb S threshold_b64) eqn:Hbuy.
  - apply Qgtb_true in Hbuy. cbn [fst snd].
    split; [intros _; split; reflexivity |].
    split; [intros Hlt | intros [_ Hle]].
    + assert (0 < threshold_b64) by reflexivity. lra.
    + lra.
  - apply Qgtb_false in Hbuy.
    destruct (Qltb S (- threshold_b64)) eqn:Hsell.
    + apply Qltb_true in Hsell. cbn [fst snd].
      split; [intros Hgt; lra |].
      split; [intros _; split; reflexivity |].
      intros [Hge _]. lra.
    + apply Qltb_false in Hsell. cbn [fst snd].
      split; [intros Hgt; lra |].
      split; [intros Hlt; lra |].
      intros _. split; reflexivity.
Qed.

End DecisionBinary64.

Lemma trading_signal_decision_binary64_witness :
  gather_signals calm_and_strong [] = Ok ([1 # 2; 1], [15 # 100; 20 # 100])
  /\ [1 # 2; 1] <> []
  /\ let S := FusionBinary64.weighted_signal_b64 [1 # 2; 1] [15 # 100; 20 # 100] in
     exists r,
       FusionBinary64.calculate_trading_signal_b64
         plain_format calm_and_strong [] [] = Ok r
       /\ signal_strength r = Binary64.np_round S 3
       /\ (FusionBinary64.threshold_b64 < S ->
           recommendation r = BUY
           /\ confidence r
              = Binary64.np_round (Qmin (Binary64.b64 (Qabs S * 100)) 100) 1)
       /\ (S < - FusionBinary64.threshold_b64 ->
           recommendation r = SELL
           /\ confidence r
              = Binary64.np_round (Qmin (Binary64.b64 (Qabs S * 100)) 100) 1)
       /\ (- FusionBinary64.threshold_b64 <= S <= FusionBinary64.threshold_b64 ->
           recommendation r = HOLD
           /\ confidence r
              = Binary64.np_round
                  (Binary64.b64 (100 - Binary64.b64 (Qabs S * 100))) 1).
Proof.
  split; [reflexivity |]. split; [discriminate |].
  apply (trading_signal_decision_binary64 plain_format calm_and_strong [] []
           [1 # 2; 1] [15 # 100; 20 # 100]).
  - reflexivity.
  - discriminate.
Defined.

(** C7 as stated fails: with low volatility, a strong Sharpe ratio and a
    rising price the weighted signal is 0.7857142857142857 (11/14
    exactly), above 0.3; the function returns BUY with confidence 78.6,
    while [min(|S| * 100, 100)] is 78.57..., for the binary64 [S] as for
    the exact one. *)
Lemma trading_signal_confidence_rounded_binary64 :
  exists r S,
    gather_signals calm_and_strong [] = Ok ([1 # 2; 1], [15 # 100; 20 # 100])
    /\ S = FusionBinary64.weighted_signal_b64 [1 # 2; 1] [15 # 100; 20 # 100]
    /\ weighted_signal_of [1 # 2; 1] [15 # 100; 20 # 100] == 11 # 14
    /\ FusionBinary64.threshold_b64 < S
    /\ FusionBinary64.calculate_trading_signal_b64
         plain_format calm_and_strong [] [] = Ok r
    /\ recommendation r = BUY
    /\ confidence r == Binary64.b64 (786 # 10)
    /\ ~ confidence r == Qmin (Binary64.b64 (Qabs S * 100)) 100
    /\ ~ confidence r == Qmin (Qabs (11 # 14) * 100) 100.
Proof.
  eexists _, _.
  split; [reflexivity |]. split; [reflexivity |]. split; [reflexivity |].
  split; [vm_compute; reflexivity |]. split; [reflexivity |].
  split; [vm_compute; reflexivity |]. split; [vm_compute; reflexivity |].
  split; intros H; vm_compute in H; discriminate H.
Qed.

(** Where the rounding decides.  With all five factors present and only
    the Hurst block giving a signal, the exact weighted average is 0.3
    and the exact-rational run says HOLD with confidence 70; the
    binary64 weight sum is 1.0000000000000002, the average comes out as
    0.30000000000000004, above the literal 0.3, and the function returns
    BUY with confidence 30. *)
Example boundary_decided_by_rounding :
  gather_signals EdgeSamples.trend_only rally_prices
  = Ok ([1; 0; 0; 0; 0], [30 # 100; 25 # 100; 15 # 100; 20 # 100; 10 # 100])
  /\ weighted_signal_of [1; 0; 0; 0; 0]
       [30 # 100; 25 # 100; 15 # 100; 20 # 100; 10 # 100] == 3 # 10
  /\ Qred (Binary64.np_sum
             (map Binary64.b64 [30 # 100; 25 # 100; 15 # 100; 20 # 100; 10 # 100]))
     = 4503599627370497 # 4503599627370496
  /\ Qred (FusionBinary64.weighted_signal_b64 [1; 0; 0; 0; 0]
             [30 # 100; 25 # 100; 15 # 100; 20 # 100; 10 # 100])
     = 1351079888211149 # 4503599627370496
  /\ Qred FusionBinary64.threshold_b64 = 5404319552844595 # 18014398509481984
  /\ (exists r,
        calculate_trading_signal plain_format EdgeSamples.trend_only
          rally_prices [] = Ok r
        /\ recommendation r = HOLD /\ confidence r == 70)
  /\ (exists r,
        FusionBinary64.calculate_trading_signal_b64
          plain_format EdgeSamples.trend_only rally_prices [] = Ok r
        /\ recommendation r = BUY /\ confidence r == 30
        /\ signal_strength r == Binary64.b64 (3 # 10)).
Proof.
  split; [reflexivity |]. split; [reflexivity |].
  split; [vm_compute; reflexivity |]. split; [vm_compute; reflexivity |].
  split; [vm_compute; reflexivity |].
  split; eexists; (split; [vm_compute; reflexivity |]);
    repeat split; vm_compute; reflexivity.
Qed.

(** C9.  Whenever [calculate_trading_signal] returns HOLD from at least
    one gathered signal, the weighted signal [S] satisfies
    [|S| <= 0.3], the HOLD branch sets the confidence to
    [100 - |S| * 100], and the confidence reported (that value rounded
    to one decimal place) lies in [70, 100]. *)
Theorem hold_confidence_range
        (format_float : nat -> Q -> string) (analysis : Analysis)
        (price_series returns : Series) (signals weights : list Q)
        (r : TradingSignal) :
  gather_signals analysis price_series = Ok (signals, weights) ->
  signals <> [] ->
  calculate_trading_signal format_float analysis price_series returns = Ok r ->
  recommendation r = HOLD ->
  let S := weighted_signal_of signals weights in
  Qabs S <= 3 # 10
  /\ decide_recommendation S = (HOLD, 100 - Qabs S * 100)
  /\ confidence r = py_round (100 - Qabs S * 100) 1
  /\ 70 <= confidence r <= 100.
Proof.
  intros Hg Hne Hr Hhold. cbv zeta.
  rewrite (calculate_trading_signal_gathered format_float _ _ _ _ _ Hg Hne) in Hr.
  injection Hr as <-. cbn [recommendation confidence] in *.
  generalize dependent (weighted_signal_of signals weights). intros S Hhold.
  pose proof (decide_recommendation_hold_inv S Hhold) as Hrange.
  rewrite (decide_recommendation_hold S Hrange). cbn [fst snd].
  assert (Habs : Qabs S <= 3 # 10) by (apply Qabs_Qle_condition; exact Hrange).
  split; [exact Habs |]. split; [reflexivity |]. split; [reflexivity |].
  apply py_round_1_bounds.
  pose proof (Qabs_nonneg S). lra.
Qed.

Lemma hold_confidence_range_witness :
  gather_signals neutral [] = Ok ([0], [20 # 100])
  /\ [0] <> []
  /\ recommendation {| recommendation := HOLD; confidence := 1000 # 10;
                       signal_strength := 0 # 1000;
                       reasoning := "Based on technical analysis" |} = HOLD
  /\ let S := weighted_signal_of [0] [20 # 100] in
     Qabs S <= 3 # 10
     /\ decide_recommendation S = (HOLD, 100 - Qabs S * 100)
     /\ confidence {| recommendation := HOLD; confidence := 1000 # 10;
                      signal_strength := 0 # 1000;
                      reasoning := "Based on technical analysis" |}
        = py_round (100 - Qabs S * 100) 1
     /\ 70 <= confidence {| recommendation := HOLD; confidence := 1000 # 10;
                            signal_strength := 0 # 1000;
                            reasoning := "Based on technical analysis" |} <= 100.
Proof.
  split; [reflexivity |]. split; [discriminate |]. split; [reflexivity |].
  apply (hold_confidence_range plain_format neutral [] [] [0] [20 # 100]).
  - reflexivity.
  - discriminate.
  - reflexivity.
  - reflexivity.
Defined.

(** ** The regime lookup *)

Section RegimeLookup.

Variable format_float : nat -> Q -> string.

Lemma py_index_from_end {A : Type} (l : list A) (k : Z) :
  (0 < k <= Z.of_nat (length l))%Z ->
  py_index l (- k) = l !! Z.to_nat (Z.of_nat (length l) - k).
Proof.
  intros Hk. unfold py_index.
  destruct (Z.leb_spec 0 (- k)); [lia |].
  destruct (Z.leb_spec (- Z.of_nat (length l)) (- k)); [| lia].
  f_equal.
Qed.

Lemma py_index_last_20 (price_series : Series) :
  (20 <= length price_series)%nat ->
  is_Some (py_index price_series (-1)) /\ is_Some (py_index price_series (-20)).
Proof.
  intros Hlen.
  change (-1)%Z with (- (1))%Z. change (-20)%Z with (- (20))%Z.
  rewrite !py_index_from_end by lia.
  split; apply lookup_lt_is_Some; lia.
Qed.

Lemma hurst_signal_ok (hurst : Q) (price_series : Series) :
  (20 <= length price_series)%nat ->
  exists s, hurst_signal hurst price_series = Ok s.
Proof.
  intros Hlen.
  destruct (py_index_last_20 price_series Hlen) as [[a Ha] [b Hb]].
  unfold hurst_signal, return_20, rbind, or_raise. rewrite Ha, Hb.
  repeat case_match; eauto.
Qed.

(** With the Hurst block out of the way, the function returns exactly
    when the regime lookup does. *)
Lemma calculate_trading_signal_regime
      (analysis : Analysis) (price_series returns : Series) (r : RegimeDict) :
  regime analysis = Some r ->
  (20 <= length price_series)%nat ->
  (exists res,
      calculate_trading_signal format_float analysis price_series returns = Ok res)
  <-> exists p, regime_probability r = Ok p.
Proof.
  intros Hr Hlen.
  unfold calculate_trading_signal, gather_signals, regime_signal. rewrite Hr.
  destruct (get_hurst analysis) as [h|].
  - destruct (hurst_signal_ok h price_series Hlen) as [s ->]. simpl.
    destruct (regime_probability r) as [p|e]; simpl.
    + split; [eauto |]. intros _. repeat case_match; eauto.
    + split; [intros [? ?]; discriminate | intros [? ?]; discriminate].
  - simpl. destruct (regime_probability r) as [p|e]; simpl.
    + split; [eauto |]. intros _. repeat case_match; eauto.
    + split; [intros [? ?]; discriminate | intros [? ?]; discriminate].
Qed.

(** An out-of-bounds regime raises [IndexError], whatever the other
    factors are: the only block before it raises the same error. *)
Lemma calculate_trading_signal_regime_oob
      (analysis : Analysis) (price_series returns : Series)
      (r : RegimeDict) (c : Z) :
  regime analysis = Some r ->
  current_regime r = Some c ->
  py_index (default [0; 0; 0] (regime_probabilities r)) c = None ->
  calculate_trading_signal format_float analysis price_series returns
  = Raise IndexError.
Proof.
  intros Hr Hc Hoob.
  unfold calculate_trading_signal, gather_signals, regime_signal,
    regime_probability.
  rewrite Hr, Hc, Hoob.
  destruct (get_hurst analysis) as [h|]; [| reflexivity].
  unfold hurst_signal, return_20, rbind, or_raise.
  repeat case_match; simplify_eq; reflexivity.
Qed.

End RegimeLookup.

(** C10.  When the regime factor is present (and the price series has
    the 20 points the Hurst block reads), [calculate_trading_signal]
    returns a result exactly when [current_regime] is there and is a
    valid index of [regime_probabilities] (by default [[0, 0, 0]]); an
    index outside the bounds always makes it raise [IndexError]; and
    such inputs exist: [current_regime = 3] with the default
    probabilities. *)
Theorem regime_lookup_precondition :
  (forall (format_float : nat -> Q -> string) (analysis : Analysis)
          (price_series returns : Series) (r : RegimeDict),
      regime analysis = Some r ->
      (20 <= length price_series)%nat ->
      ((exists res,
           calculate_trading_signal format_float analysis price_series returns
           = Ok res)
       <-> exists c,
             current_regime r = Some c
             /\ is_Some (py_index (default [0; 0; 0] (regime_probabilities r)) c)))
  /\ (forall (format_float : nat -> Q -> string) (analysis : Analysis)
             (price_series returns : Series) (r : RegimeDict) (c : Z),
         regime analysis = Some r ->
         current_regime r = Some c ->
         py_index (default [0; 0; 0] (regime_probabilities r)) c = None ->
         calculate_trading_signal format_float analysis price_series returns
         = Raise IndexError)
  /\ (exists (analysis : Analysis) (r : RegimeDict) (c : Z),
         regime analysis = Some r
         /\ current_regime r = Some c
         /\ py_index (default [0; 0; 0] (regime_probabilities r)) c = None
         /\ forall (format_float : nat -> Q -> string) (price_series returns : Series),
              calculate_trading_signal format_float analysis price_series returns
              = Raise IndexError).
Proof.
  split; [| split].
  - intros format_float analysis price_series returns r Hr Hlen.
    rewrite (calculate_trading_signal_regime format_float _ _ _ r Hr Hlen).
    unfold regime_probability, or_raise.
    destruct (current_regime r) as [c|].
    + destruct (py_index _ c) as [p|] eqn:Hp.
      * split; [intros _; exists c; rewrite Hp; eauto | intros _; eauto].
      * split; [intros [? ?]; discriminate |].
        intros (c' & [= <-] & [? Hs]). rewrite Hp in Hs. discriminate.
    + split; [intros [? ?]; discriminate | intros (c' & ? & _); discriminate].
  - intros format_float analysis price_series returns r c Hr Hc Hoob.
    apply (calculate_trading_signal_regime_oob format_float _ _ _ r c Hr Hc Hoob).
  - exists regime_out_of_range,
      {| current_regime := Some 3%Z; regime_descriptions := None;
         regime_probabilities := None |}, 3%Z.
    split; [reflexivity |]. split; [reflexivity |]. split; [reflexivity |].
    intros format_float price_series returns.
    eapply calculate_trading_signal_regime_oob; reflexivity.
Qed.

Lemma regime_lookup_precondition_witness :
  (20 <= length twenty_prices)%nat
  /\ is_Some (py_index [1 # 10; 1 # 10; 8 # 10] 2)
  /\ (exists res,
         calculate_trading_signal plain_format regime_bull twenty_prices [] = Ok res)
  /\ py_index [0; 0; 0] 3 = None
  /\ calculate_trading_signal plain_format regime_out_of_range twenty_prices []
     = Raise IndexError.
Proof.
  split; [vm_compute; lia |]. split; [vm_compute; eauto |]. split.
  - apply (proj1 regime_lookup_precondition plain_format regime_bull
             twenty_prices [] _ eq_refl).
    + vm_compute; lia.
    + exists 2%Z. split; [reflexivity | vm_compute; eauto].
  - split; [reflexivity |].
    apply (proj1 (proj2 regime_lookup_precondition) plain_format
             regime_out_of_range twenty_prices [] _ 3%Z eq_refl eq_refl).
    reflexivity.
Defined.

(** ** No factor supplied *)

(** C1 (the code at the failing input).  With an empty [analysis] the
    momentum block still appends the signal -0.5 with weight 0.20, from
    the defaults 0 of the Sharpe ratio and of the price change; the
    result is SELL with confidence 50 and signal strength -0.5, and the
    reasoning is the weak-Sharpe line, not the insufficient-data one. *)
Theorem no_factors_yields_sell
        (format_float : nat -> Q -> string) (price_series returns : Series) :
  gather_signals no_factors price_series = Ok ([- (1 # 2)], [20 # 100])
  /\ exists r,
       calculate_trading_signal format_float no_factors price_series returns = Ok r
       /\ recommendation r = SELL
       /\ confidence r == 50
       /\ signal_strength r == - (1 # 2)
       /\ reasoning r = ("Weak Sharpe (" ++ format_float 2%nat 0 ++ ")")%string
       /\ reasoning r <> "Insufficient data for recommendation"%string.
Proof.
  split; [reflexivity |].
  eexists. split; [reflexivity |]. simpl.
  split; [reflexivity |]. split; [reflexivity |]. split; [reflexivity |].
  split; [reflexivity |]. discriminate.
Qed.

(** With the Hurst factor alone (H = 0.30, 20-period return +8%) the
    momentum block still contributes -0.5 at weight 0.20: the weighted
    signal is -0.8 and the confidence 80. *)
Example hurst_only_sell :
  gather_signals hurst_only rally_prices = Ok ([-1; - (1 # 2)], [30 # 100; 20 # 100])
  /\ exists r,
       calculate_trading_signal plain_format hurst_only rally_prices [] = Ok r
       /\ recommendation r = SELL
       /\ confidence r == 80
       /\ signal_strength r == - (8 # 10).
Proof.
  split; [reflexivity |]. eexists. split; [reflexivity |].
  repeat split; reflexivity.
Qed.

(** On the ramp 0 .. 13 with threshold 0.1 the orders 0.0 and 0.1 use
    two weights and leave 12 points, which the oracle rejects; 0.2 uses
    three weights and leaves 11, which it accepts. *)
Example find_min_ffd_ramp :
  find_min_ffd short_series_oracle 5 ramp_14 1 (1 # 10) = Some (grid_point 2)
  /\ find_min_ffd (fun _ => 1) 5 ramp_14 1 (1 # 10) = Some 1
  /\ find_min_ffd (fun _ => 0) 5 ramp_14 1 (1 # 10) = Some (grid_point 0)
  /\ find_min_ffd (fun _ => 0) 5 [Some 1; Some 2; Some 3] 1 (1 # 10) = Some 1.
Proof. repeat split; vm_compute; reflexivity. Qed.

(** * Further properties of the code *)

Import Fusion MoreSamples SeriesOps.

(** ** The fusion engine: what is gathered *)

Section Gathering.

Lemma hurst_signal_range (hurst : Q) (price_series : Series) (s : Q) :
  hurst_signal hurst price_series = Ok s -> -1 <= s <= 1.
Proof.
  unfold hurst_signal, rbind. intros H.
  repeat case_match; simplify_eq; split; discriminate.
Qed.

Lemma regime_signal_range (r : RegimeDict) (s : Q) :
  regime_signal r = Ok s -> -1 <= s <= 1.
Proof.
  unfold regime_signal, rbind. intros H.
  repeat case_match; simplify_eq; split; discriminate.
Qed.

Lemma volatility_signal_range (v : VolatilityDict) : -1 <= volatility_signal v <= 1.
Proof. unfold volatility_signal. repeat case_match; split; discriminate. Qed.

Lemma momentum_signal_range (sharpe price_change : Q) :
  -1 <= momentum_signal sharpe price_change <= 1.
Proof. unfold momentum_signal. repeat case_match; split; discriminate. Qed.

Lemma statistical_signal_range (c : CointegrationDict) (price_change : Q) :
  -1 <= statistical_signal c price_change <= 1.
Proof. unfold statistical_signal. repeat case_match; split; discriminate. Qed.

(** Every gathered signal lies in [-1, 1]. *)
Lemma gather_signals_range (analysis : Analysis) (price_series : Series)
      (signals weights : list Q) :
  gather_signals analysis price_series = Ok (signals, weights) ->
  Forall (fun s => -1 <= s <= 1) signals.
Proof.
  unfold gather_signals, rbind. intros H.
  pose proof (momentum_signal_range (get_sharpe analysis) (get_price_change analysis)).
  repeat case_match; simplify_eq; simpl;
    repeat (apply Forall_cons; split); try apply Forall_nil;
      eauto using hurst_signal_range, regime_signal_range,
        volatility_signal_range, statistical_signal_range.
Qed.

Lemma gather_signals_weights (analysis : Analysis) (price_series : Series)
      (signals weights : list Q) :
  gather_signals analysis price_series = Ok (signals, weights) ->
  weights = present_weights analysis.
Proof.
  unfold gather_signals, present_weights, rbind. intros H.
  repeat case_match; simplify_eq; reflexivity.
Qed.

End Gathering.

(** X1.  Whenever [calculate_trading_signal] gets past its five factor
    blocks, the weight list is exactly 0.30, 0.25, 0.15, 0.20, 0.10
    restricted, in that order, to the factors that are present (Hurst,
    regime, volatility and stationarity when supplied, momentum always),
    there is one signal per weight, and every signal lies in [-1, 1]. *)
Theorem gathered_weights_follow_presence
        (analysis : Analysis) (price_series : Series) (signals weights : list Q) :
  gather_signals analysis price_series = Ok (signals, weights) ->
  weights = present_weights analysis
  /\ length signals = length weights
  /\ Forall (fun s => -1 <= s <= 1) signals.
Proof.
  intros Hg. split; [exact (gather_signals_weights _ _ _ _ Hg) |].
  split; [exact (proj2 (gather_signals_weight_sum _ _ _ _ Hg)) |].
  exact (gather_signals_range _ _ _ _ Hg).
Qed.

Lemma gathered_weights_follow_presence_witness :
  gather_signals hurst_only rally_prices
  = Ok ([-1; - (1 # 2)], [30 # 100; 20 # 100])
  /\ [30 # 100; 20 # 100] = present_weights hurst_only
  /\ length [-1; - (1 # 2)] = length [30 # 100; 20 # 100]
  /\ Forall (fun s => -1 <= s <= 1) [-1; - (1 # 2)].
Proof.
  split; [reflexivity |].
  apply (gathered_weights_follow_presence hurst_only rally_prices).
  reflexivity.
Defined.

(** ** The fusion engine: ranges of the result *)

Section FusionRanges.

Lemma Qsum_zip_bounds (lo hi : Q) (a : list Q) : forall (w : list Q),
  length a = length w ->
  Forall (fun x => lo <= x <= hi) a ->
  Forall (fun x => 0 <= x) w ->
  lo * Qsum w <= Qsum (zip_with Qmult a w) <= hi * Qsum w.
Proof.
  induction a as [|x a IH]; intros [|y w] Hlen Ha Hw; simpl in *; try discriminate.
  - split; lra.
  - inversion Ha as [|? ? [Hlo Hhi] Ha']; subst.
    inversion Hw as [|? ? Hy Hw']; subst.
    destruct (IH w) as [IHlo IHhi]; [lia | assumption | assumption |].
    pose proof (Qmult_le_compat_r _ _ y Hlo Hy).
    pose proof (Qmult_le_compat_r _ _ y Hhi Hy).
    split; lra.
Qed.

Lemma present_weights_nonneg (analysis : Analysis) :
  Forall (fun w => 0 <= w) (present_weights analysis).
Proof.
  unfold present_weights.
  repeat case_match; simpl; repeat (apply Forall_cons; split);
    try apply Forall_nil; first [exact I | cbv beta; discriminate].
Qed.

Lemma normalize_nonneg (weights : list Q) :
  0 < Qsum weights ->
  Forall (fun w => 0 <= w) weights ->
  Forall (fun w => 0 <= w) (normalize weights).
Proof.
  intros Hpos Hw. unfold normalize. apply Forall_fmap.
  eapply Forall_impl; [exact Hw |]. intros w Hw0. cbv beta in *.
  apply Qle_shift_div_l; [exact Hpos |].
  rewrite Qmult_0_l. exact Hw0.
Qed.

(** The weighted signal is an average of numbers in [-1, 1]. *)
Lemma weighted_signal_range (analysis : Analysis) (price_series : Series)
      (signals weights : list Q) :
  gather_signals analysis price_series = Ok (signals, weights) ->
  -1 <= weighted_signal_of signals weights <= 1.
Proof.
  intros Hg.
  destruct (gather_signals_weight_sum _ _ _ _ Hg) as [Hpos Hlen].
  pose proof (gather_signals_range _ _ _ _ Hg) as Hrange.
  pose proof (gather_signals_weights _ _ _ _ Hg) as Hw.
  assert (Hnn : Forall (fun w => 0 <= w) (normalize weights)).
  { apply normalize_nonneg; [exact Hpos |]. rewrite Hw. apply present_weights_nonneg. }
  assert (Hone : Qsum (normalize weights) == 1)
    by (apply normalize_sums_to_one; lra).
  destruct (Qsum_zip_bounds (-1) 1 signals (normalize weights)) as [Hlo Hhi];
    [unfold normalize; rewrite length_fmap; exact Hlen | exact Hrange | exact Hnn |].
  unfold weighted_signal_of, np_average. rewrite Hone in *.
  split.
  - apply Qle_shift_div_l; [reflexivity | lra].
  - apply Qle_shift_div_r; [reflexivity | lra].
Qed.

Lemma pow10_pos (n : nat) : 0 < inject_Z (10 ^ Z.of_nat n).
Proof.
  change 0 with (inject_Z 0). rewrite <- Zlt_Qlt.
  apply Z.pow_pos_nonneg; lia.
Qed.

(** Rounding to [n] decimals keeps a number between two multiples of
    [10^-n]. *)
Lemma py_round_bounds (n : nat) (a b : Z) (x : Q) :
  inject_Z a <= x * inject_Z (10 ^ Z.of_nat n) <= inject_Z b ->
  inject_Z a <= py_round x n * inject_Z (10 ^ Z.of_nat n) <= inject_Z b.
Proof.
  intros Hx. unfold py_round.
  pose proof (pow10_pos n) as Hp.
  destruct (rint_bounds a b _ Hx) as [Hlo Hhi].
  rewrite Zle_Qle in Hlo, Hhi.
  set (z := inject_Z (rint (x * inject_Z (10 ^ Z.of_nat n)))) in *.
  assert (Heq : z / inject_Z (10 ^ Z.of_nat n) * inject_Z (10 ^ Z.of_nat n) == z)
    by (field; lra).
  rewrite Heq. split; assumption.
Qed.

Lemma py_round_1_between (a b : Z) (x : Q) :
  inject_Z a <= x * 10 <= inject_Z b ->
  inject_Z a <= py_round x 1 * 10 <= inject_Z b.
Proof. apply (py_round_bounds 1). Qed.

Lemma py_round_3_between (a b : Z) (x : Q) :
  inject_Z a <= x * 1000 <= inject_Z b ->
  inject_Z a <= py_round x 3 * 1000 <= inject_Z b.
Proof. apply (py_round_bounds 3). Qed.

(** Whatever the function returns was built from gathered signals. *)
Lemma calculate_trading_signal_inv
      (format_float : nat -> Q -> string) (analysis : Analysis)
      (price_series returns : Series) (r : TradingSignal) :
  calculate_trading_signal format_float analysis price_series returns = Ok r ->
  exists signals weights,
    gather_signals analysis price_series = Ok (signals, weights)
    /\ r = {| recommendation := (decide_recommendation
                                   (weighted_signal_of signals weights)).1;
              confidence := py_round (decide_recommendation
                                        (weighted_signal_of signals weights)).2 1;
              signal_strength := py_round (weighted_signal_of signals weights) 3;
              reasoning := build_reasoning format_float analysis |}.
Proof.
  intros Hr.
  destruct (gather_signals analysis price_series) as [[signals weights]|e] eqn:Hg.
  - exists signals, weights. split; [reflexivity |].
    destruct (gather_signals_nonempty _ _ _ _ Hg) as [Hne _].
    rewrite (calculate_trading_signal_gathered format_float _ _ _ _ _ Hg Hne) in Hr.
    congruence.
  - unfold calculate_trading_signal in Hr. rewrite Hg in Hr. discriminate.
Qed.

End FusionRanges.

(** X2.  Every result of [calculate_trading_signal] has a signal
    strength in [-1, 1] and a confidence in [30, 100]; in particular the
    confidence-0 answer of the insufficient-data branch is never
    produced. *)
Theorem trading_signal_ranges
        (format_float : nat -> Q -> string) (analysis : Analysis)
        (price_series returns : Series) (r : TradingSignal) :
  calculate_trading_signal format_float analysis price_series returns = Ok r ->
  -1 <= signal_strength r <= 1 /\ 30 <= confidence r <= 100.
Proof.
  intros Hr.
  destruct (calculate_trading_signal_inv _ _ _ _ _ Hr) as (signals & weights & Hg & ->).
  pose proof (weighted_signal_range _ _ _ _ Hg) as HS.
  cbn [signal_strength confidence]. clear Hr.
  generalize dependent (weighted_signal_of signals weights). intros S HS.
  assert (Habs : Qabs S <= 1) by (apply Qabs_Qle_condition; exact HS).
  pose proof (Qabs_nonneg S) as Hnn.
  split.
  - destruct (py_round_3_between (-1000) 1000 S) as [Hlo Hhi].
    { change (inject_Z (-1000)) with (-1000). change (inject_Z 1000) with 1000. lra. }
    change (inject_Z (-1000)) with (-1000) in Hlo.
    change (inject_Z 1000) with 1000 in Hhi.
    split; lra.
  - assert (Hconf : 30 <= (decide_recommendation S).2 <= 100).
    { unfold decide_recommendation.
      destruct (Qgtb S (3 # 10)) eqn:Hb; [| destruct (Qltb S (- (3 # 10))) eqn:Hs];
        cbn [snd].
      - apply Qgtb_true in Hb.
        assert (Qabs S == S) by (apply Qabs_pos; lra).
        split; [apply Q.min_glb; lra | apply Q.le_min_r].
      - apply Qltb_true in Hs.
        assert (Qabs S == - S) by (apply Qabs_neg; lra).
        split; [apply Q.min_glb; lra | apply Q.le_min_r].
      - apply Qgtb_false in Hb. apply Qltb_false in Hs.
        assert (Qabs S <= 3 # 10) by (apply Qabs_Qle_condition; split; assumption).
        split; lra. }
    destruct (py_round_1_between 300 1000 (decide_recommendation S).2) as [Hlo Hhi].
    { change (inject_Z 300) with 300. change (inject_Z 1000) with 1000. lra. }
    change (inject_Z 300) with 300 in Hlo.
    change (inject_Z 1000) with 1000 in Hhi.
    split; lra.
Qed.

Lemma trading_signal_ranges_witness :
  -1 <= signal_strength
          {| recommendation := SELL; confidence := 800 # 10;
             signal_strength := -800 # 1000;
             reasoning := "Mean reverting (H=#) | Weak Sharpe (#)" |} <= 1
  /\ 30 <= confidence
             {| recommendation := SELL; confidence := 800 # 10;
                signal_strength := -800 # 1000;
                reasoning := "Mean reverting (H=#) | Weak Sharpe (#)" |} <= 100.
Proof.
  apply (trading_signal_ranges plain_format hurst_only rally_prices []).
  reflexivity.
Defined.

(** X3.  The category agrees with the reported signal strength: BUY
    comes with a strength of at least 0.3, SELL with at most -0.3, HOLD
    with a strength between -0.3 and 0.3. *)
Theorem recommendation_matches_strength
        (format_float : nat -> Q -> string) (analysis : Analysis)
        (price_series returns : Series) (r : TradingSignal) :
  calculate_trading_signal format_float analysis price_series returns = Ok r ->
  match recommendation r with
  | BUY => 3 # 10 <= signal_strength r
  | SELL => signal_strength r <= - (3 # 10)
  | HOLD => - (3 # 10) <= signal_strength r <= 3 # 10
  end.
Proof.
  intros Hr.
  destruct (calculate_trading_signal_inv _ _ _ _ _ Hr) as (signals & weights & Hg & ->).
  pose proof (weighted_signal_range _ _ _ _ Hg) as HS.
  cbn [signal_strength recommendation]. clear Hr.
  generalize dependent (weighted_signal_of signals weights). intros S HS.
  unfold decide_recommendation.
  destruct (Qgtb S (3 # 10)) eqn:Hb; [| destruct (Qltb S (- (3 # 10))) eqn:Hs];
    cbn [fst].
  - apply Qgtb_true in Hb.
    destruct (py_round_3_between 300 1000 S) as [Hlo _].
    { change (inject_Z 300) with 300. change (inject_Z 1000) with 1000. lra. }
    change (inject_Z 300) with 300 in Hlo. lra.
  - apply Qltb_true in Hs.
    destruct (py_round_3_between (-1000) (-300) S) as [_ Hhi].
    { change (inject_Z (-1000)) with (-1000). change (inject_Z (-300)) with (-300). lra. }
    change (inject_Z (-300)) with (-300) in Hhi. lra.
  - apply Qgtb_false in Hb. apply Qltb_false in Hs.
    destruct (py_round_3_between (-300) 300 S) as [Hlo Hhi].
    { change (inject_Z (-300)) with (-300). change (inject_Z 300) with 300. lra. }
    change (inject_Z (-300)) with (-300) in Hlo.
    change (inject_Z 300) with 300 in Hhi.
    split; lra.
Qed.

Lemma recommendation_matches_strength_witness :
  match recommendation
          {| recommendation := SELL; confidence := 800 # 10;
             signal_strength := -800 # 1000;
             reasoning := "Mean reverting (H=#) | Weak Sharpe (#)" |} with
  | BUY => 3 # 10 <= -800 # 1000
  | SELL => -800 # 1000 <= - (3 # 10)
  | HOLD => - (3 # 10) <= -800 # 1000 <= 3 # 10
  end.
Proof.
  apply (recommendation_matches_strength plain_format hurst_only rally_prices []).
  reflexivity.
Defined.

(** ** The fusion engine: when it raises *)

Section FusionErrors.

Lemma py_index_from_end_Some {A : Type} (l : list A) (k : Z) (x : A) :
  (0 < k)%Z -> py_index l (- k) = Some x -> (k <= Z.of_nat (length l))%Z.
Proof.
  intros Hk. unfold py_index.
  destruct (Z.leb_spec 0 (- k)); [lia |].
  destruct (Z.leb_spec (- Z.of_nat (length l)) (- k)); [lia | discriminate].
Qed.

Lemma return_20_ok_iff (price_series : Series) :
  (exists x, return_20 price_series = Ok x) <-> (20 <= length price_series)%nat.
Proof.
  split.
  - intros [x Hx]. unfold return_20, rbind, or_raise in Hx.
    destruct (py_index price_series (-1)) as [a|]; [| discriminate].
    destruct (py_index price_series (-20)) as [b|] eqn:Hb; [| discriminate].
    change (-20)%Z with (- (20))%Z in Hb.
    apply py_index_from_end_Some in Hb; lia.
  - intros Hlen.
    destruct (py_index_last_20 price_series Hlen) as [[a Ha] [b Hb]].
    unfold return_20, rbind, or_raise. rewrite Ha, Hb. eauto.
Qed.

Lemma return_20_raises (price_series : Series) (e : exn) :
  return_20 price_series = Raise e -> e = IndexError.
Proof.
  unfold return_20, rbind, or_raise.
  repeat case_match; intros; simplify_eq; reflexivity.
Qed.

End FusionErrors.

(** ** When the function raises, over dictionaries with Python values *)

Section RawErrors.

Import RawInput.

Lemma returns_bind {A B : Type} (m : outcome A) (k : A -> outcome B) :
  returns (obind m k) <-> exists a, m = Returns a /\ returns (k a).
Proof.
  destruct m as [a | e]; cbn.
  - split; [intros H; exists a; split; [reflexivity | exact H] |].
    intros (a' & [= <-] & H). exact H.
  - split; [intros [? H]; discriminate | intros (a' & H & _); discriminate].
Qed.

Lemma returns_Returns {A : Type} (a : A) : returns (Returns a).
Proof. exists a. reflexivity. Qed.

Lemma returns_Fails {A : Type} (e : raised) : ~ returns (@Fails A e).
Proof. intros [a H]. discriminate. Qed.

Lemma returns_if {A : Type} (b : bool) (x y : A) :
  returns (if b then Returns x else Returns y).
Proof. destruct b; apply returns_Returns. Qed.

Lemma returns_return_20 (price_series : Series) :
  returns (of_result (return_20 price_series)) <-> (20 <= length price_series)%nat.
Proof.
  rewrite <- return_20_ok_iff. unfold returns.
  destruct (return_20 price_series) as [x | e]; cbn.
  - split; intros _; eauto.
  - split; intros [? H]; discriminate.
Qed.

Lemma raw_hurst_signal_returns (hurst : pyfloat) (price_series : Series) :
  returns (raw_hurst_signal hurst price_series)
  <-> (fltb hurst (45 # 100) = true \/ fgtb hurst (55 # 100) = true ->
       (20 <= length price_series)%nat).
Proof.
  unfold raw_hurst_signal.
  destruct (fltb hurst (45 # 100)) eqn:Hlow.
  - rewrite returns_bind. split.
    + intros (x & Hx & _) _. apply returns_return_20. rewrite Hx. apply returns_Returns.
    + intros H. destruct (proj2 (returns_return_20 price_series)) as [x Hx];
        [apply H; left; reflexivity |].
      exists x. split; [exact Hx |].
      destruct (fgtb x (5 # 100)); [apply returns_Returns |]. apply returns_if.
  - destruct (fgtb hurst (55 # 100)) eqn:Hhigh.
    + rewrite returns_bind. split.
      * intros (x & Hx & _) _. apply returns_return_20. rewrite Hx.
        apply returns_Returns.
      * intros H. destruct (proj2 (returns_return_20 price_series)) as [x Hx];
          [apply H; right; reflexivity |].
        exists x. split; [exact Hx | apply returns_if].
    + split; [intros _ [H | H]; discriminate | intros _; apply returns_Returns].
Qed.

Lemma raw_regime_signal_returns (r : RawRegime) :
  returns (raw_regime_signal r)
  <-> raw_regime_descriptions r <> PyNone
      /\ exists c probabilities,
           raw_current_regime r = Present c
           /\ match raw_regime_probabilities r with
              | Absent => Some [Finite 0; Finite 0; Finite 0]
              | PyNone => None
              | Present l => Some l
              end = Some probabilities
           /\ is_Some (py_index probabilities c).
Proof.
  unfold raw_regime_signal, raw_current.
  destruct (raw_regime_descriptions r) as [| | m]; cbn [obind];
    try (split; [intros H; apply returns_Fails in H; contradiction
                | intros [H _]; congruence]).
  all: destruct (raw_regime_probabilities r) as [| | l]; cbn [obind];
    try (split; [intros H; apply returns_Fails in H; contradiction
                | intros (_ & c & p & _ & H & _); discriminate]).
  all: destruct (raw_current_regime r) as [| | c]; cbn [obind];
    try (split; [intros H; apply returns_Fails in H; contradiction
                | intros (_ & c' & p & H & _); discriminate]).
  all: match goal with
       | |- context [py_index ?l ?c0] => destruct (py_index l c0) as [p |] eqn:Hp
       end; cbn [obind].
  all: try (split; [intros H; apply returns_Fails in H; contradiction
                   | intros (_ & c' & p' & [= <-] & [= <-] & [x Hx]); congruence]).
  all: split; [intros _; split; [discriminate |];
               eexists _, _; split; [reflexivity |]; split; [reflexivity |];
               rewrite Hp; eauto
              | intros _;
                repeat match goal with
                       | |- returns (if ?b then _ else _) => destruct b
                       end; apply returns_Returns].
Qed.

Lemma returns_py_gt (x : option pyfloat) (c : Q) : returns (py_gt x c) <-> is_Some x.
Proof.
  destruct x as [f |]; cbn.
  - split; [intros _; eauto | intros _; apply returns_Returns].
  - split; [intros H; apply returns_Fails in H; contradiction
           | intros [? H]; discriminate].
Qed.

Lemma get_float_is_Some (d : pyfloat) (e : entry pyfloat) :
  is_Some (get_float d e) <-> e <> PyNone.
Proof.
  destruct e; cbn; split; intros H; try congruence; eauto.
  destruct H; discriminate.
Qed.

Lemma raw_volatility_signal_returns (v : RawVolatility) :
  returns (raw_volatility_signal v) <-> raw_annualized_volatility v <> PyNone.
Proof.
  rewrite <- (get_float_is_Some (Finite 0)). unfold raw_volatility_signal.
  destruct (get_float (Finite 0) (raw_annualized_volatility v)) as [f |]; cbn.
  - split; [intros _; eauto |]. intros _.
    destruct (fgtb f (40 # 100)); [apply returns_Returns | apply returns_if].
  - split; [intros H; apply returns_Fails in H; contradiction
           | intros [? H]; discriminate].
Qed.

Lemma raw_momentum_signal_returns (sharpe price_change : option pyfloat) :
  returns (raw_momentum_signal sharpe price_change)
  <-> exists s, sharpe = Some s
                /\ (fgtb s (15 # 10) = true \/ fltb s (5 # 10) = true ->
                    is_Some price_change).
Proof.
  unfold raw_momentum_signal.
  destruct sharpe as [s |]; cbn [py_gt py_lt obind].
  - destruct (fgtb s (15 # 10)) eqn:Hs.
    + destruct price_change as [p |]; cbn [py_gt obind].
      * split; [intros _; exists s; split; [reflexivity | intros _; eauto]
               | intros _; apply returns_Returns].
      * split; [intros H; apply returns_Fails in H; contradiction |].
        intros (s' & [= <-] & H).
        destruct H as [? H]; [left; exact Hs | discriminate].
    + destruct (fltb s (5 # 10)) eqn:Hw.
      * destruct price_change as [p |]; cbn [py_lt obind].
        -- split; [intros _; exists s; split; [reflexivity | intros _; eauto]
                  | intros _; apply returns_Returns].
        -- split; [intros H; apply returns_Fails in H; contradiction |].
           intros (s' & [= <-] & H).
           destruct H as [? H]; [right; exact Hw | discriminate].
      * split; [| intros _; apply returns_Returns].
        intros _. exists s. split; [reflexivity |]. intros [H | H]; congruence.
  - split; [intros H; apply returns_Fails in H; contradiction |].
    intros (s & H & _). discriminate.
Qed.

Lemma raw_statistical_signal_returns (c : RawCointegration)
      (price_change : option pyfloat) :
  returns (raw_statistical_signal c price_change) <-> is_Some price_change.
Proof.
  unfold raw_statistical_signal.
  destruct price_change as [p |]; cbn [py_gt py_lt obind].
  - split; [intros _; eauto |]. intros _.
    repeat match goal with
           | |- returns (if ?b then _ else _) => destruct b
           end; apply returns_Returns.
  - split; [| intros [? H]; discriminate].
    destruct (negb _); intros H; apply returns_Fails in H; contradiction.
Qed.

(** The gathering returns exactly when each of the five blocks does. *)
Lemma raw_gather_signals_returns (analysis : RawAnalysis) (price_series : Series) :
  returns (raw_gather_signals analysis price_series)
  <-> hurst_block_returns analysis price_series
      /\ regime_block_returns analysis
      /\ volatility_block_returns analysis
      /\ momentum_block_returns analysis
      /\ statistical_block_returns analysis.
Proof.
  unfold raw_gather_signals, hurst_block_returns, regime_block_returns,
    volatility_block_returns, momentum_block_returns, statistical_block_returns,
    raw_hurst, raw_price_change.
  assert (Hblock1 :
    forall (h : pyfloat) (k : list Q * list Q -> outcome (list Q * list Q)) (P : Prop),
      (forall sw, returns (k sw) <-> P) ->
      (returns (sw1 <-o (s <-o raw_hurst_signal h price_series ;;
                         Returns ([s], [30 # 100])) ;; k sw1)
       <-> (fltb h (45 # 100) = true \/ fgtb h (55 # 100) = true ->
            (20 <= length price_series)%nat) /\ P)).
  { intros h k P Hk. rewrite <- raw_hurst_signal_returns.
    destruct (raw_hurst_signal h price_series) as [s | e]; cbn [obind].
    - rewrite Hk. split; [intros H; split; [apply returns_Returns | exact H] | tauto].
    - split; [intros H; apply returns_Fails in H; contradiction |].
      intros [H _]. apply returns_Fails in H. contradiction. }
  assert (Hrest : forall sw1,
    returns
      (sw2 <-o match raw_regime analysis with
               | Dict r => s <-o raw_regime_signal r ;;
                           Returns (sw1.1 ++ [s], sw1.2 ++ [25 # 100])
               | _ => Returns sw1
               end ;;
       sw3 <-o match raw_volatility analysis with
               | Dict v => s <-o raw_volatility_signal v ;;
                           Returns (sw2.1 ++ [s], sw2.2 ++ [15 # 100])
               | _ => Returns sw2
               end ;;
       sharpe <-o raw_sharpe analysis ;;
       s4 <-o raw_momentum_signal sharpe
                (get_float (Finite 0) (raw_price_change_pct analysis)) ;;
       match raw_cointegration analysis with
       | Dict c =>
           s <-o raw_statistical_signal c
                   (get_float (Finite 0) (raw_price_change_pct analysis)) ;;
           Returns ((sw3.1 ++ [s4], sw3.2 ++ [20 # 100]).1 ++ [s],
                    (sw3.1 ++ [s4], sw3.2 ++ [20 # 100]).2 ++ [10 # 100])
       | _ => Returns (sw3.1 ++ [s4], sw3.2 ++ [20 # 100])
       end)
    <-> match raw_regime analysis with
        | Dict r =>
            raw_regime_descriptions r <> PyNone
            /\ exists c probabilities,
                 raw_current_regime r = Present c
                 /\ match raw_regime_probabilities r with
                    | Absent => Some [Finite 0; Finite 0; Finite 0]
                    | PyNone => None
                    | Present l => Some l
                    end = Some probabilities
                 /\ is_Some (py_index probabilities c)
        | _ => True
        end
        /\ match raw_volatility analysis with
           | Dict v => raw_annualized_volatility v <> PyNone
           | _ => True
           end
        /\ (exists sharpe,
              raw_sharpe analysis = Returns (Some sharpe)
              /\ (fgtb sharpe (15 # 10) = true \/ fltb sharpe (5 # 10) = true ->
                  raw_price_change_pct analysis <> PyNone))
        /\ match raw_cointegration analysis with
           | Dict _ => raw_price_change_pct analysis <> PyNone
           | _ => True
           end).
  { intros sw1.
    assert (Htail : forall sw3,
      returns
        (sharpe <-o raw_sharpe analysis ;;
         s4 <-o raw_momentum_signal sharpe
                  (get_float (Finite 0) (raw_price_change_pct analysis)) ;;
         match raw_cointegration analysis with
         | Dict c =>
             s <-o raw_statistical_signal c
                     (get_float (Finite 0) (raw_price_change_pct analysis)) ;;
             Returns ((sw3.1 ++ [s4], sw3.2 ++ [20 # 100]).1 ++ [s],
                      (sw3.1 ++ [s4], sw3.2 ++ [20 # 100]).2 ++ [10 # 100])
         | _ => Returns (sw3.1 ++ [s4], sw3.2 ++ [20 # 100])
         end)
      <-> (exists sharpe,
             raw_sharpe analysis = Returns (Some sharpe)
             /\ (fgtb sharpe (15 # 10) = true \/ fltb sharpe (5 # 10) = true ->
                 raw_price_change_pct analysis <> PyNone))
          /\ match raw_cointegration analysis with
             | Dict _ => raw_price_change_pct analysis <> PyNone
             | _ => True
             end).
    { intros sw3.
      destruct (raw_sharpe analysis) as [sharpe | e]; cbn [obind];
        [| split; [intros H; apply returns_Fails in H; contradiction
                  | intros [(s & H & _) _]; discriminate]].
      pose proof (raw_momentum_signal_returns sharpe
                    (get_float (Finite 0) (raw_price_change_pct analysis))) as Hm.
      setoid_rewrite get_float_is_Some in Hm.
      destruct (raw_momentum_signal sharpe _) as [s4 | e]; cbn [obind].
      - destruct (proj1 Hm (returns_Returns _)) as (s & -> & Hs).
        assert (Hmom : exists sharpe0,
                  Returns (Some s) = @Returns (option pyfloat) (Some sharpe0)
                  /\ (fgtb sharpe0 (15 # 10) = true \/ fltb sharpe0 (5 # 10) = true ->
                      raw_price_change_pct analysis <> PyNone))
          by (exists s; split; [reflexivity | exact Hs]).
        destruct (raw_cointegration analysis) as [| | | c].
        1-3: split; [intros _; split; [exact Hmom | exact I]
                    | intros _; apply returns_Returns].
        rewrite returns_bind.
        pose proof (raw_statistical_signal_returns c
                      (get_float (Finite 0) (raw_price_change_pct analysis))) as Hst.
        rewrite get_float_is_Some in Hst.
        split.
        + intros (x & Hx & _). split; [exact Hmom |].
          apply Hst. rewrite Hx. apply returns_Returns.
        + intros [_ Hpc]. apply Hst in Hpc. destruct Hpc as [x Hx].
          exists x. split; [exact Hx | apply returns_Returns].
      - split; [intros H; apply returns_Fails in H; contradiction |].
        intros [(s & [= ->] & Hs) _].
        exfalso. apply (@returns_Fails Q e). apply (proj2 Hm).
        exists s. split; [reflexivity | exact Hs]. }
    assert (Hvol : forall sw2,
      returns
        (sw3 <-o match raw_volatility analysis with
                 | Dict v => s <-o raw_volatility_signal v ;;
                             Returns (sw2.1 ++ [s], sw2.2 ++ [15 # 100])
                 | _ => Returns sw2
                 end ;;
         sharpe <-o raw_sharpe analysis ;;
         s4 <-o raw_momentum_signal sharpe
                  (get_float (Finite 0) (raw_price_change_pct analysis)) ;;
         match raw_cointegration analysis with
         | Dict c =>
             s <-o raw_statistical_signal c
                     (get_float (Finite 0) (raw_price_change_pct analysis)) ;;
             Returns ((sw3.1 ++ [s4], sw3.2 ++ [20 # 100]).1 ++ [s],
                      (sw3.1 ++ [s4], sw3.2 ++ [20 # 100]).2 ++ [10 # 100])
         | _ => Returns (sw3.1 ++ [s4], sw3.2 ++ [20 # 100])
         end)
      <-> match raw_volatility analysis with
          | Dict v => raw_annualized_volatility v <> PyNone
          | _ => True
          end
          /\ (exists sharpe,
                raw_sharpe analysis = Returns (Some sharpe)
                /\ (fgtb sharpe (15 # 10) = true \/ fltb sharpe (5 # 10) = true ->
                    raw_price_change_pct analysis <> PyNone))
          /\ match raw_cointegration analysis with
             | Dict _ => raw_price_change_pct analysis <> PyNone
             | _ => True
             end).
    { intros sw2. destruct (raw_volatility analysis) as [| | | v]; cbn [obind].
      1-3: rewrite Htail; tauto.
      pose proof (raw_volatility_signal_returns v) as Hv.
      destruct (raw_volatility_signal v) as [s | e]; cbn [obind].
      - rewrite Htail. split; [intros H; split; [apply Hv, returns_Returns | exact H]
                              | tauto].
      - split; [intros H; apply returns_Fails in H; contradiction |].
        intros [H _]. apply Hv in H. apply returns_Fails in H. contradiction. }
    destruct (raw_regime analysis) as [| | | r]; cbn [obind].
    1-3: rewrite Hvol; tauto.
    pose proof (raw_regime_signal_returns r) as Hr.
    destruct (raw_regime_signal r) as [s | e]; cbn [obind].
    - rewrite Hvol. split; [intros H; split; [apply Hr, returns_Returns | exact H]
                           | tauto].
    - split; [intros H; apply returns_Fails in H; contradiction |].
      intros [H _]. apply Hr in H. apply returns_Fails in H. contradiction. }
  destruct (raw_signal_processing analysis) as [| | | sp]; cbn [obind].
  - rewrite Hrest. tauto.
  - split; [intros H; apply returns_Fails in H; contradiction | tauto].
  - rewrite Hrest. tauto.
  - destruct (raw_hurst_exponent sp) as [| | h]; cbn [obind].
    + rewrite Hrest. tauto.
    + rewrite Hrest. tauto.
    + apply Hblock1. intros sw. apply Hrest.
Qed.

End RawErrors.

Section RawFunction.

Import RawInput.

Variable format_pyfloat : nat -> pyfloat -> string.

Lemma fails_only_bind {A B : Type} (P : raised -> Prop)
      (m : outcome A) (k : A -> outcome B) :
  fails_only P m -> (forall a, m = Returns a -> fails_only P (k a)) ->
  fails_only P (obind m k).
Proof.
  intros Hm Hk e. destruct m as [a | e']; cbn.
  - apply Hk. reflexivity.
  - intros [= <-]. apply Hm. reflexivity.
Qed.

Lemma fails_only_Returns {A : Type} (P : raised -> Prop) (a : A) :
  fails_only P (Returns a).
Proof. intros e H. discriminate. Qed.

Lemma fails_only_if {A : Type} (P : raised -> Prop) (b : bool) (x y : outcome A) :
  fails_only P x -> fails_only P y -> fails_only P (if b then x else y).
Proof. destruct b; auto. Qed.

Lemma fails_only_py_gt (analysis : RawAnalysis) (x : option pyfloat) (c : Q) :
  fails_only (expected_failure analysis) (py_gt x c).
Proof.
  destruct x; intros e H; [discriminate |].
  injection H as <-. right. left. reflexivity.
Qed.

Lemma fails_only_py_lt (analysis : RawAnalysis) (x : option pyfloat) (c : Q) :
  fails_only (expected_failure analysis) (py_lt x c).
Proof.
  destruct x; intros e H; [discriminate |].
  injection H as <-. right. left. reflexivity.
Qed.

Lemma fails_only_return_20 (analysis : RawAnalysis) (price_series : Series) :
  fails_only (expected_failure analysis) (of_result (return_20 price_series)).
Proof.
  intros e H. destruct (return_20 price_series) as [x | e'] eqn:Hr; [discriminate |].
  injection H as <-. left. rewrite (return_20_raises _ _ Hr). reflexivity.
Qed.

Ltac fails_step analysis :=
  first
    [ apply fails_only_Returns
    | apply (fails_only_py_gt analysis)
    | apply (fails_only_py_lt analysis)
    | apply (fails_only_return_20 analysis)
    | apply fails_only_bind; [| intros ? _]
    | apply fails_only_if ].

Lemma fails_only_hurst_signal (analysis : RawAnalysis) (h : pyfloat)
      (price_series : Series) :
  fails_only (expected_failure analysis) (raw_hurst_signal h price_series).
Proof. unfold raw_hurst_signal. repeat fails_step analysis. Qed.

Lemma fails_only_regime_signal (analysis : RawAnalysis) (r : RawRegime) :
  raw_regime analysis = Dict r ->
  fails_only (expected_failure analysis) (raw_regime_signal r).
Proof.
  intros Hr. unfold raw_regime_signal.
  apply fails_only_bind.
  { destruct (raw_regime_descriptions r) eqn:Hd; intros e H; try discriminate.
    injection H as <-. right. right. split; [reflexivity |].
    right. right. eauto. }
  intros descriptions _. apply fails_only_bind.
  { destruct (raw_regime_probabilities r); intros e H; try discriminate.
    injection H as <-. right. left. reflexivity. }
  intros probabilities _. apply fails_only_bind.
  { destruct (raw_current r) as [c |]; [destruct (py_index probabilities c) |];
      intros e H; try discriminate; injection H as <-;
      [left | right; left]; reflexivity. }
  intros p _. repeat fails_step analysis.
Qed.

Lemma fails_only_volatility_signal (analysis : RawAnalysis) (v : RawVolatility) :
  fails_only (expected_failure analysis) (raw_volatility_signal v).
Proof. unfold raw_volatility_signal. repeat fails_step analysis. Qed.

Lemma fails_only_momentum_signal (analysis : RawAnalysis)
      (sharpe price_change : option pyfloat) :
  fails_only (expected_failure analysis) (raw_momentum_signal sharpe price_change).
Proof. unfold raw_momentum_signal. repeat fails_step analysis. Qed.

Lemma fails_only_statistical_signal (analysis : RawAnalysis)
      (c : RawCointegration) (price_change : option pyfloat) :
  fails_only (expected_failure analysis) (raw_statistical_signal c price_change).
Proof. unfold raw_statistical_signal. repeat fails_step analysis. Qed.

Lemma fails_only_raw_hurst (analysis : RawAnalysis) :
  fails_only (expected_failure analysis) (raw_hurst analysis).
Proof.
  unfold raw_hurst. destruct (raw_signal_processing analysis) as [| | | sp] eqn:Hsp;
    try (intros e H; discriminate).
  - intros e [= <-]. right. right. split; [reflexivity | left; exact Hsp].
  - destruct (raw_hurst_exponent sp); intros e H; discriminate.
Qed.

Lemma fails_only_raw_sharpe (analysis : RawAnalysis) :
  fails_only (expected_failure analysis) (raw_sharpe analysis).
Proof.
  unfold raw_sharpe. destruct (raw_metrics analysis) as [| | | m] eqn:Hm;
    try (intros e H; discriminate).
  intros e [= <-]. right. right. split; [reflexivity | right; left; exact Hm].
Qed.

Lemma fails_only_gather (analysis : RawAnalysis) (price_series : Series) :
  fails_only (expected_failure analysis) (raw_gather_signals analysis price_series).
Proof.
  unfold raw_gather_signals.
  apply fails_only_bind; [apply fails_only_raw_hurst |]. intros hurst _.
  apply fails_only_bind.
  { destruct hurst as [h |]; [| apply fails_only_Returns].
    apply fails_only_bind; [apply fails_only_hurst_signal |].
    intros s _. apply fails_only_Returns. }
  intros sw1 _. apply fails_only_bind.
  { destruct (raw_regime analysis) as [| | | r] eqn:Hr; try apply fails_only_Returns.
    apply fails_only_bind; [apply (fails_only_regime_signal analysis r Hr) |].
    intros s _. apply fails_only_Returns. }
  intros sw2 _. apply fails_only_bind.
  { destruct (raw_volatility analysis) as [| | | v]; try apply fails_only_Returns.
    apply fails_only_bind; [apply fails_only_volatility_signal |].
    intros s _. apply fails_only_Returns. }
  intros sw3 _. apply fails_only_bind; [apply fails_only_raw_sharpe |].
  intros sharpe _. apply fails_only_bind; [apply fails_only_momentum_signal |].
  intros s4 _.
  destruct (raw_cointegration analysis) as [| | | c]; try apply fails_only_Returns.
  apply fails_only_bind; [apply fails_only_statistical_signal |].
  intros s _. apply fails_only_Returns.
Qed.

Lemma fails_only_reasoning (analysis : RawAnalysis) (hurst sharpe : option pyfloat) :
  fails_only (expected_failure analysis)
             (raw_reasoning_parts format_pyfloat analysis hurst sharpe).
Proof.
  unfold raw_reasoning_parts.
  apply fails_only_bind.
  { destruct (raw_regime analysis) as [| | | r] eqn:Hr; try apply fails_only_Returns.
    apply fails_only_bind; [| intros d _; apply fails_only_Returns].
    destruct (raw_regime_descriptions r) eqn:Hd; intros e H; try discriminate.
    injection H as <-. right. right. split; [reflexivity |].
    right. right. eauto. }
  intros regime_part _. apply fails_only_bind.
  { destruct (raw_volatility analysis) as [| | | v]; try apply fails_only_Returns.
    destruct (get_float (Finite 0) (raw_annualized_volatility v)) as [vol |].
    - repeat fails_step analysis.
    - intros e [= <-]. right. left. reflexivity. }
  intros volatility_part _. repeat fails_step analysis.
Qed.

(** Once the five blocks have returned, so does the rest of the
    function. *)
Lemma raw_reasoning_returns (analysis : RawAnalysis) (price_series : Series)
      (hurst : option pyfloat) :
  regime_block_returns analysis ->
  volatility_block_returns analysis ->
  forall sharpe,
    returns (raw_reasoning_parts format_pyfloat analysis hurst (Some sharpe)).
Proof.
  intros Hreg Hvol sharpe. unfold raw_reasoning_parts.
  unfold regime_block_returns in Hreg. unfold volatility_block_returns in Hvol.
  apply returns_bind.
  assert (Hpart1 : returns
            match raw_regime analysis with
            | Dict r =>
                descriptions <-o match raw_regime_descriptions r with
                                 | Absent => Returns ∅
                                 | PyNone => Fails AttributeError
                                 | Present m => Returns m
                                 end ;;
                Returns [match raw_current_regime r with
                         | Absent => default ""%string (descriptions !! 0%Z)
                         | PyNone => ""%string
                         | Present c => default ""%string (descriptions !! c)
                         end]
            | _ => Returns []
            end).
  { destruct (raw_regime analysis) as [| | | r]; try apply returns_Returns.
    destruct Hreg as [Hd _].
    destruct (raw_regime_descriptions r); [| congruence |]; apply returns_Returns. }
  destruct Hpart1 as [part1 Hp1]. exists part1. split; [exact Hp1 |].
  apply returns_bind.
  assert (Hpart2 : returns
            match raw_volatility analysis with
            | Dict v =>
                match get_float (Finite 0) (raw_annualized_volatility v) with
                | None => Fails (Builtin TypeError)
                | Some vol =>
                    if fgtb (fmul100 vol) 40
                    then Returns ["High volatility ("
                                  ++ format_pyfloat 1 (fmul100 vol) ++ "%)"]%string
                    else if fltb (fmul100 vol) 15
                         then Returns ["Low volatility ("
                                       ++ format_pyfloat 1 (fmul100 vol) ++ "%)"]%string
                         else Returns []
                end
            | _ => Returns []
            end).
  { destruct (raw_volatility analysis) as [| | | v]; try apply returns_Returns.
    apply (get_float_is_Some (Finite 0)) in Hvol. destruct Hvol as [vol ->].
    destruct (fgtb (fmul100 vol) 40); [apply returns_Returns |].
    destruct (fltb (fmul100 vol) 15); apply returns_Returns. }
  destruct Hpart2 as [part2 Hp2]. exists part2. split; [exact Hp2 |].
  cbn [py_gt py_lt obind].
  destruct (fgtb sharpe (15 # 10)); cbn [obind]; [apply returns_Returns |].
  apply returns_Returns.
Qed.

(** X4.  [calculate_trading_signal] over dictionaries whose keys may be
    missing or hold [None] and whose numbers may be NaN or infinite: it
    returns exactly when each of the five blocks does.  The Hurst block
    needs a [signal_processing] key that does not hold [None] and, for
    an exponent below 0.45 or above 0.55, at least 20 prices; a NaN
    exponent is neither and reads no price.  The regime block needs a
    [regime_descriptions] key that does not hold [None] and a
    [current_regime] that indexes the probabilities.  The volatility
    block needs a volatility that is not [None], the momentum block a
    [metrics] key and a Sharpe ratio that are not [None] and, when the
    ratio is above 1.5 or below 0.5, a price change that is not [None];
    the stationarity block needs a price change that is not [None].
    When the function raises, it raises [IndexError], [TypeError] or
    [AttributeError], the last only where a dictionary-valued key holds
    [None]. *)
Theorem trading_signal_raw_returns_iff
        (analysis : RawAnalysis) (price_series returns_ : Series) :
  (returns (calculate_trading_signal_raw format_pyfloat analysis
              price_series returns_)
   <-> hurst_block_returns analysis price_series
       /\ regime_block_returns analysis
       /\ volatility_block_returns analysis
       /\ momentum_block_returns analysis
       /\ statistical_block_returns analysis)
  /\ forall e,
       calculate_trading_signal_raw format_pyfloat analysis price_series returns_
       = Fails e ->
       e = Builtin IndexError
       \/ e = Builtin TypeError
       \/ (e = AttributeError /\ none_where_dict_expected analysis).
Proof.
  split.
  - rewrite <- raw_gather_signals_returns. unfold calculate_trading_signal_raw.
    split.
    + intros H. apply returns_bind in H. destruct H as (hurst & _ & H).
      apply returns_bind in H. destruct H as (sw & Hsw & _).
      rewrite Hsw. apply returns_Returns.
    + intros Hg.
      pose proof (proj1 (raw_gather_signals_returns analysis price_series) Hg)
        as (Hh & Hr & Hv & (sharpe & Hsharpe & _) & _).
      assert (Hhurst : returns (raw_hurst analysis)).
      { unfold hurst_block_returns in Hh. unfold raw_hurst.
        destruct (raw_signal_processing analysis) as [| | | sp];
          [apply returns_Returns | contradiction | apply returns_Returns |].
        destruct (raw_hurst_exponent sp); apply returns_Returns. }
      destruct Hhurst as [hurst Hhurst]. destruct Hg as [sw Hsw].
      rewrite Hhurst, Hsw, Hsharpe. cbn [obind].
      destruct (sw.1) as [| s signals]; [apply returns_Returns |].
      apply returns_bind.
      destruct (raw_reasoning_returns analysis price_series hurst Hr Hv sharpe)
        as [parts Hparts].
      exists parts. split; [exact Hparts | apply returns_Returns].
  - change (fails_only (expected_failure analysis)
              (calculate_trading_signal_raw format_pyfloat analysis
                 price_series returns_)).
    unfold calculate_trading_signal_raw.
    apply fails_only_bind; [apply fails_only_raw_hurst |]. intros hurst _.
    apply fails_only_bind; [apply fails_only_gather |]. intros sw _.
    apply fails_only_bind; [apply fails_only_raw_sharpe |]. intros sharpe _.
    destruct (sw.1); [apply fails_only_Returns |].
    apply fails_only_bind; [apply fails_only_reasoning |].
    intros parts _. apply fails_only_Returns.
Qed.

End RawFunction.

(** ** The typed dictionary as a special case *)

Section TypedIsRaw.

Import RawInput.

Lemma py_index_fmap {A B : Type} (f : A -> B) (l : list A) (i : Z) :
  py_index (map f l) i = f <$> py_index l i.
Proof.
  unfold py_index. rewrite length_map.
  destruct (0 <=? i)%Z; [apply list_lookup_fmap |].
  destruct (- Z.of_nat (length l) <=? i)%Z; [apply list_lookup_fmap | reflexivity].
Qed.

Lemma raw_hurst_typed (a : Analysis) :
  raw_hurst (of_analysis a) = Returns (Finite <$> get_hurst a).
Proof.
  unfold raw_hurst, get_hurst, of_analysis. cbn.
  destruct (signal_processing a) as [sp |]; [| reflexivity].
  cbn. destruct (hurst_exponent sp); reflexivity.
Qed.

Lemma raw_hurst_signal_typed (h : Q) (price_series : Series) :
  raw_hurst_signal (Finite h) price_series
  = of_result (hurst_signal h price_series).
Proof.
  unfold raw_hurst_signal, hurst_signal. cbn [fltb fgtb].
  destruct (Qltb h (45 # 100)).
  - destruct (return_20 price_series) as [x | e]; cbn; [| reflexivity].
    destruct (fgtb x (5 # 100)); [reflexivity |].
    destruct (fltb x (- (5 # 100))); reflexivity.
  - destruct (Qgtb h (55 # 100)); [| reflexivity].
    destruct (return_20 price_series) as [x | e]; cbn; [| reflexivity].
    destruct (fgtb x 0); reflexivity.
Qed.

(** The regime record of the typed dictionary. *)
Lemma raw_regime_signal_typed (r : RegimeDict) :
  raw_regime_signal
    {| raw_current_regime := of_option id (current_regime r);
       raw_regime_descriptions := of_option id (regime_descriptions r);
       raw_regime_probabilities := of_option (map Finite) (regime_probabilities r) |}
  = of_result (regime_signal r).
Proof.
  unfold raw_regime_signal, regime_signal, regime_probability, regime_description,
    raw_current. cbn [raw_current_regime raw_regime_descriptions
                      raw_regime_probabilities].
  destruct (regime_descriptions r) as [m |]; cbn [of_option obind default id];
    (destruct (regime_probabilities r) as [l |]; cbn [of_option obind default];
     (destruct (current_regime r) as [c |]; cbn [of_option obind id];
      [| reflexivity])).
  all: try rewrite py_index_fmap.
  all: try change [Finite 0; Finite 0; Finite 0] with (map Finite [0; 0; 0]);
       try rewrite py_index_fmap.
  all: match goal with
       | |- context [py_index ?l ?c0] => destruct (py_index l c0) as [p |]
       end; cbn; [| reflexivity].
  all: repeat match goal with
              | |- context [if ?b then _ else _] => destruct b
              end; reflexivity.
Qed.

Lemma raw_volatility_signal_typed (v : VolatilityDict) :
  raw_volatility_signal
    {| raw_annualized_volatility := of_option Finite (annualized_volatility v) |}
  = Returns (volatility_signal v).
Proof.
  unfold raw_volatility_signal, volatility_signal. cbn [raw_annualized_volatility].
  destruct (annualized_volatility v) as [x |]; cbn;
    repeat match goal with
           | |- context [if ?b then _ else _] => destruct b
           end; reflexivity.
Qed.

Lemma raw_sharpe_typed (a : Analysis) :
  raw_sharpe (of_analysis a) = Returns (Some (Finite (get_sharpe a))).
Proof.
  unfold raw_sharpe, get_sharpe, of_analysis. cbn.
  destruct (metrics a) as [m |]; [| reflexivity].
  cbn. destruct (sharpe_ratio m); reflexivity.
Qed.

Lemma raw_price_change_typed (a : Analysis) :
  raw_price_change (of_analysis a) = Some (Finite (get_price_change a)).
Proof.
  unfold raw_price_change, get_price_change, of_analysis. cbn.
  destruct (price_change_pct a); reflexivity.
Qed.

Lemma raw_momentum_signal_typed (sharpe price_change : Q) :
  raw_momentum_signal (Some (Finite sharpe)) (Some (Finite price_change))
  = Returns (momentum_signal sharpe price_change).
Proof.
  unfold raw_momentum_signal, momentum_signal. cbn.
  repeat match goal with
         | |- context [if ?b then _ else _] => destruct b; cbn
         end; reflexivity.
Qed.

Lemma raw_statistical_signal_typed (c : CointegrationDict) (price_change : Q) :
  raw_statistical_signal
    {| raw_is_stationary := of_option id (is_stationary c) |}
    (Some (Finite price_change))
  = Returns (statistical_signal c price_change).
Proof.
  unfold raw_statistical_signal, statistical_signal. cbn [raw_is_stationary].
  destruct (is_stationary c) as [[|] |]; cbn;
    repeat match goal with
           | |- context [if ?b then _ else _] => destruct b; cbn
           end; reflexivity.
Qed.

Lemma raw_gather_signals_typed (a : Analysis) (price_series : Series) :
  raw_gather_signals (of_analysis a) price_series
  = of_result (gather_signals a price_series).
Proof.
  unfold raw_gather_signals, gather_signals.
  rewrite raw_hurst_typed, raw_sharpe_typed, raw_price_change_typed.
  cbn [obind].
  assert (Hregime : raw_regime (of_analysis a)
                    = of_dict (fun r => {| raw_current_regime :=
                                             of_option id (current_regime r);
                                           raw_regime_descriptions :=
                                             of_option id (regime_descriptions r);
                                           raw_regime_probabilities :=
                                             of_option (map Finite)
                                                       (regime_probabilities r) |})
                              (regime a)) by reflexivity.
  assert (Hvol : raw_volatility (of_analysis a)
                 = of_dict (fun v => {| raw_annualized_volatility :=
                                          of_option Finite (annualized_volatility v) |})
                           (volatility a)) by reflexivity.
  assert (Hco : raw_cointegration (of_analysis a)
                = of_dict (fun c => {| raw_is_stationary :=
                                         of_option id (is_stationary c) |})
                          (cointegration a)) by reflexivity.
  rewrite Hregime, Hvol, Hco. clear Hregime Hvol Hco.
  destruct (get_hurst a) as [h |]; cbn [fmap option_fmap option_map obind rbind].
  - rewrite raw_hurst_signal_typed.
    destruct (hurst_signal h price_series) as [s1 | e]; cbn [of_result obind rbind];
      [| reflexivity].
    destruct (regime a) as [r |]; cbn [of_dict obind rbind].
    + rewrite raw_regime_signal_typed.
      destruct (regime_signal r) as [s2 | e]; cbn [of_result obind rbind];
        [| reflexivity].
      destruct (volatility a) as [v |]; cbn [of_dict obind];
        [rewrite raw_volatility_signal_typed; cbn [obind] |];
        rewrite raw_momentum_signal_typed; cbn [obind];
        (destruct (cointegration a) as [c |]; cbn [of_dict];
         [rewrite raw_statistical_signal_typed |]; reflexivity).
    + destruct (volatility a) as [v |]; cbn [of_dict obind];
        [rewrite raw_volatility_signal_typed; cbn [obind] |];
        rewrite raw_momentum_signal_typed; cbn [obind];
        (destruct (cointegration a) as [c |]; cbn [of_dict];
         [rewrite raw_statistical_signal_typed |]; reflexivity).
  - destruct (regime a) as [r |]; cbn [of_dict obind rbind].
    + rewrite raw_regime_signal_typed.
      destruct (regime_signal r) as [s2 | e]; cbn [of_result obind rbind];
        [| reflexivity].
      destruct (volatility a) as [v |]; cbn [of_dict obind];
        [rewrite raw_volatility_signal_typed; cbn [obind] |];
        rewrite raw_momentum_signal_typed; cbn [obind];
        (destruct (cointegration a) as [c |]; cbn [of_dict];
         [rewrite raw_statistical_signal_typed |]; reflexivity).
    + destruct (volatility a) as [v |]; cbn [of_dict obind];
        [rewrite raw_volatility_signal_typed; cbn [obind] |];
        rewrite raw_momentum_signal_typed; cbn [obind];
        (destruct (cointegration a) as [c |]; cbn [of_dict];
         [rewrite raw_statistical_signal_typed |]; reflexivity).
Qed.

Variable format_pyfloat : nat -> pyfloat -> string.

Lemma raw_reasoning_parts_typed (a : Analysis) :
  raw_reasoning_parts format_pyfloat (of_analysis a)
    (Finite <$> get_hurst a) (Some (Finite (get_sharpe a)))
  = Returns (hurst_reason (fun n q => format_pyfloat n (Finite q)) a
             ++ regime_reason a
             ++ volatility_reason (fun n q => format_pyfloat n (Finite q)) a
             ++ sharpe_reason (fun n q => format_pyfloat n (Finite q)) a).
Proof.
  unfold raw_reasoning_parts, hurst_reason, regime_reason, volatility_reason,
    sharpe_reason, regime_description, of_analysis.
  cbn [raw_regime raw_volatility].
  destruct (get_hurst a) as [h |];
    (destruct (regime a) as [r |]; cbn [of_dict];
     [cbn [raw_regime_descriptions raw_current_regime];
      destruct (regime_descriptions r) as [m |], (current_regime r) as [c |] |]);
    (destruct (volatility a) as [v |]; cbn [of_dict];
     [cbn [raw_annualized_volatility];
      destruct (annualized_volatility v) as [x |] |]);
    cbn -[Qmult Qgtb Qltb String.append]; unfold id;
    repeat match goal with
           | |- context [if ?b then _ else _] =>
               destruct b; cbn -[Qmult Qgtb Qltb String.append]
           end;
    reflexivity.
Qed.

(** On a typed dictionary the function over Python values does what
    [Recommendation.calculate_trading_signal] does. *)
Lemma calculate_trading_signal_raw_typed
      (a : Analysis) (price_series returns_ : Series) :
  calculate_trading_signal_raw format_pyfloat (of_analysis a) price_series returns_
  = of_result
      (calculate_trading_signal (fun n q => format_pyfloat n (Finite q))
         a price_series returns_).
Proof.
  unfold calculate_trading_signal_raw, calculate_trading_signal.
  rewrite raw_hurst_typed, raw_gather_signals_typed, raw_sharpe_typed.
  cbn [obind].
  destruct (gather_signals a price_series) as [[signals weights] | e];
    cbn [of_result obind rbind fst snd]; [| reflexivity].
  destruct signals as [| s signals]; [reflexivity |].
  rewrite raw_reasoning_parts_typed. cbn [obind of_result].
  reflexivity.
Qed.

End TypedIsRaw.

(** A NaN Hurst exponent (what the regression of the Hurst estimate
    yields on a constant series) passes both comparisons, so the block
    reads no price and the function returns on five prices; a
    [signal_processing] key that holds [None] raises [AttributeError]. *)
Example trading_signal_nan_hurst :
  RawInput.returns
    (RawInput.calculate_trading_signal_raw EdgeSamples.plain_format_pyfloat
       EdgeSamples.nan_hurst five_prices [])
  /\ RawInput.calculate_trading_signal_raw EdgeSamples.plain_format_pyfloat
       EdgeSamples.none_signal_processing rally_prices []
     = RawInput.Fails RawInput.AttributeError.
Proof. split; [eexists |]; vm_compute; reflexivity. Qed.

(** On a typed dictionary the function over Python values does what
    [calculate_trading_signal] does, here on the Hurst-only input with
    a short and with a sufficient price series. *)
Example trading_signal_raw_agrees_on_typed_input :
  RawInput.calculate_trading_signal_raw EdgeSamples.plain_format_pyfloat
    (RawInput.of_analysis hurst_only) five_prices []
  = RawInput.of_result
      (calculate_trading_signal plain_format hurst_only five_prices [])
  /\ RawInput.calculate_trading_signal_raw EdgeSamples.plain_format_pyfloat
       (RawInput.of_analysis hurst_only) rally_prices []
     = RawInput.of_result
         (calculate_trading_signal plain_format hurst_only rally_prices []).
Proof. split; vm_compute; reflexivity. Qed.

(** A mean-reverting exponent with five prices: the 20-period return
    cannot be read. *)
Example trading_signal_short_series :
  calculate_trading_signal plain_format hurst_only five_prices [] = Raise IndexError
  /\ calculate_trading_signal plain_format hurst_only [] [] = Raise IndexError.
Proof. split; reflexivity. Qed.

(** X5.  When all five factors are present the nominal weights already
    sum to 1, so the weighted signal is
    [0.30 h + 0.25 r + 0.15 v + 0.20 m + 0.10 s] for the five factor
    signals. *)
Theorem all_factors_nominal_weights
        (analysis : Analysis) (price_series : Series)
        (hurst : Q) (r : RegimeDict) (v : VolatilityDict) (c : CointegrationDict)
        (signals weights : list Q) :
  get_hurst analysis = Some hurst ->
  regime analysis = Some r ->
  volatility analysis = Some v ->
  cointegration analysis = Some c ->
  gather_signals analysis price_series = Ok (signals, weights) ->
  exists s_hurst s_regime,
    hurst_signal hurst price_series = Ok s_hurst
    /\ regime_signal r = Ok s_regime
    /\ weighted_signal_of signals weights
       == (30 # 100) * s_hurst
          + (25 # 100) * s_regime
          + (15 # 100) * volatility_signal v
          + (20 # 100) * momentum_signal (get_sharpe analysis)
                           (get_price_change analysis)
          + (10 # 100) * statistical_signal c (get_price_change analysis).
Proof.
  intros Hh Hr Hv Hc. unfold gather_signals. rewrite Hh, Hr, Hv, Hc.
  destruct (hurst_signal hurst price_series) as [s1|]; [| discriminate].
  destruct (regime_signal r) as [s2|]; [| discriminate].
  simpl. intros [= <- <-]. exists s1, s2. split; [reflexivity |].
  split; [reflexivity |].
  unfold weighted_signal_of, np_average, normalize. simpl. field.
Qed.

Lemma all_factors_nominal_weights_witness :
  exists s_hurst s_regime,
    hurst_signal (60 # 100) rally_prices = Ok s_hurst
    /\ regime_signal
         {| current_regime := Some 2%Z;
            regime_descriptions :=
              Some {[ 2%Z := "Bull Market (Positive Mean)"%string ]};
            regime_probabilities := Some [1 # 10; 1 # 10; 8 # 10] |} = Ok s_regime
    /\ weighted_signal_of [1; 1; 1 # 2; 1; 1]
         [30 # 100; 25 # 100; 15 # 100; 20 # 100; 10 # 100]
       == (30 # 100) * s_hurst
          + (25 # 100) * s_regime
          + (15 # 100) * volatility_signal {| annualized_volatility := Some (10 # 100) |}
          + (20 # 100) * momentum_signal (get_sharpe all_factors)
                           (get_price_change all_factors)
          + (10 # 100) * statistical_signal {| is_stationary := Some false |}
                           (get_price_change all_factors).
Proof.
  apply (all_factors_nominal_weights all_factors rally_prices (60 # 100)
           _ _ _ _ _ eq_refl eq_refl eq_refl eq_refl).
  reflexivity.
Defined.

(** ** Fractional differentiation: how many points survive *)

Section OutputLength.

Lemma dropna_from_length_le (s : Series) : forall (k w : nat),
  (forall i, (i < w)%nat -> (i < length s)%nat -> s !! i = Some None) ->
  (length (dropna_from k s) <= length s - w)%nat.
Proof.
  induction s as [|x s IH]; intros k w Hnone; simpl; [lia |].
  destruct w as [|w].
  - specialize (IH (S k) 0%nat). destruct x; simpl.
    + assert (length (dropna_from (S k) s) <= length s - 0)%nat
        by (apply IH; intros; lia). lia.
    + assert (length (dropna_from (S k) s) <= length s - 0)%nat
        by (apply IH; intros; lia). lia.
  - assert (Hx : x = None).
    { specialize (Hnone 0%nat). simpl in Hnone.
      assert (Some x = Some None) by (apply Hnone; lia). congruence. }
    subst x. apply IH. intros i Hi Hlen. apply (Hnone (S i)); simpl; lia.
Qed.

Lemma dropna_from_positions (s : Series) : forall (k w : nat),
  (w <= length s)%nat ->
  (forall i, (i < w)%nat -> s !! i = Some None) ->
  (forall i, (w <= i < length s)%nat -> exists v, s !! i = Some (Some v)) ->
  map fst (dropna_from k s) = seq (k + w) (length s - w).
Proof.
  induction s as [|x s IH]; intros k w Hw Hnone Hsome; simpl in *.
  - replace w with 0%nat by lia. reflexivity.
  - destruct w as [|w].
    + destruct (Hsome 0%nat) as [v Hv]; [lia |]. simpl in Hv.
      injection Hv as ->. simpl. rewrite Nat.add_0_r. f_equal.
      rewrite (IH (S k) 0%nat); [| lia | intros; lia |].
      * rewrite Nat.add_0_r, Nat.sub_0_r. reflexivity.
      * intros i Hi. apply (Hsome (S i)). lia.
    + assert (Hx : Some x = Some None) by (apply (Hnone 0%nat); lia).
      injection Hx as ->.
      rewrite (IH (S k) w); [| lia | |].
      * f_equal. lia.
      * intros i Hi. apply (Hnone (S i)). lia.
      * intros i Hi. apply (Hsome (S i)). lia.
Qed.

Lemma length_apply_weights (weights : list Q) (series : Series) :
  length (apply_weights weights series) = length series.
Proof.
  destruct (Nat.lt_trichotomy (length (apply_weights weights series)) (length series))
    as [Hlt | [Heq | Hgt]]; [| exact Heq |].
  - pose proof (apply_weights_lookup weights series
                  (length (apply_weights weights series))) as Hl.
    rewrite lookup_ge_None_2 in Hl by lia.
    repeat case_decide; try discriminate; lia.
  - pose proof (apply_weights_lookup weights series (length series)) as Hl.
    destruct (lookup_lt_is_Some_2 (apply_weights weights series) (length series) Hgt)
      as [x Hx].
    rewrite Hx in Hl. repeat case_decide; try discriminate; lia.
Qed.

(** The weight vector has at least one entry, and at least two when
    the threshold is below the first weight 1. *)
Lemma compute_weights_width (fuel : nat) (d threshold : Q) (weights : list Q) :
  compute_weights fuel d threshold = Some weights ->
  (1 <= length weights)%nat /\ (threshold < 1 -> (2 <= length weights)%nat).
Proof.
  intros Hw.
  destruct (compute_weights_inv d threshold fuel weights Hw) as (n & -> & Hbefore & Hat).
  rewrite length_weights_upto. split; [lia |].
  intros Hthr. destruct n as [|n]; [| lia].
  unfold above in Hat. change (Qabs (frac_weight d 0)) with 1 in Hat.
  apply Qgtb_false in Hat. lra.
Qed.

Lemma fractional_diff_some (fuel : nat) (series : Series) (d threshold : Q)
      (out : IndexedSeries) :
  fractional_diff fuel series d threshold = Some out ->
  exists weights,
    compute_weights fuel d threshold = Some weights
    /\ out = dropna (apply_weights weights series).
Proof.
  unfold fractional_diff.
  destruct (compute_weights fuel d threshold) as [ws|]; [| discriminate].
  intros [= <-]. eauto.
Qed.

Lemma fractional_diff_length_le (fuel : nat) (series : Series) (d threshold : Q)
      (out : IndexedSeries) :
  fractional_diff fuel series d threshold = Some out ->
  (length out <= length series - 1)%nat
  /\ (threshold < 1 -> (length out <= length series - 2)%nat).
Proof.
  intros Hout.
  destruct (fractional_diff_some _ _ _ _ _ Hout) as (ws & Hws & ->).
  destruct (compute_weights_width _ _ _ _ Hws) as [H1 H2].
  assert (Hlen : (length (dropna (apply_weights ws series))
                  <= length series - length ws)%nat).
  { unfold dropna. rewrite <- (length_apply_weights ws series) at 1.
    apply dropna_from_length_le. intros i Hi Hi'.
    rewrite length_apply_weights in Hi'.
    rewrite apply_weights_lookup. repeat case_decide; try lia; reflexivity. }
  split; [lia |]. intros Hthr. specialize (H2 Hthr). lia.
Qed.

End OutputLength.

(** X6.  The output of [fractional_diff] loses the first [width]
    positions of the input, [width] being the length of the weight
    vector (at least 1, and at least 2 for a threshold below 1): it has
    at most [len(series) - width] points, and for a series without
    missing values its index is exactly [width, ..., len(series) - 1]. *)
Theorem fractional_diff_positions
        (fuel : nat) (series : Series) (d threshold : Q) (out : IndexedSeries) :
  fractional_diff fuel series d threshold = Some out ->
  exists weights,
    compute_weights fuel d threshold = Some weights
    /\ (1 <= length weights)%nat
    /\ (threshold < 1 -> (2 <= length weights)%nat)
    /\ (length out <= length series - length weights)%nat
    /\ (forall i v, (i, v) ∈ out -> (length weights <= i < length series)%nat)
    /\ (all_valid series ->
        map fst out = seq (length weights) (length series - length weights)).
Proof.
  intros Hout.
  destruct (fractional_diff_some _ _ _ _ _ Hout) as (ws & Hws & ->).
  destruct (compute_weights_width _ _ _ _ Hws) as [H1 H2].
  exists ws. split; [exact Hws |]. split; [exact H1 |]. split; [exact H2 |].
  split; [| split].
  - unfold dropna. rewrite <- (length_apply_weights ws series) at 1.
    apply dropna_from_length_le. intros i Hi Hi'.
    rewrite length_apply_weights in Hi'.
    rewrite apply_weights_lookup. repeat case_decide; try lia; reflexivity.
  - intros i v Hin.
    apply (proj2 (fractional_diff_elem fuel series d threshold ws Hws)) in Hin.
    apply Hin.
  - intros Hvalid.
    destruct (Nat.le_gt_cases (length ws) (length series)) as [Hle | Hgt].
    + unfold dropna.
      rewrite (dropna_from_positions _ 0 (length ws));
        rewrite ?length_apply_weights; [reflexivity | exact Hle | |].
      * intros i Hi. rewrite apply_weights_lookup.
        repeat case_decide; try lia; reflexivity.
      * intros i Hi. rewrite apply_weights_lookup. case_decide; [| lia].
        destruct (window_valid series (length ws) i) with (w := rev ws) as [v Hv].
        -- lia.
        -- intros j Hj. apply Hvalid. lia.
        -- apply length_rev.
        -- exists v. rewrite Hv. reflexivity.
    + replace (length series - length ws)%nat with 0%nat by lia. simpl.
      destruct (dropna (apply_weights ws series)) as [|[i v] rest] eqn:E;
        [reflexivity |].
      assert (Hin : (i, v) ∈ dropna (apply_weights ws series))
        by (rewrite E; apply list_elem_of_here).
      apply (proj2 (fractional_diff_elem fuel series d threshold ws Hws)) in Hin.
      lia.
Qed.

Lemma fractional_diff_positions_witness :
  exists weights,
    compute_weights 5 (2 # 10) (1 # 10) = Some weights
    /\ (1 <= length weights)%nat
    /\ (1 # 10 < 1 -> (2 <= length weights)%nat)
    /\ (length (default [] (fractional_diff 5 ramp_14 (2 # 10) (1 # 10)))
        <= length ramp_14 - length weights)%nat
    /\ (forall i v,
          (i, v) ∈ default [] (fractional_diff 5 ramp_14 (2 # 10) (1 # 10)) ->
          (length weights <= i < length ramp_14)%nat)
    /\ (all_valid ramp_14 ->
        map fst (default [] (fractional_diff 5 ramp_14 (2 # 10) (1 # 10)))
        = seq (length weights) (length ramp_14 - length weights)).
Proof.
  apply (fractional_diff_positions 5 ramp_14 (2 # 10) (1 # 10)).
  vm_compute. reflexivity.
Defined.

(** ** The order search: degenerate inputs *)

Section FindMinFFDEdges.

Variable adfuller_pvalue : list Q -> Q.

Lemma find_min_ffd_loop_all_short (fuel : nat) (series : Series)
      (max_d threshold : Q) (candidates : list Q) :
  (forall d, d ∈ candidates ->
             exists out, fractional_diff fuel series d threshold = Some out
                         /\ (length out < 10)%nat) ->
  find_min_ffd_loop adfuller_pvalue fuel series threshold max_d candidates
  = Some max_d.
Proof.
  induction candidates as [|c cs IH]; intros Hshort; simpl; [reflexivity |].
  destruct (Hshort c (list_elem_of_here _ _)) as (out & -> & Hlen).
  apply Nat.ltb_lt in Hlen. rewrite Hlen.
  apply IH. intros d Hd. apply Hshort, list_elem_of_further, Hd.
Qed.

Lemma np_arange_nonpositive (max_d : Q) :
  max_d <= 0 -> np_arange max_d (1 # 10) = [].
Proof.
  intros Hle. unfold np_arange.
  assert (Hx : (max_d - 0) / (1 # 10) <= 0).
  { apply Qle_shift_div_r; [reflexivity | lra]. }
  apply Qceiling_resp_le in Hx. change (Qceiling 0) with 0%Z in Hx.
  replace (Z.to_nat (Qceiling ((max_d - 0) / (1 # 10)))) with 0%nat by lia.
  reflexivity.
Qed.

End FindMinFFDEdges.

(** X7.  On a series of fewer than 12 observations (with a threshold
    below 1) every candidate order leaves fewer than 10 points, so
    [find_min_ffd] never consults the stationarity test and returns
    [max_d], whatever the oracle would say. *)
Theorem find_min_ffd_short_series
        (adfuller_pvalue : list Q -> Q) (series : Series) (max_d threshold : Q) :
  0 < threshold -> threshold < 1 ->
  (length series < 12)%nat ->
  exists fuel0, forall fuel, (fuel0 <= fuel)%nat ->
    find_min_ffd adfuller_pvalue fuel series max_d threshold = Some max_d.
Proof.
  intros Ht Ht1 Hlen.
  set (N := Z.to_nat (Qceiling ((max_d - 0) / (1 # 10)))).
  destruct (enough_fuel_for_all series threshold Ht (map grid_point (seq 0 N)))
    as [fuel0 Hfuel0].
  { intros d Hd. apply list_elem_of_fmap in Hd. destruct Hd as (i & -> & _).
    apply grid_point_nonneg. }
  exists fuel0. intros fuel Hfuel. unfold find_min_ffd.
  rewrite np_arange_grid. fold N.
  apply find_min_ffd_loop_all_short. intros d Hd.
  destruct (Hfuel0 fuel Hfuel d Hd) as [out Hout].
  exists out. split; [exact Hout |].
  destruct (fractional_diff_length_le _ _ _ _ _ Hout) as [_ H2].
  specialize (H2 Ht1). lia.
Qed.

Lemma find_min_ffd_short_series_witness :
  0 < 1 # 100000 /\ 1 # 100000 < 1
  /\ (length (map (fun i => Some (Qn i)) (seq 0 11)) < 12)%nat
  /\ exists fuel0, forall fuel, (fuel0 <= fuel)%nat ->
       find_min_ffd (fun _ => 0) fuel (map (fun i => Some (Qn i)) (seq 0 11))
         1 (1 # 100000) = Some 1.
Proof.
  split; [reflexivity |]. split; [reflexivity |]. split; [vm_compute; lia |].
  apply (find_min_ffd_short_series (fun _ => 0)
           (map (fun i => Some (Qn i)) (seq 0 11)) 1 (1 # 100000)).
  - reflexivity.
  - reflexivity.
  - vm_compute; lia.
Defined.

(** X8.  For [max_d <= 0] the candidate grid is empty: [find_min_ffd]
    returns [max_d] at once, without differentiating the series or
    calling the oracle. *)
Theorem find_min_ffd_empty_grid
        (adfuller_pvalue : list Q -> Q) (fuel : nat) (series : Series)
        (max_d threshold : Q) :
  max_d <= 0 ->
  np_arange max_d (1 # 10) = []
  /\ find_min_ffd adfuller_pvalue fuel series max_d threshold = Some max_d.
Proof.
  intros Hle. pose proof (np_arange_nonpositive max_d Hle) as Hgrid.
  split; [exact Hgrid |]. unfold find_min_ffd. rewrite Hgrid. reflexivity.
Qed.

Lemma find_min_ffd_empty_grid_witness :
  - (1 # 2) <= 0
  /\ np_arange (- (1 # 2)) (1 # 10) = []
  /\ find_min_ffd (fun _ => 0) 0 ramp_14 (- (1 # 2)) (1 # 100000)
     = Some (- (1 # 2)).
Proof.
  split; [unfold Qle; simpl; lia |].
  apply (find_min_ffd_empty_grid (fun _ => 0) 0 ramp_14 (- (1 # 2)) (1 # 100000)).
  unfold Qle; simpl; lia.
Defined.

(** ** Fractional differentiation is linear *)

Section Scaling.

Variable c : Q.

Lemma np_dot_scale (w : list Q) : forall (x : Series),
  scaled_value c (np_dot w (scale c x)) (np_dot w x).
Proof.
  induction w as [|wi w IH]; intros [|[xi|] x]; try exact I.
  - unfold scaled_value, scale. cbn [map np_dot]. ring.
  - specialize (IH x).
    change (np_dot (wi :: w) (scale c (Some xi :: x)))
      with (match np_dot w (scale c x) with
            | Some r => Some (wi * (xi * c) + r)
            | None => None
            end).
    change (np_dot (wi :: w) (Some xi :: x))
      with (match np_dot w x with
            | Some r => Some (wi * xi + r)
            | None => None
            end).
    destruct (np_dot w (scale c x)) as [r'|], (np_dot w x) as [r|];
      unfold scaled_value in *; try contradiction; try exact I.
    rewrite IH. ring.
Qed.

Lemma iloc_slice_scale (series : Series) (a b : nat) :
  iloc_slice (scale c series) a b = scale c (iloc_slice series a b).
Proof.
  unfold iloc_slice, scale. rewrite skipn_map, firstn_map. reflexivity.
Qed.

Lemma apply_weights_scale (weights : list Q) (series : Series) :
  Forall2 (scaled_value c)
          (apply_weights weights (scale c series)) (apply_weights weights series).
Proof.
  apply Forall2_same_length_lookup. split.
  - rewrite !length_apply_weights. unfold scale. apply length_map.
  - intros i x' x Hx' Hx.
    rewrite apply_weights_lookup in Hx', Hx.
    assert (Hlen : length (scale c series) = length series)
      by (unfold scale; apply length_map).
    rewrite Hlen in Hx'.
    repeat case_decide; simplify_eq; try lia; try exact I.
    rewrite iloc_slice_scale. apply np_dot_scale.
Qed.

Lemma dropna_from_scale (s' s : Series) : forall k,
  Forall2 (scaled_value c) s' s ->
  Forall2 (scaled_point c) (dropna_from k s') (dropna_from k s).
Proof.
  intros k H. revert k. induction H as [|x' x s' s Hx Hs IH]; intros k; simpl.
  - constructor.
  - destruct x' as [a'|], x as [a|]; simpl in Hx; try contradiction.
    + constructor; [split; [reflexivity | exact Hx] | apply IH].
    + apply IH.
Qed.

End Scaling.

(** X9.  [fractional_diff] is homogeneous: multiplying every value of
    the series by a constant [c] leaves the index of the output
    unchanged and multiplies every output value by [c]. *)
Theorem fractional_diff_scale
        (c : Q) (fuel : nat) (series : Series) (d threshold : Q)
        (out : IndexedSeries) :
  fractional_diff fuel series d threshold = Some out ->
  exists out',
    fractional_diff fuel (scale c series) d threshold = Some out'
    /\ Forall2 (scaled_point c) out' out.
Proof.
  intros Hout.
  destruct (fractional_diff_some _ _ _ _ _ Hout) as (ws & Hws & ->).
  exists (dropna (apply_weights ws (scale c series))). split.
  - unfold fractional_diff. rewrite Hws. reflexivity.
  - apply dropna_from_scale, apply_weights_scale.
Qed.

Lemma fractional_diff_scale_witness :
  exists out',
    fractional_diff 3 (scale 100 [Some 1; Some 2; Some 4; Some 7]) 1 (1 # 100000)
    = Some out'
    /\ Forall2 (scaled_point 100) out'
         (default [] (fractional_diff 3 [Some 1; Some 2; Some 4; Some 7] 1
                        (1 # 100000))).
Proof.
  apply (fractional_diff_scale 100 3 [Some 1; Some 2; Some 4; Some 7] 1
           (1 # 100000)).
  vm_compute. reflexivity.
Defined.

(** ** Order one *)

Section FirstOrder.

Lemma shift1_lookup_S (s : Series) (j : nat) :
  (S j < length s)%nat -> shift1 s !! S j = s !! j.
Proof.
  intros Hj. destruct s as [|x s]; [simpl in Hj; lia |].
  unfold shift1. change ((None :: removelast (x :: s)) !! S j)
    with (removelast (x :: s) !! j).
  rewrite removelast_firstn_len. apply lookup_take_lt. simpl in *. lia.
Qed.

(** [series.diff()] at a position whose two operands are present. *)
Lemma diff1_lookup_S (s : Series) (j : nat) (a b : Q) :
  s !! j = Some (Some a) -> s !! S j = Some (Some b) ->
  diff1 s !! S j = Some (Some (b - a)).
Proof.
  intros Ha Hb. unfold diff1. rewrite lookup_zip_with, Hb. simpl.
  rewrite shift1_lookup_S by (apply lookup_lt_Some in Hb; exact Hb).
  rewrite Ha. reflexivity.
Qed.

Variable threshold : Q.
Hypothesis threshold_pos : 0 < threshold.
Hypothesis threshold_small : threshold < 1.

Lemma compute_weights_one (fuel : nat) :
  (3 <= fuel)%nat -> compute_weights fuel 1 threshold = Some [1; -1; 0 # 2].
Proof.
  intros Hfuel.
  assert (H0 : above 1 threshold 0 = true)
    by (apply Qgtb_true; change (Qabs (frac_weight 1 0)) with 1; lra).
  assert (H1 : above 1 threshold 1 = true)
    by (apply Qgtb_true; change (Qabs (frac_weight 1 1)) with 1; lra).
  assert (H2 : above 1 threshold 2 = false)
    by (apply Qgtb_false; change (Qabs (frac_weight 1 2)) with (0 # 2); lra).
  destruct (weights_loop_stops 1 threshold 2 0 H2) as (j & Hj & Hbefore & Hat & Hrun).
  simpl in Hat.
  assert (j = 2)%nat as ->.
  { destruct j as [|[|j]]; [congruence | congruence | lia]. }
  unfold compute_weights. rewrite <- (weights_upto_0 1).
  rewrite Hrun by lia. reflexivity.
Qed.

Lemma np_dot_first_order (series : Series) (i : nat) (v : Q) :
  (3 <= i)%nat ->
  np_dot (rev [1; -1; 0 # 2]) (iloc_slice series (i - 3) i) = Some v ->
  exists a b,
    series !! (i - 2)%nat = Some (Some a)
    /\ series !! (i - 1)%nat = Some (Some b)
    /\ v == b - a.
Proof.
  intros Hi Hdot.
  pose proof (iloc_slice_lookup series (i - 3) i 1) as Hl1.
  pose proof (iloc_slice_lookup series (i - 3) i 2) as Hl2.
  repeat case_decide; try lia.
  replace (i - 3 + 1)%nat with (i - 2)%nat in Hl1 by lia.
  replace (i - 3 + 2)%nat with (i - 1)%nat in Hl2 by lia.
  destruct (iloc_slice series (i - 3) i) as [|[x|] [|[a|] [|[b|] [|? ?]]]];
    simpl in Hdot; try discriminate.
  injection Hdot as <-. exists a, b. simpl in Hl1, Hl2.
  split; [done |]. split; [done |]. ring.
Qed.

End FirstOrder.

(** X10.  With [d = 1] (and a threshold below 1) the weights are
    [1, -1, 0] and [fractional_diff] is the first difference delayed by
    one step: the value at position [i] is [series[i-1] - series[i-2]],
    the value [series.diff()] holds at position [i - 1]; positions 0 to
    2 are dropped. *)
Theorem fractional_diff_first_order (series : Series) (threshold : Q) :
  0 < threshold -> threshold < 1 ->
  forall fuel, (3 <= fuel)%nat ->
    compute_weights fuel 1 threshold = Some [1; -1; 0 # 2]
    /\ exists out,
         fractional_diff fuel series 1 threshold = Some out
         /\ (forall i v,
               (i, v) ∈ out ->
               (3 <= i < length series)%nat
               /\ exists dv, diff1 series !! (i - 1)%nat = Some (Some dv) /\ v == dv)
         /\ (forall i,
               (3 <= i < length series)%nat ->
               (forall j, (i - 3 <= j < i)%nat ->
                          exists x, series !! j = Some (Some x)) ->
               exists v, (i, v) ∈ out).
Proof.
  intros Ht Ht1 fuel Hfuel.
  pose proof (compute_weights_one threshold Ht Ht1 fuel Hfuel) as Hw.
  split; [exact Hw |].
  destruct (fractional_diff_elem fuel series 1 threshold _ Hw) as [Hfd Hel].
  eexists. split; [exact Hfd |]. split.
  - intros i v Hin. apply Hel in Hin. destruct Hin as [Hi Hdot].
    simpl in Hi. split; [exact Hi |].
    destruct (np_dot_first_order series i v) as (a & b & Ha & Hb & Hv);
      [lia | exact Hdot |].
    exists (b - a). split; [| exact Hv].
    replace (i - 1)%nat with (S (i - 2)) in * by lia.
    apply diff1_lookup_S; assumption.
  - intros i Hi Hval.
    destruct (window_valid series 3 i) with (w := rev [1; -1; 0 # 2]) as [v Hv];
      [lia | exact Hval | reflexivity |].
    exists v. apply Hel. split; [simpl; lia | exact Hv].
Qed.

Lemma fractional_diff_first_order_witness :
  0 < 1 # 100000 /\ 1 # 100000 < 1
  /\ forall fuel, (3 <= fuel)%nat ->
       compute_weights fuel 1 (1 # 100000) = Some [1; -1; 0 # 2]
       /\ exists out,
            fractional_diff fuel [Some 1; Some 2; Some 4; Some 7] 1 (1 # 100000)
            = Some out
            /\ (forall i v,
                  (i, v) ∈ out ->
                  (3 <= i < length [Some 1; Some 2; Some 4; Some 7])%nat
                  /\ exists dv,
                       diff1 [Some 1; Some 2; Some 4; Some 7] !! (i - 1)%nat
                       = Some (Some dv) /\ v == dv)
            /\ (forall i,
                  (3 <= i < length [Some 1; Some 2; Some 4; Some 7])%nat ->
                  (forall j, (i - 3 <= j < i)%nat ->
                             exists x,
                               [Some 1; Some 2; Some 4; Some 7] !! j = Some (Some x)) ->
                  exists v, (i, v) ∈ out).
Proof.
  split; [reflexivity |]. split; [reflexivity |].
  apply (fractional_diff_first_order [Some 1; Some 2; Some 4; Some 7] (1 # 100000));
    reflexivity.
Defined.

(** ** The regression frame of the half-life *)

Section HalfLifeFrame.

Lemma shifted_cons (prev x : option Q) (s : Series) :
  s <> [] -> shifted prev (x :: s) = prev :: shifted x s.
Proof. intros Hs. unfold shifted. destruct s; [done | reflexivity]. Qed.

Lemma omap_ext_in {A B : Type} (f g : A -> option B) (l : list A) :
  (forall x, x ∈ l -> f x = g x) -> omap f l = omap g l.
Proof.
  induction l as [|x l IH]; intros H; [reflexivity |].
  assert (Htail : omap f l = omap g l).
  { apply IH. intros y Hy. apply H, list_elem_of_further, Hy. }
  change (omap f (x :: l))
    with (match f x with Some y => y :: omap f l | None => omap f l end).
  change (omap g (x :: l))
    with (match g x with Some y => y :: omap g l | None => omap g l end).
  rewrite (H x (list_elem_of_here _ _)), Htail. reflexivity.
Qed.

Lemma at_index_skip (k t : nat) (a : Q) (l : IndexedSeries) :
  k <> t -> at_index ((k, a) :: l) t = at_index l t.
Proof.
  intros Hne. unfold at_index. simpl.
  destruct (decide (k = t)) as [|_]; [contradiction |].
  destruct (list_find (fun p => p.1 = t) l) as [[i p]|]; reflexivity.
Qed.

Lemma at_index_here (k : nat) (a : Q) (l : IndexedSeries) :
  at_index ((k, a) :: l) k = Some a.
Proof.
  unfold at_index. simpl. destruct (decide (k = k)); [reflexivity | contradiction].
Qed.

Lemma at_index_above (s : Series) : forall (k t : nat),
  (t < k)%nat -> at_index (dropna_from k s) t = None.
Proof.
  induction s as [|[x|] s IH]; intros k t Ht; simpl.
  - reflexivity.
  - rewrite at_index_skip by lia. apply IH. lia.
  - apply IH. lia.
Qed.

Lemma frame_rows_from (s : Series) : forall (k : nat) (prev : option Q),
  s <> [] ->
  frame_dropna (dropna_from k (diff_against s (shifted prev s)))
               (dropna_from k (shifted prev s))
  = adjacent_rows prev s.
Proof.
  induction s as [|x s IH]; intros k prev Hne; [contradiction |].
  destruct s as [|y s].
  - unfold shifted, diff_against, frame_dropna. simpl.
    destruct x as [b|], prev as [a|]; simpl; try reflexivity.
    rewrite at_index_here. reflexivity.
  - rewrite shifted_cons by discriminate.
    specialize (IH (S k) x ltac:(discriminate)).
    change (diff_against (x :: y :: s) (prev :: shifted x (y :: s)))
      with (match x, prev with
            | Some a, Some b => Some (a - b)
            | _, _ => None
            end :: diff_against (y :: s) (shifted x (y :: s))).
    change (adjacent_rows prev (x :: y :: s))
      with (match x, prev with
            | Some b, Some a => [(b - a, a)]
            | _, _ => []
            end ++ adjacent_rows x (y :: s)).
    rewrite <- IH. clear IH.
    set (D := diff_against (y :: s) (shifted x (y :: s))).
    set (L := shifted x (y :: s)).
    assert (Hrest : forall lag0,
               (forall t, (S k <= t)%nat -> at_index lag0 t = at_index (dropna_from (S k) L) t) ->
               frame_dropna (dropna_from (S k) D) lag0
               = frame_dropna (dropna_from (S k) D) (dropna_from (S k) L)).
    { intros lag0 Hlag. unfold frame_dropna. apply omap_ext_in.
      intros [t d] Hin. apply elem_of_dropna_from in Hin. simpl.
      rewrite Hlag by lia. reflexivity. }
    destruct prev as [a|]; simpl.
    + destruct x as [b|]; simpl.
      * unfold frame_dropna at 1. simpl. rewrite at_index_here. simpl. f_equal.
        apply Hrest. intros t Ht. apply at_index_skip. lia.
      * apply Hrest. intros t Ht. apply at_index_skip. lia.
    + destruct x as [b|]; simpl; apply Hrest; intros t Ht; reflexivity.
Qed.

Lemma half_life_frame_adjacent (spread : Series) :
  half_life_frame spread = adjacent_rows None spread.
Proof.
  destruct spread as [|x s]; [reflexivity |].
  unfold half_life_frame, dropna.
  change (shift1 (x :: s)) with (shifted None (x :: s)).
  change (diff1 (x :: s)) with (diff_against (x :: s) (shifted None (x :: s))).
  apply frame_rows_from. discriminate.
Qed.

Lemma adjacent_rows_length (s : Series) : forall prev,
  (length (adjacent_rows prev s)
   <= length s - match prev with Some _ => 0 | None => 1 end)%nat.
Proof.
  induction s as [|x s IH]; intros prev; simpl; [lia |].
  rewrite length_app. specialize (IH x).
  destruct x as [b|], prev as [a|]; simpl in *; lia.
Qed.

Lemma adjacent_rows_valid (xs : list Q) : forall a,
  adjacent_rows (Some a) (map Some xs)
  = zip_with (fun b a => (b - a, a)) xs (a :: xs).
Proof.
  induction xs as [|b xs IH]; intros a; simpl; [reflexivity |].
  rewrite IH. reflexivity.
Qed.

End HalfLifeFrame.

(** X11.  The frame that [calculate_half_life] regresses on (built with
    [shift], [diff], two [dropna] and an index-aligned [DataFrame]) is
    what one pass over the spread produces: one row
    [(spread[t] - spread[t-1], spread[t-1])] for every [t] whose value
    and predecessor are both present, in order.  It has at most
    [len(spread) - 1] rows, so a spread of fewer than two points gives
    the regression an empty sample; without missing values the rows
    are all the consecutive pairs. *)
Theorem half_life_frame_rows_spec (spread : Series) :
  half_life_frame spread = adjacent_rows None spread
  /\ (length (half_life_frame spread) <= length spread - 1)%nat
  /\ ((length spread <= 1)%nat -> half_life_frame spread = [])
  /\ forall (x0 : Q) (xs : list Q),
       spread = map Some (x0 :: xs) ->
       half_life_frame spread = zip_with (fun b a => (b - a, a)) xs (x0 :: xs).
Proof.
  pose proof (half_life_frame_adjacent spread) as Heq.
  pose proof (adjacent_rows_length spread None) as Hlen. simpl in Hlen.
  split; [exact Heq |]. rewrite Heq. split; [exact Hlen |]. split.
  - intros Hshort. destruct (adjacent_rows None spread) eqn:E; [reflexivity |].
    simpl in Hlen. lia.
  - intros x0 xs ->. simpl. apply adjacent_rows_valid.
Qed.

Lemma half_life_frame_rows_spec_witness :
  (length [Some 5] <= 1)%nat
  /\ half_life_frame [Some 5] = []
  /\ half_life_frame (map Some [8; 4; 2; 1])
     = zip_with (fun b a => (b - a, a)) [4; 2; 1] [8; 4; 2; 1].
Proof.
  split; [vm_compute; lia |]. split.
  - apply (proj1 (proj2 (proj2 (half_life_frame_rows_spec [Some 5])))).
    vm_compute; lia.
  - apply (proj2 (proj2 (proj2 (half_life_frame_rows_spec (map Some [8; 4; 2; 1]))))
             8 [4; 2; 1]).
    reflexivity.
Defined.

(** X12.  With [np.log(2) > 0], [calculate_half_life] never returns
    zero, a negative number, minus infinity or NaN: its result is plus
    infinity or a positive number of periods. *)
Theorem calculate_half_life_positive
        (np_log2 : Q) (linear_regression_coef : list Q -> list Q -> result Q)
        (spread : Series) (h : pyfloat) :
  0 < np_log2 ->
  calculate_half_life np_log2 linear_regression_coef spread = Ok h ->
  h = PosInf \/ exists q, h = Finite q /\ 0 < q.
Proof.
  intros Hln. unfold calculate_half_life, rbind.
  destruct (linear_regression_coef _ _) as [theta|e]; [| discriminate].
  destruct (Qltb theta 0) eqn:Hsign; intros [= <-]; [| left; reflexivity].
  right. eexists. split; [reflexivity |].
  apply Qltb_true in Hsign.
  assert (Heq : - np_log2 / theta == np_log2 / - theta) by (field; lra).
  rewrite Heq. apply Qlt_shift_div_l; lra.
Qed.

Lemma calculate_half_life_positive_witness :
  0 < np_log2_binary64
  /\ (Finite (- np_log2_binary64 / (-1 # 2)) = PosInf
      \/ exists q, Finite (- np_log2_binary64 / (-1 # 2)) = Finite q /\ 0 < q).
Proof.
  split; [reflexivity |].
  apply (calculate_half_life_positive np_log2_binary64 ols_slope
           [Some 8; Some 4; Some 2; Some 1]).
  - reflexivity.
  - vm_compute. reflexivity.
Defined.

(** ** The rank count of the Johansen test *)

Section JohansenCount.

Import CointegrationTests.

Variable trace_stat : list Q.
Variable trace_crit : list (Q * Q * Q).
Hypothesis Hshape : length trace_crit = length trace_stat.

Lemma count_step_spec (n i : nat) :
  (i < length trace_stat)%nat ->
  exists stat row,
    trace_stat !! i = Some stat /\ trace_crit !! i = Some row
    /\ count_step trace_stat trace_crit (Ok n) i
       = Ok (if Qgtb stat (column_1 row) then (i + 1)%nat else n).
Proof.
  intros Hi.
  destruct (lookup_lt_is_Some_2 trace_stat i Hi) as [stat Hs].
  assert (Hi' : (i < length trace_crit)%nat) by lia.
  destruct (lookup_lt_is_Some_2 trace_crit i Hi') as [row Hr].
  exists stat, row. split; [exact Hs|]. split; [exact Hr|].
  unfold count_step. cbn [rbind]. rewrite Hs, Hr. cbn [or_raise rbind].
  destruct (Qgtb stat (column_1 row)); reflexivity.
Qed.

Lemma n_cointegrating_prefix (m : nat) :
  (m <= length trace_stat)%nat ->
  exists n,
    foldl (count_step trace_stat trace_crit) (Ok 0%nat) (seq 0 m) = Ok n
    /\ (n <= m)%nat
    /\ (n = 0%nat \/ trace_rejects trace_stat trace_crit (n - 1))
    /\ forall i, (n <= i < m)%nat -> ~ trace_rejects trace_stat trace_crit i.
Proof.
  induction m as [|m IH]; intros Hm.
  - exists 0%nat. cbn. split; [reflexivity|]. split; [lia|].
    split; [left; reflexivity|]. intros i Hi. lia.
  - destruct IH as (n & Hfold & Hle & Hlast & Hrest); [lia|].
    rewrite seq_S, foldl_snoc, Hfold. cbn [Nat.add].
    destruct (count_step_spec n m) as (stat & row & Hs & Hr & Hstep); [lia|].
    rewrite Hstep.
    destruct (Qgtb stat (column_1 row)) eqn:Hcmp.
    + exists (m + 1)%nat. split; [reflexivity|]. split; [lia|]. split.
      * right. replace (m + 1 - 1)%nat with m by lia.
        exists stat, row. split; [exact Hs|]. split; [exact Hr|].
        apply Qgtb_true. exact Hcmp.
      * intros i Hi. lia.
    + exists n. split; [reflexivity|]. split; [lia|]. split; [exact Hlast|].
      intros i Hi. destruct (decide (i = m)) as [->|Hne].
      * intros (stat' & row' & Hs' & Hr' & Hlt).
        rewrite Hs in Hs'. rewrite Hr in Hr'.
        injection Hs' as <-. injection Hr' as <-.
        apply Qgtb_false in Hcmp. apply (Qlt_not_le _ _ Hlt). exact Hcmp.
      * apply Hrest. lia.
Qed.

End JohansenCount.

(** X13.  [johansen_cointegration_test]: when the library returns one
    row of critical values per trace statistic, the function returns,
    and the reported number of cointegrating vectors [n] is at most the
    number of statistics, is 0 or one more than a rank whose trace
    statistic exceeds its 95% critical value, and no rank from [n] on
    exceeds it: [n] is one more than the last rejected rank, whether or
    not the ranks before it are rejected. *)
Theorem johansen_counts_last_rejection
        (DataFrame : Type)
        (coint_johansen : DataFrame -> Z -> Z -> CointegrationTests.JohansenResult)
        (data : DataFrame) (det_order k_ar_diff : Z) :
  let result := coint_johansen data det_order k_ar_diff in
  length (CointegrationTests.cvt result) = length (CointegrationTests.lr1 result) ->
  exists d,
    CointegrationTests.johansen_cointegration_test
      DataFrame coint_johansen data det_order k_ar_diff = Ok d
    /\ (CointegrationTests.n_cointegrating_vectors d
        <= length (CointegrationTests.lr1 result))%nat
    /\ (CointegrationTests.n_cointegrating_vectors d = 0%nat
        \/ CointegrationTests.trace_rejects
             (CointegrationTests.lr1 result) (CointegrationTests.cvt result)
             (CointegrationTests.n_cointegrating_vectors d - 1))
    /\ forall i, (CointegrationTests.n_cointegrating_vectors d <= i)%nat ->
                 ~ CointegrationTests.trace_rejects
                     (CointegrationTests.lr1 result)
                     (CointegrationTests.cvt result) i.
Proof.
  intros result Hshape.
  destruct (n_cointegrating_prefix _ _ Hshape (length (CointegrationTests.lr1 result)))
    as (n & Hloop & Hle & Hlast & Hrest); [lia|].
  unfold CointegrationTests.johansen_cointegration_test.
  fold result. unfold CointegrationTests.n_cointegrating_loop.
  rewrite Hloop. cbn [rbind].
  eexists. split; [reflexivity|]. cbn [CointegrationTests.n_cointegrating_vectors].
  split; [exact Hle|]. split; [exact Hlast|].
  intros i Hi.
  destruct (decide (i < length (CointegrationTests.lr1 result))%nat) as [Hlt|Hge].
  - apply Hrest. lia.
  - intros (stat & row & Hs & _).
    apply lookup_lt_Some in Hs. lia.
Qed.

Lemma johansen_counts_last_rejection_witness :
  length (CointegrationTests.cvt CoverageSamples.johansen_second_only)
  = length (CointegrationTests.lr1 CoverageSamples.johansen_second_only)
  /\ exists d,
       CointegrationTests.johansen_cointegration_test
         unit (fun _ _ _ => CoverageSamples.johansen_second_only) tt 0%Z 1%Z = Ok d
       /\ (CointegrationTests.n_cointegrating_vectors d <= 2)%nat
       /\ (CointegrationTests.n_cointegrating_vectors d = 0%nat
           \/ CointegrationTests.trace_rejects [10; 5] [(13, 15, 20); (3, 4, 7)]
                (CointegrationTests.n_cointegrating_vectors d - 1))
       /\ forall i, (CointegrationTests.n_cointegrating_vectors d <= i)%nat ->
                    ~ CointegrationTests.trace_rejects
                        [10; 5] [(13, 15, 20); (3, 4, 7)] i.
Proof.
  split; [reflexivity|].
  apply (johansen_counts_last_rejection
           unit (fun _ _ _ => CoverageSamples.johansen_second_only) tt 0%Z 1%Z).
  reflexivity.
Defined.

(** Two cointegrating vectors are reported although rank 0 is not
    rejected. *)
Example johansen_second_rank_only :
  CointegrationTests.n_cointegrating_vectors
    <$> match CointegrationTests.johansen_cointegration_test
                unit (fun _ _ _ => CoverageSamples.johansen_second_only) tt 0%Z 1%Z with
        | Ok d => Some d
        | Raise _ => None
        end = Some 2%nat.
Proof. reflexivity. Qed.

(** ** Maximum drawdown *)

Section MaxDrawdown.

Import Routes.

Lemma Qdiv_le_cross (x y a c : Q) :
  0 < a -> 0 < c -> x * c <= y * a -> x / a <= y / c.
Proof.
  intros Ha Hc H.
  apply Qle_shift_div_l; [exact Hc|].
  assert (E : x / a * c == x * c / a) by (field; lra).
  rewrite E. apply Qle_shift_div_r; [exact Ha | exact H].
Qed.

(** The running maximum at position [j] is one of the values seen up
    to [j] (or the maximum carried in) and bounds all of them. *)
Lemma cummax_from_lookup (xs : list Q) :
  forall (best : option Q) (j : nat) (x : Q),
    xs !! j = Some x ->
    exists M,
      cummax_from best (map Some xs) !! j = Some (Some M)
      /\ (best = Some M \/ exists i, (i <= j)%nat /\ xs !! i = Some M)
      /\ (forall m, best = Some m -> m <= M)
      /\ (forall i a, (i <= j)%nat -> xs !! i = Some a -> a <= M).
Proof.
  induction xs as [|x0 xs IH]; intros best j x Hj; [discriminate|].
  cbn [map cummax_from].
  set (best' := match best with
                | Some m => if Qgtb x0 m then x0 else m
                | None => x0
                end).
  assert (Hx0 : x0 <= best').
  { subst best'. destruct best as [m|]; [|lra].
    destruct (Qgtb x0 m) eqn:E; [lra|]. apply Qgtb_false in E. exact E. }
  assert (Hbest : forall m, best = Some m -> m <= best').
  { intros m ->. subst best'. cbn.
    destruct (Qgtb x0 m) eqn:E; [|lra]. apply Qgtb_true in E. lra. }
  assert (Hsrc : best = Some best' \/ x0 = best').
  { subst best'. destruct best as [m|]; [|right; reflexivity].
    destruct (Qgtb x0 m); [right; reflexivity | left; reflexivity]. }
  destruct j as [|j].
  - exists best'. split; [reflexivity|]. split.
    + destruct Hsrc as [H|H]; [left; exact H|].
      right. exists 0%nat. split; [lia|]. cbn. rewrite H. reflexivity.
    + split; [exact Hbest|].
      intros i a Hi Ha. assert (i = 0)%nat as -> by lia.
      cbn in Ha. injection Ha as <-. exact Hx0.
  - cbn in Hj.
    destruct (IH (Some best') j x Hj) as (M & HM & Hfrom & Hge & Hall).
    exists M. split; [exact HM|].
    assert (HbM : best' <= M) by (apply Hge; reflexivity).
    split.
    + destruct Hfrom as [H|(i & Hi & Hxi)].
      * injection H as H. destruct Hsrc as [Hs|Hs].
        -- left. rewrite Hs, H. reflexivity.
        -- right. exists 0%nat. split; [lia|]. cbn. rewrite Hs, H. reflexivity.
      * right. exists (S i). split; [lia|]. exact Hxi.
    + split.
      * intros m Hm. specialize (Hbest m Hm). lra.
      * intros i a Hi Ha. destruct i as [|i].
        -- cbn in Ha. injection Ha as <-. lra.
        -- apply (Hall i a); [lia | exact Ha].
Qed.

Lemma length_cummax_from (prices : Series) :
  forall best, length (cummax_from best prices) = length prices.
Proof.
  induction prices as [|[x|] rest IH]; intros best; cbn; [reflexivity| |];
    rewrite IH; reflexivity.
Qed.

(** The smallest of a non-empty list of finite values is one of them
    and lies below all of them. *)
Lemma series_min_finite (l : list pyfloat) :
  l <> [] ->
  (forall j d, l !! j = Some d -> exists q, d = Finite q) ->
  exists q j,
    series_min l = Finite q
    /\ l !! j = Some (Finite q)
    /\ forall j' q', l !! j' = Some (Finite q') -> q <= q'.
Proof.
  induction l as [|d l IH]; intros Hne Hfin; [congruence|].
  destruct (Hfin 0%nat d eq_refl) as [q0 ->].
  destruct l as [|d' l'].
  - exists q0, 0%nat. split; [reflexivity|]. split; [reflexivity|].
    intros [|j'] q' H; cbn in H; [|discriminate].
    injection H as <-. lra.
  - destruct IH as (q1 & j1 & Hmin & Hj1 & Hall); [discriminate| |].
    { intros j d Hd. apply (Hfin (S j) d). exact Hd. }
    change (series_min (Finite q0 :: d' :: l'))
      with (fmin (Finite q0) (series_min (d' :: l'))).
    rewrite Hmin. cbn [fmin].
    destruct (Qltb q1 q0) eqn:E.
    + apply Qltb_true in E. exists q1, (S j1).
      split; [reflexivity|]. split; [exact Hj1|].
      intros [|j'] q' H.
      * cbn in H. injection H as <-. lra.
      * apply (Hall j' q'). exact H.
    + apply Qltb_false in E. exists q0, 0%nat.
      split; [reflexivity|]. split; [reflexivity|].
      intros [|j'] q' H.
      * cbn in H. injection H as <-. lra.
      * specialize (Hall j' q' H). lra.
Qed.

(** The drawdown at position [j] of a series of positive prices. *)
Lemma drawdown_lookup (xs : list Q) (j : nat) (x : Q) :
  Forall (fun x => 0 < x) xs ->
  xs !! j = Some x ->
  exists M,
    series_div (series_sub (map Some xs) (cummax (map Some xs)))
               (cummax (map Some xs)) !! j
    = Some (Finite ((x - M) / M))
    /\ 0 < M
    /\ (exists i, (i <= j)%nat /\ xs !! i = Some M)
    /\ (forall i a, (i <= j)%nat -> xs !! i = Some a -> a <= M).
Proof.
  intros Hpos Hj.
  destruct (cummax_from_lookup xs None j x Hj) as (M & HM & Hfrom & _ & Hall).
  destruct Hfrom as [H|(i & Hi & Hxi)]; [discriminate|].
  assert (HMpos : 0 < M).
  { rewrite Forall_lookup in Hpos. apply (Hpos i M Hxi). }
  exists M. split; [|split; [exact HMpos|split; [exists i; auto|exact Hall]]].
  unfold series_div, series_sub, cummax.
  rewrite !lookup_zip_with, HM, list_lookup_fmap, Hj. cbn.
  destruct (Qeq_bool M 0) eqn:E; [|reflexivity].
  apply Qeq_bool_iff in E. lra.
Qed.

End MaxDrawdown.

(** X14.  [calculate_max_drawdown]: for a non-empty series of positive
    prices without missing values the result is a finite number [q]
    with [0 <= q < 1]; every relative fall [(a - b) / a] from a price
    [a] to a later (or the same) price [b] is at most [q], and [q] is
    the relative fall between two such prices: it is the largest
    peak-to-later-price loss. *)
Theorem max_drawdown_largest_fall (xs : list Q) :
  xs <> [] ->
  Forall (fun x => 0 < x) xs ->
  exists q,
    Routes.calculate_max_drawdown (map Some xs) = Finite q
    /\ 0 <= q < 1
    /\ (forall i j a b, (i <= j)%nat -> xs !! i = Some a -> xs !! j = Some b ->
                        (a - b) / a <= q)
    /\ (exists i j a b, (i <= j)%nat /\ xs !! i = Some a /\ xs !! j = Some b
                        /\ q == (a - b) / a).
Proof.
  intros Hne Hpos.
  set (dd := Routes.series_div
               (Routes.series_sub (map Some xs) (Routes.cummax (map Some xs)))
               (Routes.cummax (map Some xs))).
  assert (Hlen : length dd = length xs).
  { unfold dd, Routes.series_div, Routes.series_sub, Routes.cummax.
    rewrite !length_zip_with, length_cummax_from, length_map. lia. }
  assert (Hdd : forall j d, dd !! j = Some d ->
            exists x M, xs !! j = Some x /\ d = Finite ((x - M) / M) /\ 0 < M
                        /\ (exists i, (i <= j)%nat /\ xs !! i = Some M)
                        /\ (forall i a, (i <= j)%nat -> xs !! i = Some a -> a <= M)).
  { intros j d Hd.
    assert (Hj : (j < length xs)%nat)
      by (rewrite <- Hlen; apply (lookup_lt_Some _ _ _ Hd)).
    destruct (lookup_lt_is_Some_2 xs j Hj) as [x Hx].
    destruct (drawdown_lookup xs j x Hpos Hx) as (M & HM & HMpos & Hsrc & Hall).
    fold dd in HM. rewrite HM in Hd. injection Hd as <-.
    exists x, M. auto. }
  destruct (series_min_finite dd) as (q0 & j0 & Hmin & Hj0 & Hleast).
  { intros E. rewrite E in Hlen. destruct xs; [congruence|discriminate]. }
  { intros j d Hd. destruct (Hdd j d Hd) as (x & M & _ & -> & _). eauto. }
  destruct (Hdd j0 _ Hj0) as (x0 & M0 & Hx0 & Hq0 & HM0 & (i0 & Hi0 & HxM0) & Hall0).
  injection Hq0 as Hq0.
  assert (Hx0pos : 0 < x0).
  { rewrite Forall_lookup in Hpos. apply (Hpos j0 x0 Hx0). }
  assert (Hx0M : x0 <= M0) by (apply (Hall0 j0 x0); [lia | exact Hx0]).
  assert (Hq0le : q0 <= 0).
  { rewrite Hq0. apply Qle_shift_div_r; [exact HM0 | lra]. }
  assert (Hq : Qabs q0 == (M0 - x0) / M0).
  { rewrite (Qabs_neg _ Hq0le), Hq0. field. lra. }
  assert (Hupper : forall i j a b, (i <= j)%nat -> xs !! i = Some a ->
            xs !! j = Some b -> (a - b) / a <= Qabs q0).
  { intros i j a b Hij Ha Hb.
    destruct (drawdown_lookup xs j b Hpos Hb) as (M & HM & HMpos & _ & Hall).
    fold dd in HM.
    assert (Hge : q0 <= (b - M) / M) by (apply (Hleast j); exact HM).
    assert (Hapos : 0 < a) by (rewrite Forall_lookup in Hpos; apply (Hpos i a Ha)).
    assert (Hbpos : 0 < b) by (rewrite Forall_lookup in Hpos; apply (Hpos j b Hb)).
    assert (HaM : a <= M) by (apply (Hall i a); [exact Hij | exact Ha]).
    assert (Hstep : (a - b) / a <= (M - b) / M).
    { apply Qdiv_le_cross; [exact Hapos | exact HMpos |].
      assert (Hprod : a * b <= M * b)
        by (apply Qmult_le_compat_r; [exact HaM | lra]).
      lra. }
    assert (Hneg : (M - b) / M == - ((b - M) / M)) by (field; lra).
    rewrite (Qabs_neg _ Hq0le). lra. }
  exists (Qabs q0).
  split.
  { unfold Routes.calculate_max_drawdown. fold dd. rewrite Hmin. reflexivity. }
  split; [split|split].
  - apply Qabs_nonneg.
  - rewrite Hq. apply Qlt_shift_div_r; [exact HM0 | lra].
  - exact Hupper.
  - exists i0, j0, M0, x0. auto.
Qed.

Lemma max_drawdown_largest_fall_witness :
  CoverageSamples.peak_and_recovery <> []
  /\ Forall (fun x => 0 < x) CoverageSamples.peak_and_recovery
  /\ exists q,
       Routes.calculate_max_drawdown (map Some CoverageSamples.peak_and_recovery)
       = Finite q
       /\ 0 <= q < 1
       /\ (forall i j a b, (i <= j)%nat ->
             CoverageSamples.peak_and_recovery !! i = Some a ->
             CoverageSamples.peak_and_recovery !! j = Some b ->
             (a - b) / a <= q)
       /\ (exists i j a b, (i <= j)%nat
             /\ CoverageSamples.peak_and_recovery !! i = Some a
             /\ CoverageSamples.peak_and_recovery !! j = Some b
             /\ q == (a - b) / a).
Proof.
  assert (Hpos : Forall (fun x => 0 < x) CoverageSamples.peak_and_recovery).
  { repeat first [apply Forall_nil_2 | apply Forall_cons_2; [reflexivity|]]. }
  split; [discriminate|]. split; [exact Hpos|].
  apply (max_drawdown_largest_fall CoverageSamples.peak_and_recovery);
    [discriminate | exact Hpos].
Defined.

(** The fall from 120 to 90 is a drawdown of one quarter. *)
Example max_drawdown_peak_and_recovery :
  match Routes.calculate_max_drawdown (map Some CoverageSamples.peak_and_recovery) with
  | Finite q => Qeq_bool q (1 # 4)
  | _ => false
  end = true.
Proof. vm_compute. reflexivity. Qed.

(** ** Ticker symbols *)

Section Tickers.

Import Provider.

Lemma get_ticker_symbol_cases (symbol : string) :
  (dict_get FOREX_SYMBOLS symbol = None /\ get_ticker_symbol symbol = symbol)
  \/ (exists ticker, dict_get FOREX_SYMBOLS symbol = Some ticker
                     /\ get_ticker_symbol symbol = ticker
                     /\ dict_get FOREX_SYMBOLS ticker = None).
Proof.
  unfold get_ticker_symbol, FOREX_SYMBOLS. cbn [dict_get].
  repeat match goal with
         | |- context [String.eqb symbol ?k] =>
             destruct (String.eqb symbol k) eqn:?;
             [right; eexists; split; [reflexivity|]; split; reflexivity|]
         end.
  left. split; reflexivity.
Qed.

End Tickers.

(** X15.  [_get_ticker_symbol]: the ticker returned for a symbol is
    never itself a key of [FOREX_SYMBOLS], so converting a symbol that
    was already converted changes nothing: conversion twice gives the
    same ticker as conversion once. *)
Theorem get_ticker_symbol_idempotent (symbol : string) :
  Provider.get_ticker_symbol (Provider.get_ticker_symbol symbol)
  = Provider.get_ticker_symbol symbol
  /\ Provider.dict_get Provider.FOREX_SYMBOLS (Provider.get_ticker_symbol symbol)
     = None.
Proof.
  destruct (get_ticker_symbol_cases symbol) as [[Hnone Hsame]|(t & Hsome & Ht & Htn)].
  - rewrite !Hsame. split; [reflexivity | exact Hnone].
  - rewrite Ht. split; [|exact Htn].
    unfold Provider.get_ticker_symbol. rewrite Htn. reflexivity.
Qed.

(** Every listed stock symbol is fetched under its own name. *)
Example stock_symbols_unchanged :
  forallb (fun s => String.eqb (Provider.get_ticker_symbol s) s)
          (Provider.NASDAQ_SYMBOLS ++ Provider.SP500_SYMBOLS) = true.
Proof. vm_compute. reflexivity. Qed.

(** ** Regime detection feeding the regime signal *)

Section RegimeComposition.

Import Regime.

Lemma Qle_bool_distinct (a b : Q) :
  ~ a == b ->
  (a < b /\ Qle_bool a b = true /\ Qle_bool b a = false)
  \/ (b < a /\ Qle_bool a b = false /\ Qle_bool b a = true).
Proof.
  intros Hne.
  destruct (Qlt_le_dec a b) as [Hlt|Hle].
  - left. split; [exact Hlt|]. split.
    + apply Qle_bool_iff. lra.
    + apply not_true_iff_false. rewrite Qle_bool_iff. lra.
  - assert (Hlt : b < a).
    { destruct (Qlt_le_dec b a) as [H|H]; [exact H|].
      exfalso. apply Hne. apply Qle_antisym; assumption. }
    right. split; [exact Hlt|]. split.
    + apply not_true_iff_false. rewrite Qle_bool_iff. lra.
    + apply Qle_bool_iff. lra.
Qed.

Lemma Qle_bool_refl (a : Q) : Qle_bool a a = true.
Proof. apply Qle_bool_iff. lra. Qed.

(** X16.  [detect_regime] with three states feeding the regime block
    of [calculate_trading_signal]: when the three state means are
    pairwise different and the current state [c] is one of 0, 1, 2,
    the detection returns and the regime signal computed from its
    dictionary is +1 when the posterior probability of [c] exceeds 0.6
    and [c] has the largest mean, -1 when it exceeds 0.6 and [c] has
    the smallest mean, and 0 otherwise.  The labels follow the rank of
    the means, not their sign. *)
Theorem detect_regime_signal_by_rank
      (regime_label : nat -> Q -> Q -> string)
      (fit_hmm : Series -> nat -> HMMFit) (returns : Series)
      (m0 m1 m2 p0 p1 p2 : Q) (c : Z) :
  means_ (fit_hmm returns 3%nat) = [m0; m1; m2] ->
  ~ m0 == m1 -> ~ m0 == m2 -> ~ m1 == m2 ->
  py_index (hidden_states (fit_hmm returns 3%nat)) (-1) = Some c ->
  py_index (posteriors (fit_hmm returns 3%nat)) (-1) = Some [p0; p1; p2] ->
  (0 <= c < 3)%Z ->
  exists rd p mc,
    detect_regime regime_label fit_hmm returns 3 None = Ok rd
    /\ [p0; p1; p2] !! Z.to_nat c = Some p
    /\ [m0; m1; m2] !! Z.to_nat c = Some mc
    /\ Recommendation.regime_signal (regime_dict rd)
       = Ok (if Qgtb p (6 # 10)
             then if is_largest [m0; m1; m2] mc then 1
                  else if is_smallest [m0; m1; m2] mc then - (1) else 0
             else 0).
Proof.
  intros Hmeans H01 H02 H12 Hstate Hpost Hc.
  unfold detect_regime. rewrite Hstate, Hpost, Hmeans.
  cbn [or_raise rbind].
  unfold generated_descriptions, np_argsort.
  cbn [Nat.eqb length seq zip zip_with foldl insert_by_value fst snd].
  unfold Qltb, Qgtb.
  destruct (Qle_bool_distinct m0 m1 H01) as [(L01 & E01 & E10)|(L01 & E01 & E10)];
  destruct (Qle_bool_distinct m0 m2 H02) as [(L02 & E02 & E20)|(L02 & E02 & E20)];
  destruct (Qle_bool_distinct m1 m2 H12) as [(L12 & E12 & E21)|(L12 & E12 & E21)];
  try (exfalso; lra);
  repeat (progress (unfold Qltb, Qgtb;
                    rewrite ?E01, ?E10, ?E02, ?E20, ?E12, ?E21;
                    cbn [negb insert_by_value fst snd map lookup list_lookup
                         or_raise rbind]));
  (assert (Hcases : c = 0%Z \/ c = 1%Z \/ c = 2%Z) by lia);
  destruct Hcases as [->|[->| ->]];
  (eexists; eexists; eexists; split; [reflexivity|]; split; [reflexivity|];
   split; [reflexivity|]);
  unfold Recommendation.regime_signal, Recommendation.regime_probability,
         Recommendation.regime_description, regime_dict;
  cbn [Recommendation.current_regime Recommendation.regime_descriptions
       Recommendation.regime_probabilities current_regime regime_descriptions
       regime_probabilities default].
  all: unfold id; change (Z.of_nat 0) with 0%Z; change (Z.of_nat 1) with 1%Z;
    change (Z.of_nat 2) with 2%Z;
    repeat first [rewrite lookup_insert_eq | rewrite lookup_insert_ne by lia];
    cbn [from_option];
    repeat match goal with
           | |- context [str_contains ?a ?b] =>
               let v := eval vm_compute in (str_contains a b) in
               change (str_contains a b) with v
           end;
    match goal with
    | |- context [py_index ?l ?z] =>
        let v := eval cbv in (py_index l z) in change (py_index l z) with v
    end;
    cbn [or_raise rbind andb is_largest is_smallest forallb];
    unfold Qgtb;
    rewrite ?Qle_bool_refl, ?E01, ?E10, ?E02, ?E20, ?E12, ?E21;
    cbn [andb];
    match goal with
    | |- context [Qle_bool ?p (6 # 10)] => destruct (Qle_bool p (6 # 10))
    end; reflexivity.
Qed.

End RegimeComposition.

Lemma detect_regime_signal_by_rank_witness :
  Regime.means_ CoverageSamples.falling_market_fit
  = [- (1 # 1000); - (2 # 100); - (5 # 1000)]
  /\ ~ - (1 # 1000) == - (2 # 100)
  /\ ~ - (1 # 1000) == - (5 # 1000)
  /\ ~ - (2 # 100) == - (5 # 1000)
  /\ py_index (Regime.hidden_states CoverageSamples.falling_market_fit) (-1)
     = Some 0%Z
  /\ py_index (Regime.posteriors CoverageSamples.falling_market_fit) (-1)
     = Some [9 # 10; 0; 1 # 10]
  /\ (0 <= 0 < 3)%Z
  /\ exists rd p mc,
       Regime.detect_regime CoverageSamples.plain_label
         (fun _ _ => CoverageSamples.falling_market_fit) [] 3 None = Ok rd
       /\ [9 # 10; 0; 1 # 10] !! Z.to_nat 0 = Some p
       /\ [- (1 # 1000); - (2 # 100); - (5 # 1000)] !! Z.to_nat 0 = Some mc
       /\ regime_signal (Regime.regime_dict rd)
          = Ok (if Qgtb p (6 # 10)
                then if Regime.is_largest
                          [- (1 # 1000); - (2 # 100); - (5 # 1000)] mc then 1
                     else if Regime.is_smallest
                               [- (1 # 1000); - (2 # 100); - (5 # 1000)] mc
                          then - (1) else 0
                else 0).
Proof.
  assert (H01 : ~ - (1 # 1000) == - (2 # 100)) by (unfold Qeq; simpl; lia).
  assert (H02 : ~ - (1 # 1000) == - (5 # 1000)) by (unfold Qeq; simpl; lia).
  assert (H12 : ~ - (2 # 100) == - (5 # 1000)) by (unfold Qeq; simpl; lia).
  split; [reflexivity|]. split; [exact H01|]. split; [exact H02|].
  split; [exact H12|]. split; [reflexivity|]. split; [reflexivity|].
  split; [lia|].
  apply (detect_regime_signal_by_rank
           CoverageSamples.plain_label
           (fun _ _ => CoverageSamples.falling_market_fit) []
           (- (1 # 1000)) (- (2 # 100)) (- (5 # 1000)) (9 # 10) 0 (1 # 10) 0%Z);
    [reflexivity | exact H01 | exact H02 | exact H12 | reflexivity
     | reflexivity | lia].
Defined.

(** Three falling states: the state that falls least is labelled as
    the bull market and yields a buy signal. *)
Example falling_market_buy_signal :
  (rd <-r Regime.detect_regime CoverageSamples.plain_label
            (fun _ _ => CoverageSamples.falling_market_fit) [] 3 None ;;
   regime_signal (Regime.regime_dict rd)) = Ok 1.
Proof. vm_compute. reflexivity. Qed.

(** ** The differentiation order and the ADF test *)

Section MinimalOrderPasses.

Import CointegrationTests.

Lemma dropna_from_as_series (s : IndexedSeries) :
  forall i, map snd (dropna_from i (as_series s)) = map snd s.
Proof.
  induction s as [|[k v] s IH]; intros i; cbn; [reflexivity|].
  rewrite IH. reflexivity.
Qed.

Lemma dropna_values_as_series (s : IndexedSeries) :
  dropna_values (as_series s) = map snd s.
Proof. apply dropna_from_as_series. Qed.

Variable adfuller : list Q -> string -> string -> AdfullerOutput.

(** A value returned by the loop is [max_d] itself or a candidate that
    passed both tests. *)
Lemma find_min_ffd_loop_returned (fuel : nat) (series : Series)
      (threshold max_d : Q) (candidates : list Q) (r : Q) :
  find_min_ffd_loop (adfuller_pvalue adfuller) fuel series threshold max_d candidates
  = Some r ->
  r = max_d
  \/ (r ∈ candidates
      /\ exists out, fractional_diff fuel series r threshold = Some out
                     /\ (10 <= length out)%nat
                     /\ adfuller_pvalue adfuller (map snd out) < 5 # 100).
Proof.
  induction candidates as [|d rest IH]; cbn [find_min_ffd_loop]; intros H.
  - left. congruence.
  - destruct (fractional_diff fuel series d threshold) as [out|] eqn:Hout;
      [|discriminate].
    destruct (length out <? 10)%nat eqn:Hlen.
    + destruct (IH H) as [->|(Hin & Hrest)]; [left; reflexivity|].
      right. split; [apply list_elem_of_further, Hin | exact Hrest].
    + destruct (Qltb (adfuller_pvalue adfuller (map snd out)) (5 # 100)) eqn:Hp.
      * injection H as <-. right. split; [apply list_elem_of_here|].
        exists out. split; [exact Hout|]. split.
        -- apply Nat.ltb_ge in Hlen. exact Hlen.
        -- apply Qltb_true. exact Hp.
      * destruct (IH H) as [->|(Hin & Hrest)]; [left; reflexivity|].
        right. split; [apply list_elem_of_further, Hin | exact Hrest].
Qed.

(** X17.  [find_min_ffd] followed by [fractional_diff] and [adf_test]:
    an order returned strictly below [max_d] is one for which the
    differentiated series (same threshold) has at least 10 points and
    is reported stationary by [adf_test] with its default arguments.
    The order [max_d] itself is the fallback and carries no such
    guarantee. *)
Theorem find_min_ffd_order_passes_adf_test
        (fuel : nat) (series : Series) (max_d threshold r : Q) :
  find_min_ffd (adfuller_pvalue adfuller) fuel series max_d threshold = Some r ->
  r < max_d ->
  exists out,
    fractional_diff fuel series r threshold = Some out
    /\ (10 <= length out)%nat
    /\ is_stationary (adf_test adfuller (as_series out) "c" "AIC") = true.
Proof.
  intros Hrun Hlt.
  destruct (find_min_ffd_loop_returned _ _ _ _ _ _ Hrun)
    as [->|(_ & out & Hout & Hlen & Hp)]; [lra|].
  exists out. split; [exact Hout|]. split; [exact Hlen|].
  unfold adf_test. cbn [is_stationary].
  rewrite dropna_values_as_series. apply Qltb_true. exact Hp.
Qed.

End MinimalOrderPasses.

Lemma find_min_ffd_order_passes_adf_test_witness :
  find_min_ffd
    (CointegrationTests.adfuller_pvalue CoverageSamples.short_series_adfuller)
    5 ramp_14 1 (1 # 10) = Some (grid_point 2)
  /\ grid_point 2 < 1
  /\ exists out,
       fractional_diff 5 ramp_14 (grid_point 2) (1 # 10) = Some out
       /\ (10 <= length out)%nat
       /\ CointegrationTests.is_stationary
            (CointegrationTests.adf_test CoverageSamples.short_series_adfuller
               (CointegrationTests.as_series out) "c" "AIC") = true.
Proof.
  assert (Hrun : find_min_ffd
            (CointegrationTests.adfuller_pvalue CoverageSamples.short_series_adfuller)
            5 ramp_14 1 (1 # 10) = Some (grid_point 2))
    by (vm_compute; reflexivity).
  assert (Hlt : grid_point 2 < 1) by reflexivity.
  split; [exact Hrun|]. split; [exact Hlt|].
  apply (find_min_ffd_order_passes_adf_test
           CoverageSamples.short_series_adfuller 5 ramp_14 1 (1 # 10) (grid_point 2)
           Hrun Hlt).
Defined.

(** ** Rolling windows *)

Section RollingWindows.

Import RollingStats.

Lemma present_values_is_Some (w : Series) :
  is_Some (present_values w)
  <-> forall j, (j < length w)%nat -> exists x, w !! j = Some (Some x).
Proof.
  induction w as [|[x|] w IH]; cbn [present_values length].
  - split; [intros _ j Hj; lia | intros _; eauto].
  - split.
    + intros Hs. destruct (present_values w) as [xs|] eqn:E;
        [|destruct Hs; discriminate].
      destruct IH as [IH _]. specialize (IH (mk_is_Some _ _ eq_refl)).
      intros [|j] Hj; [eauto|]. apply IH. lia.
    + intros Hall. destruct IH as [_ IH].
      destruct IH as [xs Hxs].
      { intros j Hj. apply (Hall (S j)). lia. }
      rewrite Hxs. eauto.
  - split; [intros [? H]; discriminate|].
    intros Hall. destruct (Hall 0%nat) as [x Hx]; [lia|]. discriminate.
Qed.

Lemma present_values_length (w : Series) :
  forall xs, present_values w = Some xs -> length xs = length w.
Proof.
  induction w as [|[x|] w IH]; cbn [present_values]; intros xs H.
  - injection H as <-. reflexivity.
  - destruct (present_values w) as [ys|]; [|discriminate].
    injection H as <-. cbn. rewrite (IH ys eq_refl). reflexivity.
  - discriminate.
Qed.

Lemma rolling_window_is_Some (series : Series) (window i : nat) :
  (i < length series)%nat ->
  is_Some (rolling_window series window i)
  <-> (window <= i + 1)%nat
      /\ forall j, (i + 1 - window <= j <= i)%nat ->
                   exists x, series !! j = Some (Some x).
Proof.
  intros Hi. unfold rolling_window.
  destruct (i + 1 <? window)%nat eqn:E.
  - apply Nat.ltb_lt in E. split; [intros [? H]; discriminate | intros [H _]; lia].
  - apply Nat.ltb_ge in E. rewrite present_values_is_Some.
    rewrite length_iloc_slice by lia. split.
    + intros Hall. split; [exact E|]. intros j Hj.
      specialize (Hall (j - (i + 1 - window))%nat).
      rewrite iloc_slice_lookup in Hall.
      destruct (decide (j - (i + 1 - window) < i + 1 - (i + 1 - window))%nat);
        [|lia].
      replace (i + 1 - window + (j - (i + 1 - window)))%nat with j in Hall by lia.
      apply Hall. lia.
    + intros [_ Hall] j Hj. rewrite iloc_slice_lookup.
      case_decide; [|lia]. apply Hall. lia.
Qed.

Lemma rolling_window_length (series : Series) (window i : nat) (xs : list Q) :
  (i < length series)%nat ->
  rolling_window series window i = Some xs -> length xs = window.
Proof.
  intros Hi. unfold rolling_window.
  destruct (i + 1 <? window)%nat eqn:E; [discriminate|].
  apply Nat.ltb_ge in E. intros H.
  rewrite (present_values_length _ _ H), length_iloc_slice by lia. lia.
Qed.

Lemma rolling_lookup (f : list Q -> option Q) (series : Series) (window i : nat) :
  (i < length series)%nat ->
  rolling f series window !! i = Some (rolling_window series window i ≫= f).
Proof.
  intros Hi. unfold rolling.
  rewrite list_lookup_fmap, lookup_seq_lt by exact Hi. reflexivity.
Qed.

Lemma length_rolling (f : list Q -> option Q) (series : Series) (window : nat) :
  length (rolling f series window) = length series.
Proof. unfold rolling. rewrite length_map, length_seq. reflexivity. Qed.

Variable np_sqrt : Q -> Q.

(** The rolling standard deviation is defined exactly at the ends of
    the full windows of at least two values. *)
Lemma rolling_std_is_Some (series : Series) (window i : nat) :
  (i < length series)%nat ->
  (exists s, rolling (window_std np_sqrt) series window !! i = Some (Some s))
  <-> (2 <= window <= i + 1)%nat
      /\ forall j, (i + 1 - window <= j <= i)%nat ->
                   exists x, series !! j = Some (Some x).
Proof.
  intros Hi. rewrite rolling_lookup by exact Hi. split.
  - intros [s Hs]. injection Hs as Hs.
    destruct (rolling_window series window i) as [xs|] eqn:Hw; [|discriminate].
    cbn in Hs. unfold window_std, window_var in Hs.
    destruct (length xs <? 2)%nat eqn:E; [discriminate|].
    apply Nat.ltb_ge in E.
    rewrite (rolling_window_length _ _ _ _ Hi Hw) in E.
    destruct (proj1 (rolling_window_is_Some series window i Hi)
                    (mk_is_Some _ _ Hw)) as [Hle Hall].
    split; [lia | exact Hall].
  - intros [Hwin Hall].
    destruct (proj2 (rolling_window_is_Some series window i Hi)) as [xs Hw].
    { split; [lia | exact Hall]. }
    rewrite Hw. cbn. unfold window_std, window_var.
    rewrite (rolling_window_length _ _ _ _ Hi Hw).
    destruct (window <? 2)%nat eqn:E; [apply Nat.ltb_lt in E; lia|].
    cbn. eauto.
Qed.

(** The loop body of the Hurst exponent skips a lag exactly when the
    series has no full window of that length. *)
Lemma rs_for_lag_is_Some (series : Series) (lag : nat) :
  is_Some (rs_for_lag np_sqrt series lag)
  <-> (2 <= lag)%nat /\ has_full_window series lag.
Proof.
  unfold rs_for_lag.
  set (std := map snd (dropna (rolling (window_std np_sqrt) series lag))).
  assert (Hstd : (0 < length std)%nat
                 <-> (2 <= lag)%nat /\ has_full_window series lag).
  { unfold std. rewrite length_map. split.
    - intros Hpos.
      destruct (dropna (rolling (window_std np_sqrt) series lag))
        as [|[i s] rest] eqn:E; [cbn in Hpos; lia|].
      assert (Hin : (i, s) ∈ dropna (rolling (window_std np_sqrt) series lag))
        by (rewrite E; apply list_elem_of_here).
      apply elem_of_dropna in Hin.
      assert (Hi : (i < length series)%nat).
      { apply lookup_lt_Some in Hin. rewrite length_rolling in Hin. exact Hin. }
      destruct (proj1 (rolling_std_is_Some series lag i Hi)) as [Hwin Hall];
        [eauto|].
      split; [lia|]. exists i. split; [lia | exact Hall].
    - intros [Hlag (i & Hi & Hall)].
      assert (Hi' : (i < length series)%nat) by lia.
      destruct (proj2 (rolling_std_is_Some series lag i Hi')) as [s Hs].
      { split; [lia | exact Hall]. }
      apply elem_of_dropna in Hs.
      destruct (dropna (rolling (window_std np_sqrt) series lag)) as [|p rest];
        [apply elem_of_nil in Hs; contradiction | cbn; lia]. }
  destruct (length std =? 0)%nat eqn:E.
  - apply Nat.eqb_eq in E. split; [intros [? H]; discriminate|].
    intros H. apply Hstd in H. lia.
  - apply Nat.eqb_neq in E. split; [|intros _; eauto].
    intros _. apply Hstd. lia.
Qed.

Lemma has_full_window_le (series : Series) (lag lag' : nat) :
  (lag' <= lag)%nat -> has_full_window series lag -> has_full_window series lag'.
Proof.
  intros Hle (i & Hi & Hall). exists i. split; [lia|].
  intros j Hj. apply Hall. lia.
Qed.

(** After the lags [2 .. n+1], [tau] holds one value for each of the
    first [k] of them, and the skipped lags are the remaining ones. *)
Lemma tau_prefix (series : Series) (n : nat) :
  exists k,
    (k <= n)%nat
    /\ Forall2 (fun lag rs => rs_for_lag np_sqrt series lag = Some rs)
               (seq 2 k)
               (foldl (tau_step np_sqrt series) [] (seq 2 n))
    /\ forall lag, (2 <= lag < 2 + n)%nat ->
                   ((lag < 2 + k)%nat <-> has_full_window series lag).
Proof.
  induction n as [|n (k & Hk & Htau & Hlags)].
  - exists 0%nat. split; [lia|]. split; [constructor|]. intros lag Hlag. lia.
  - rewrite seq_S, foldl_snoc. unfold tau_step at 1.
    destruct (rs_for_lag np_sqrt series (2 + n)) as [rs|] eqn:Hrs.
    + assert (Hfull : has_full_window series (2 + n)).
      { apply (rs_for_lag_is_Some series (2 + n)). eauto. }
      assert (k = n) as ->.
      { destruct (decide (k = n)) as [|Hne]; [assumption|]. exfalso.
        assert (Hlt : (2 + k < 2 + k)%nat).
        { apply (Hlags (2 + k)%nat); [lia|].
          apply (has_full_window_le series (2 + n)); [lia | exact Hfull]. }
        lia. }
      exists (S n). split; [lia|]. split.
      * rewrite seq_S. apply Forall2_app; [exact Htau|].
        constructor; [exact Hrs | constructor].
      * intros lag Hlag. split; [|intros _; lia].
        intros _. apply (has_full_window_le series (2 + n)); [lia | exact Hfull].
    + exists k. split; [lia|]. split; [exact Htau|].
      intros lag Hlag. destruct (decide (lag = 2 + n)%nat) as [->|Hne].
      * split; [lia|]. intros Hfull. exfalso.
        destruct (proj2 (rs_for_lag_is_Some series (2 + n))) as [rs' Hrs'];
          [split; [lia | exact Hfull]|].
        rewrite Hrs in Hrs'. discriminate.
      * apply Hlags. lia.
Qed.

End RollingWindows.

(** X18.  [calculate_hurst_exponent]: the lags that contribute a value
    to [tau] are an initial run [2, ..., k+1] of [range(2, max_lag)],
    namely those for which the series has a full window without a
    missing value; [tau] holds the loop value of each of them in
    order.  The function returns 0.5 when [k = 0] and otherwise the
    slope of the regression of [tau] on exactly the lags that produced
    it, so that [lags[:len(tau)]] pairs every value with its own lag. *)
Theorem hurst_lags_match_tau
        (np_sqrt : Q -> Q)
        (log_log_slope : list nat -> list pyfloat -> result pyfloat)
        (series : Series) (max_lag : nat) :
  exists k tau,
    (k <= max_lag - 2)%nat
    /\ Forall2 (fun lag rs => RollingStats.rs_for_lag np_sqrt series lag = Some rs)
               (seq 2 k) tau
    /\ (forall lag, (2 <= lag < max_lag)%nat ->
                    ((lag < 2 + k)%nat <-> RollingStats.has_full_window series lag))
    /\ RollingStats.calculate_hurst_exponent np_sqrt log_log_slope series max_lag
       = if (k =? 0)%nat then Ok (Finite (5 # 10))
         else log_log_slope (seq 2 k) tau.
Proof.
  destruct (tau_prefix np_sqrt series (max_lag - 2)) as (k & Hk & Htau & Hlags).
  exists k, (foldl (RollingStats.tau_step np_sqrt series) [] (seq 2 (max_lag - 2))).
  split; [exact Hk|]. split; [exact Htau|]. split.
  - intros lag Hlag. apply Hlags. lia.
  - unfold RollingStats.calculate_hurst_exponent.
    assert (Hlen : length (foldl (RollingStats.tau_step np_sqrt series) []
                                 (seq 2 (max_lag - 2))) = k).
    { rewrite <- (Forall2_length _ _ _ Htau), length_seq. reflexivity. }
    rewrite Hlen.
    destruct (k =? 0)%nat; [reflexivity|].
    rewrite take_seq. replace (Nat.min k (max_lag - 2)) with k by lia.
    reflexivity.
Qed.

(** X19.  [calculate_hurst_exponent] on a series without missing
    values: with [m] the smaller of [max_lag] and one more than the
    number of points, the function returns 0.5 when [m <= 2] (fewer
    than two points, or no lag to try) and otherwise the regression
    slope over the lags [2, ..., m-1] with one value of [tau] for each
    of them. *)
Theorem hurst_lags_of_valid_series
        (np_sqrt : Q -> Q)
        (log_log_slope : list nat -> list pyfloat -> result pyfloat)
        (series : Series) (max_lag : nat) :
  all_valid series ->
  exists tau,
    length tau = (Nat.min max_lag (S (length series)) - 2)%nat
    /\ RollingStats.calculate_hurst_exponent np_sqrt log_log_slope series max_lag
       = if (Nat.min max_lag (S (length series)) <=? 2)%nat
         then Ok (Finite (5 # 10))
         else log_log_slope
                (seq 2 (Nat.min max_lag (S (length series)) - 2)) tau.
Proof.
  intros Hvalid.
  assert (Hfull : forall lag, (2 <= lag)%nat ->
            (RollingStats.has_full_window series lag <-> (lag <= length series)%nat)).
  { intros lag Hlag. split.
    - intros (i & Hi & _). lia.
    - intros Hle. exists (lag - 1)%nat. split; [lia|].
      intros j Hj. apply Hvalid. lia. }
  destruct (tau_prefix np_sqrt series (max_lag - 2)) as (k & Hk & Htau & Hlags).
  set (K := (Nat.min max_lag (S (length series)) - 2)%nat).
  assert (HkK : k = K).
  { destruct (Nat.lt_trichotomy k K) as [Hlt|[Heq|Hgt]]; [|exact Heq|].
    - exfalso.
      assert (H : (2 + k < 2 + k)%nat).
      { apply (Hlags (2 + k)%nat); [unfold K in Hlt; lia|].
        apply Hfull; [lia|]. unfold K in Hlt. lia. }
      lia.
    - exfalso.
      assert (H : RollingStats.has_full_window series (2 + K)).
      { apply (Hlags (2 + K)%nat); lia. }
      apply Hfull in H; [|lia]. unfold K in *. lia. }
  exists (foldl (RollingStats.tau_step np_sqrt series) [] (seq 2 (max_lag - 2))).
  assert (Hlen : length (foldl (RollingStats.tau_step np_sqrt series) []
                               (seq 2 (max_lag - 2))) = K).
  { rewrite <- (Forall2_length _ _ _ Htau), length_seq. exact HkK. }
  split; [exact Hlen|].
  unfold RollingStats.calculate_hurst_exponent. rewrite Hlen.
  fold K.
  destruct (Nat.min max_lag (S (length series)) <=? 2)%nat eqn:E.
  - apply Nat.leb_le in E. replace K with 0%nat by (unfold K; lia). reflexivity.
  - apply Nat.leb_gt in E.
    destruct (K =? 0)%nat eqn:E0; [apply Nat.eqb_eq in E0; unfold K in E0; lia|].
    rewrite take_seq. replace (Nat.min K (max_lag - 2)) with K by (unfold K; lia).
    reflexivity.
Qed.

Lemma hurst_lags_of_valid_series_witness :
  all_valid ramp_14
  /\ exists tau,
       length tau = (Nat.min 20 (S (length ramp_14)) - 2)%nat
       /\ RollingStats.calculate_hurst_exponent
            CoverageSamples.sample_sqrt CoverageSamples.sample_slope ramp_14 20
          = if (Nat.min 20 (S (length ramp_14)) <=? 2)%nat
            then Ok (Finite (5 # 10))
            else CoverageSamples.sample_slope
                   (seq 2 (Nat.min 20 (S (length ramp_14)) - 2)) tau.
Proof.
  assert (Hvalid : all_valid ramp_14).
  { intros i Hi. unfold ramp_14 in *.
    rewrite length_map, length_seq in Hi.
    rewrite list_lookup_fmap, lookup_seq_lt by exact Hi. cbn. eauto. }
  split; [exact Hvalid|].
  apply (hurst_lags_of_valid_series
           CoverageSamples.sample_sqrt CoverageSamples.sample_slope ramp_14 20 Hvalid).
Defined.

(** Fourteen points support the lags 2 .. 14; a single point supports
    none. *)
Example hurst_of_short_series :
  RollingStats.calculate_hurst_exponent
    CoverageSamples.sample_sqrt CoverageSamples.sample_slope ramp_14 20
  = Ok (Finite (Qn 13 / 100))
  /\ RollingStats.calculate_hurst_exponent
       CoverageSamples.sample_sqrt CoverageSamples.sample_slope [Some 1] 20
     = Ok (Finite (5 # 10)).
Proof. split; vm_compute; reflexivity. Qed.

(** ** The rolling z-score *)

(** X20.  [calculate_z_score]: a z-score that is not [NaN] at position
    [i] requires a window of at least two, at least [window] values up
    to and including position [i], and none of the last [window]
    values missing.  So the first [window - 1] positions are [NaN],
    and with [window = 1] every position is. *)
Theorem z_score_needs_full_window
        (np_sqrt : Q -> Q) (spread : Series) (window i : nat) (z : pyfloat) :
  RollingStats.calculate_z_score np_sqrt spread window !! i = Some z ->
  z <> NaN ->
  length (RollingStats.calculate_z_score np_sqrt spread window) = length spread
  /\ (2 <= window <= i + 1)%nat
  /\ forall j, (i + 1 - window <= j <= i)%nat ->
               exists x, spread !! j = Some (Some x).
Proof.
  intros Hz Hnan.
  assert (Hlen : length (RollingStats.calculate_z_score np_sqrt spread window)
                 = length spread).
  { unfold RollingStats.calculate_z_score, Routes.series_div, Routes.series_sub.
    rewrite !length_zip_with, !length_rolling. lia. }
  split; [exact Hlen|].
  assert (Hi : (i < length spread)%nat).
  { rewrite <- Hlen. apply (lookup_lt_Some _ _ _ Hz). }
  unfold RollingStats.calculate_z_score, Routes.series_div in Hz.
  apply lookup_zip_with_Some in Hz. destruct Hz as (a & b & -> & _ & Hb).
  destruct b as [s|]; [|destruct a; contradiction].
  apply (rolling_std_is_Some np_sqrt spread window i Hi). eauto.
Qed.

Lemma z_score_needs_full_window_witness :
  let z := default NaN
             (RollingStats.calculate_z_score CoverageSamples.sample_sqrt
                CoverageSamples.three_spreads 2 !! 1%nat) in
  RollingStats.calculate_z_score CoverageSamples.sample_sqrt
    CoverageSamples.three_spreads 2 !! 1%nat = Some z
  /\ z <> NaN
  /\ length (RollingStats.calculate_z_score CoverageSamples.sample_sqrt
               CoverageSamples.three_spreads 2)
     = length CoverageSamples.three_spreads
  /\ (2 <= 2 <= 1 + 1)%nat
  /\ forall j, (1 + 1 - 2 <= j <= 1)%nat ->
               exists x, CoverageSamples.three_spreads !! j = Some (Some x).
Proof.
  intros z.
  assert (Hz : RollingStats.calculate_z_score CoverageSamples.sample_sqrt
                 CoverageSamples.three_spreads 2 !! 1%nat = Some z)
    by (vm_compute; reflexivity).
  assert (Hnan : z <> NaN) by (vm_compute; discriminate).
  split; [exact Hz|]. split; [exact Hnan|].
  apply (z_score_needs_full_window CoverageSamples.sample_sqrt
           CoverageSamples.three_spreads 2 1 z Hz Hnan).
Defined.

(** The first position of a window of two has no z-score, and a
    window of one has none anywhere. *)
Example z_score_warm_up :
  RollingStats.calculate_z_score CoverageSamples.sample_sqrt
    CoverageSamples.three_spreads 2 !! 0%nat = Some NaN
  /\ RollingStats.calculate_z_score CoverageSamples.sample_sqrt
       CoverageSamples.three_spreads 1 = [NaN; NaN; NaN].
Proof. split; vm_compute; reflexivity. Qed.

(** ** Constant series *)

Section FlatSeries.

Import RollingStats.

Variable c : Q.

Lemma Qsum_replicate (k : nat) (y : Q) : Qsum (replicate k y) == Qn k * y.
Proof.
  induction k as [|k IH].
  - cbn. unfold Qn. cbn. ring.
  - change (Qsum (replicate (S k) y)) with (y + Qsum (replicate k y)).
    rewrite IH, Qn_S. ring.
Qed.

Lemma Qsum_all_zero (l : list Q) : Forall (fun y => y == 0) l -> Qsum l == 0.
Proof.
  induction 1 as [|y l Hy _ IH]; [reflexivity |].
  change (Qsum (y :: l)) with (y + Qsum l). rewrite Hy, IH. ring.
Qed.

Lemma present_values_replicate (k : nat) :
  present_values (replicate k (Some c)) = Some (replicate k c).
Proof.
  induction k as [|k IH]; [reflexivity |].
  cbn [replicate present_values]. rewrite IH. reflexivity.
Qed.

Lemma rolling_window_flat (n window i : nat) :
  (i < n)%nat ->
  rolling_window (replicate n (Some c)) window i
  = if (i + 1 <? window)%nat then None else Some (replicate window c).
Proof.
  intros Hi. unfold rolling_window.
  destruct (i + 1 <? window)%nat eqn:E; [reflexivity |].
  apply Nat.ltb_ge in E. unfold SignalProcessing.iloc_slice.
  rewrite drop_replicate, take_replicate.
  replace ((i + 1 - (i + 1 - window)) `min` (n - (i + 1 - window)))%nat
    with window by lia.
  apply present_values_replicate.
Qed.

Lemma window_mean_flat (w : nat) :
  (1 <= w)%nat ->
  exists m, window_mean (replicate w c) = Some m /\ m == c.
Proof.
  intros Hw. destruct w as [|w]; [lia |].
  eexists. split; [reflexivity |].
  rewrite length_replicate, Qsum_replicate.
  pose proof (Qn_pos w). field. lra.
Qed.

Lemma window_var_flat (w : nat) :
  (2 <= w)%nat ->
  exists v, window_var (replicate w c) = Some v /\ v == 0.
Proof.
  intros Hw. unfold window_var. rewrite length_replicate.
  destruct (w <? 2)%nat eqn:E; [apply Nat.ltb_lt in E; lia |].
  eexists. split; [reflexivity |].
  destruct w as [|[|w]]; [lia | lia |].
  change (map ?f (replicate ?k ?x)) with (f <$> replicate k x).
  rewrite fmap_replicate, !Qsum_replicate.
  replace (S (S w) - 1)%nat with (S w) by lia.
  pose proof (Qn_pos w). pose proof (Qn_pos (S w)). field. lra.
Qed.

Variable np_sqrt : Q -> Q.
Hypothesis sqrt_zero : forall x, x == 0 -> np_sqrt x == 0.

(** Every rolling standard deviation of a constant series is zero. *)
Lemma rolling_std_flat (n window i : nat) (s : Q) :
  rolling (window_std np_sqrt) (replicate n (Some c)) window !! i = Some (Some s) ->
  s == 0.
Proof.
  intros Hs.
  assert (Hi : (i < n)%nat).
  { apply lookup_lt_Some in Hs.
    rewrite length_rolling, length_replicate in Hs. exact Hs. }
  rewrite rolling_lookup in Hs by (rewrite length_replicate; exact Hi).
  injection Hs as Hs. rewrite rolling_window_flat in Hs by exact Hi.
  destruct (i + 1 <? window)%nat; [discriminate |].
  cbn in Hs. unfold window_std in Hs.
  destruct (window_var (replicate window c)) as [v|] eqn:Hv; [|discriminate].
  injection Hs as <-. apply sqrt_zero.
  destruct (decide (2 <= window)%nat) as [Hw | Hw].
  - destruct (window_var_flat window Hw) as (v' & Hv' & Hz).
    rewrite Hv' in Hv. injection Hv as <-. exact Hz.
  - exfalso. unfold window_var in Hv. rewrite length_replicate in Hv.
    assert (E : (window <? 2)%nat = true) by (apply Nat.ltb_lt; lia).
    rewrite E in Hv. discriminate.
Qed.

(** The z-score of a constant series is undefined everywhere. *)
Lemma z_score_flat (n window : nat) :
  calculate_z_score np_sqrt (replicate n (Some c)) window = replicate n NaN.
Proof.
  apply list_eq. intros i.
  destruct (decide (i < n)%nat) as [Hi | Hi].
  - rewrite lookup_replicate_2 by exact Hi.
    unfold calculate_z_score, Routes.series_div, Routes.series_sub.
    rewrite !lookup_zip_with.
    rewrite lookup_replicate_2 by exact Hi.
    rewrite !rolling_lookup by (rewrite length_replicate; exact Hi).
    rewrite rolling_window_flat by exact Hi.
    destruct (i + 1 <? window)%nat; [reflexivity |].
    cbn [mbind option_bind mret].
    destruct (decide (window = 0)%nat) as [-> | Hw0]; [reflexivity |].
    destruct (window_mean_flat window) as (m & Hm & Hmc); [lia |].
    rewrite Hm. cbn [mbind option_bind].
    destruct (decide (window = 1)%nat) as [-> | Hw1]; [reflexivity |].
    destruct (window_var_flat window) as (v & Hv & Hv0); [lia |].
    unfold window_std. rewrite Hv. cbn [fmap option_fmap option_map mbind option_bind].
    unfold np_div.
    assert (Hs : np_sqrt v == 0) by (apply sqrt_zero; exact Hv0).
    apply Qeq_bool_iff in Hs. rewrite Hs.
    assert (H1 : Qltb 0 (c - m) = false) by (apply Qltb_false; lra).
    assert (H2 : Qltb (c - m) 0 = false) by (apply Qltb_false; lra).
    rewrite H1, H2. reflexivity.
  - rewrite (lookup_ge_None_2 (replicate n NaN)) by (rewrite length_replicate; lia).
    apply lookup_ge_None_2.
    unfold calculate_z_score, Routes.series_div, Routes.series_sub.
    rewrite !length_zip_with, !length_rolling, length_replicate. lia.
Qed.

(** The mean rolling standard deviation is zero, so every lag that
    contributes to [tau] contributes the substituted 0. *)
Lemma rs_for_lag_flat (n lag : nat) (rs : pyfloat) :
  rs_for_lag np_sqrt (replicate n (Some c)) lag = Some rs -> rs = Finite 0.
Proof.
  unfold rs_for_lag.
  set (std := map snd (SignalProcessing.dropna
                         (rolling (window_std np_sqrt) (replicate n (Some c)) lag))).
  destruct (length std =? 0)%nat; [discriminate |].
  assert (Hall : Forall (fun y => y == 0) std).
  { apply Forall_forall. intros y Hy. unfold std in Hy.
    apply list_elem_of_fmap in Hy. destruct Hy as ([i s] & -> & Hin).
    apply elem_of_dropna in Hin. apply (rolling_std_flat n lag i s Hin). }
  assert (Hmean : Qgtb (Qsum std / Qn (length std)) 0 = false).
  { apply Qgtb_false. rewrite (Qsum_all_zero std Hall).
    unfold Qdiv. rewrite Qmult_0_l. apply Qle_refl. }
  rewrite Hmean. intros H. injection H as <-. reflexivity.
Qed.

Lemma all_valid_flat (n : nat) : all_valid (replicate n (Some c)).
Proof.
  intros i Hi. rewrite length_replicate in Hi.
  exists c. apply lookup_replicate_2. exact Hi.
Qed.

(** The Hurst exponent of a series without missing values, with the
    values of [tau] traced to the loop body. *)
Lemma hurst_of_valid_series_tau
      (log_log_slope : list nat -> list pyfloat -> result pyfloat)
      (series : Series) (max_lag : nat) :
  all_valid series ->
  exists tau,
    Forall2 (fun lag rs => rs_for_lag np_sqrt series lag = Some rs)
            (seq 2 (Nat.min max_lag (S (length series)) - 2)) tau
    /\ calculate_hurst_exponent np_sqrt log_log_slope series max_lag
       = if (Nat.min max_lag (S (length series)) <=? 2)%nat
         then Ok (Finite (5 # 10))
         else log_log_slope
                (seq 2 (Nat.min max_lag (S (length series)) - 2)) tau.
Proof.
  intros Hvalid.
  assert (Hfull : forall lag, (2 <= lag)%nat ->
            (has_full_window series lag <-> (lag <= length series)%nat)).
  { intros lag Hlag. split.
    - intros (i & Hi & _). lia.
    - intros Hle. exists (lag - 1)%nat. split; [lia|].
      intros j Hj. apply Hvalid. lia. }
  destruct (tau_prefix np_sqrt series (max_lag - 2)) as (k & Hk & Htau & Hlags).
  set (K := (Nat.min max_lag (S (length series)) - 2)%nat).
  assert (HkK : k = K).
  { destruct (Nat.lt_trichotomy k K) as [Hlt|[Heq|Hgt]]; [|exact Heq|].
    - exfalso.
      assert (H : (2 + k < 2 + k)%nat).
      { apply (Hlags (2 + k)%nat); [unfold K in Hlt; lia|].
        apply Hfull; [lia|]. unfold K in Hlt. lia. }
      lia.
    - exfalso.
      assert (H : has_full_window series (2 + K)).
      { apply (Hlags (2 + K)%nat); lia. }
      apply Hfull in H; [|lia]. unfold K in *. lia. }
  subst k.
  exists (foldl (tau_step np_sqrt series) [] (seq 2 (max_lag - 2))).
  split; [exact Htau |].
  assert (Hlen : length (foldl (tau_step np_sqrt series) []
                               (seq 2 (max_lag - 2))) = K).
  { rewrite <- (Forall2_length _ _ _ Htau), length_seq. reflexivity. }
  unfold calculate_hurst_exponent. rewrite Hlen.
  destruct (Nat.min max_lag (S (length series)) <=? 2)%nat eqn:E.
  - apply Nat.leb_le in E. replace K with 0%nat by (unfold K; lia). reflexivity.
  - apply Nat.leb_gt in E.
    destruct (K =? 0)%nat eqn:E0; [apply Nat.eqb_eq in E0; unfold K in E0; lia|].
    rewrite take_seq. replace (Nat.min K (max_lag - 2)) with K by (unfold K; lia).
    reflexivity.
Qed.

Lemma adjacent_rows_flat (k : nat) :
  SeriesOps.adjacent_rows (Some c) (replicate k (Some c)) = replicate k (c - c, c).
Proof.
  induction k as [|k IH]; [reflexivity |].
  cbn [replicate SeriesOps.adjacent_rows]. rewrite IH. reflexivity.
Qed.

Lemma half_life_frame_flat (n : nat) :
  half_life_frame (replicate n (Some c)) = replicate (n - 1) (c - c, c).
Proof.
  rewrite half_life_frame_adjacent. destruct n as [|n]; [reflexivity |].
  cbn [replicate SeriesOps.adjacent_rows app]. rewrite adjacent_rows_flat.
  replace (S n - 1)%nat with n by lia. reflexivity.
Qed.

End FlatSeries.

(** C4 (as amended).  For every constant series of [n] points, with
    [sqrt(0) = 0]: [calculate_z_score] returns [n] values that are all
    NaN (no full window yet, or a zero variance under the division);
    [calculate_hurst_exponent] substitutes [R/S = 0] at every lag that
    has a full window, returns the 0.5 fallback exactly when no lag has
    one ([n < 2] or [max_lag <= 2]) and otherwise returns what the
    log-log regression returns for values of [tau] that are all 0;
    [calculate_half_life] hands the regression [n - 1] rows with
    difference 0 and level [c], and returns plus infinity whenever the
    regression returns a slope that is not negative for them.  None of
    the three raises by itself; an exception can only come out of one
    of the two regressions. *)
Theorem flat_series_degenerate
        (np_sqrt : Q -> Q)
        (log_log_slope : list nat -> list pyfloat -> result pyfloat)
        (np_log2 : Q)
        (linear_regression_coef : list Q -> list Q -> result Q)
        (c theta : Q) (n window max_lag : nat) :
  (forall x, x == 0 -> np_sqrt x == 0) ->
  linear_regression_coef (replicate (n - 1) c) (replicate (n - 1) (c - c))
  = Ok theta ->
  0 <= theta ->
  RollingStats.calculate_z_score np_sqrt (replicate n (Some c)) window
  = replicate n NaN
  /\ (forall lag rs,
        RollingStats.rs_for_lag np_sqrt (replicate n (Some c)) lag = Some rs ->
        rs = Finite 0)
  /\ RollingStats.calculate_hurst_exponent
       np_sqrt log_log_slope (replicate n (Some c)) max_lag
     = (if (Nat.min max_lag (S n) <=? 2)%nat
        then Ok (Finite (5 # 10))
        else log_log_slope (seq 2 (Nat.min max_lag (S n) - 2))
                           (replicate (Nat.min max_lag (S n) - 2) (Finite 0)))
  /\ half_life_frame (replicate n (Some c)) = replicate (n - 1) (c - c, c)
  /\ calculate_half_life np_log2 linear_regression_coef (replicate n (Some c))
     = Ok PosInf.
Proof.
  intros Hsqrt Hreg Htheta.
  split; [apply z_score_flat; exact Hsqrt |].
  split; [intros lag rs; apply rs_for_lag_flat; exact Hsqrt |].
  split; [| split; [apply half_life_frame_flat |]].
  - destruct (hurst_of_valid_series_tau np_sqrt log_log_slope
                (replicate n (Some c)) max_lag (all_valid_flat c n))
      as (tau & Htau & Hrun).
    rewrite length_replicate in Htau, Hrun. rewrite Hrun.
    destruct (Nat.min max_lag (S n) <=? 2)%nat; [reflexivity |].
    f_equal. apply list_eq. intros j.
    destruct (decide (j < Nat.min max_lag (S n) - 2)%nat) as [Hj | Hj].
    + rewrite lookup_replicate_2 by exact Hj.
      destruct (lookup_lt_is_Some_2 tau j) as [rs Hrs].
      { rewrite <- (Forall2_length _ _ _ Htau), length_seq. exact Hj. }
      rewrite Hrs. f_equal.
      assert (Hlag : seq 2 (Nat.min max_lag (S n) - 2) !! j = Some (2 + j)%nat)
        by (apply lookup_seq_lt; exact Hj).
      pose proof (Forall2_lookup_lr _ _ _ _ _ _ Htau Hlag Hrs) as Hbody.
      apply (rs_for_lag_flat c np_sqrt Hsqrt n (2 + j) rs Hbody).
    + rewrite (lookup_ge_None_2 (replicate _ _)) by (rewrite length_replicate; lia).
      apply lookup_ge_None_2.
      rewrite <- (Forall2_length _ _ _ Htau), length_seq. lia.
  - unfold calculate_half_life. rewrite (half_life_frame_flat c n).
    change (map snd (replicate (n - 1) (c - c, c)))
      with (snd <$> replicate (n - 1) (c - c, c)).
    change (map fst (replicate (n - 1) (c - c, c)))
      with (fst <$> replicate (n - 1) (c - c, c)).
    rewrite !fmap_replicate. cbn [fst snd]. rewrite Hreg. cbn [rbind].
    assert (Hsign : Qltb theta 0 = false) by (apply Qltb_false; exact Htheta).
    rewrite Hsign. reflexivity.
Qed.

Lemma flat_series_degenerate_witness :
  (forall x, x == 0 -> CoverageSamples.sample_sqrt x == 0)
  /\ ols_slope (replicate (4 - 1) 5) (replicate (4 - 1) (5 - 5)) = Ok 0
  /\ 0 <= 0
  /\ RollingStats.calculate_z_score
       CoverageSamples.sample_sqrt (replicate 4 (Some 5)) 2
     = replicate 4 NaN
  /\ (forall lag rs,
        RollingStats.rs_for_lag
          CoverageSamples.sample_sqrt (replicate 4 (Some 5)) lag = Some rs ->
        rs = Finite 0)
  /\ RollingStats.calculate_hurst_exponent
       CoverageSamples.sample_sqrt EdgeSamples.degenerate_slope
       (replicate 4 (Some 5)) 20
     = (if (Nat.min 20 (S 4) <=? 2)%nat
        then Ok (Finite (5 # 10))
        else EdgeSamples.degenerate_slope
               (seq 2 (Nat.min 20 (S 4) - 2))
               (replicate (Nat.min 20 (S 4) - 2) (Finite 0)))
  /\ half_life_frame (replicate 4 (Some 5)) = replicate (4 - 1) (5 - 5, 5)
  /\ calculate_half_life np_log2_binary64 ols_slope (replicate 4 (Some 5))
     = Ok PosInf.
Proof.
  assert (Hsqrt : forall x, x == 0 -> CoverageSamples.sample_sqrt x == 0)
    by (intros x Hx; exact Hx).
  assert (Hreg : ols_slope (replicate (4 - 1) 5) (replicate (4 - 1) (5 - 5)) = Ok 0)
    by reflexivity.
  assert (Hsign : 0 <= 0) by (unfold Qle; simpl; lia).
  split; [exact Hsqrt |]. split; [exact Hreg |]. split; [exact Hsign |].
  apply (flat_series_degenerate
           CoverageSamples.sample_sqrt EdgeSamples.degenerate_slope
           np_log2_binary64 ols_slope 5 0 4 2 20 Hsqrt Hreg Hsign).
Defined.

(** C4 as stated fails: a constant series of a single point leaves the
    regression of [calculate_half_life] without a row, and the
    regression refuses an empty sample, as scikit-learn does with
    [ValueError]; the z-score of the same series is a single NaN and
    the Hurst exponent is the 0.5 fallback. *)
Lemma flat_single_point_half_life_raises :
  half_life_frame [Some 5] = []
  /\ calculate_half_life np_log2_binary64 ols_slope [Some 5] = Raise ValueError
  /\ RollingStats.calculate_z_score CoverageSamples.sample_sqrt [Some 5] 20
     = [NaN]
  /\ RollingStats.calculate_hurst_exponent
       CoverageSamples.sample_sqrt EdgeSamples.degenerate_slope [Some 5] 20
     = Ok (Finite (5 # 10)).
Proof. repeat split; reflexivity. Qed.

(** With [np.polyfit] as it behaves on [log(0)], the Hurst exponent of
    a constant series of 14 points is NaN: every lag from 2 to 14 has a
    full window and contributes [R/S = 0]. *)
Example hurst_flat_series_nan :
  RollingStats.calculate_hurst_exponent
    CoverageSamples.sample_sqrt EdgeSamples.degenerate_slope
    (replicate 14 (Some 5)) 20
  = Ok NaN.
Proof. vm_compute. reflexivity. Qed.

(** ** The exact run against the binary64 run *)

Section ExactAgainstBinary64.

Import Binary64 FusionBinary64.

Ltac listed := repeat first [apply list_elem_of_here | apply list_elem_of_further].

Lemma hurst_block_listed (analysis : Analysis) (price_series : Series)
      (sw : list Q * list Q) :
  match get_hurst analysis with
  | Some hurst =>
      s <-r hurst_signal hurst price_series ;;
      Ok ([] ++ [s], [] ++ [30 # 100])
  | None => Ok ([], [])
  end = Ok sw ->
  sw ∈ hurst_choices.
Proof.
  unfold hurst_signal, rbind. intros H.
  repeat case_match; simplify_eq; listed.
Qed.

Lemma regime_block_listed (r : RegimeDict) (s : Q) :
  regime_signal r = Ok s -> ([s], [25 # 100]) ∈ regime_choices.
Proof.
  unfold regime_signal, rbind. intros H.
  repeat case_match; simplify_eq; listed.
Qed.

Lemma volatility_block_listed (v : VolatilityDict) :
  ([volatility_signal v], [15 # 100]) ∈ volatility_choices.
Proof. unfold volatility_signal. repeat case_match; listed. Qed.

Lemma momentum_block_listed (sharpe price_change : Q) :
  ([momentum_signal sharpe price_change], [20 # 100]) ∈ momentum_choices.
Proof. unfold momentum_signal. repeat case_match; listed. Qed.

Lemma statistical_block_listed (c : CointegrationDict) (price_change : Q) :
  ([statistical_signal c price_change], [10 # 100]) ∈ statistical_choices.
Proof. unfold statistical_signal. repeat case_match; listed. Qed.

(** Whatever the five blocks gather is one of the listed inputs. *)
Lemma gather_signals_listed (analysis : Analysis) (price_series : Series)
      (signals weights : list Q) :
  gather_signals analysis price_series = Ok (signals, weights) ->
  (signals, weights) ∈ all_gathered.
Proof.
  unfold gather_signals. intros H.
  destruct (match get_hurst analysis with
            | Some hurst =>
                s <-r hurst_signal hurst price_series ;;
                Ok ([] ++ [s], [] ++ [30 # 100])
            | None => Ok ([], [])
            end) as [h | e] eqn:Hh; [| discriminate H].
  apply hurst_block_listed in Hh. cbn [rbind] in H.
  assert (Hr : exists r, r ∈ regime_choices
                 /\ match regime analysis with
                    | Some r0 => s <-r regime_signal r0 ;;
                                 Ok (h.1 ++ [s], h.2 ++ [25 # 100])
                    | None => Ok h
                    end = Ok (h.1 ++ r.1, h.2 ++ r.2)).
  { destruct (regime analysis) as [r0 |].
    - destruct (regime_signal r0) as [s | e] eqn:Hs; [| discriminate H].
      exists ([s], [25 # 100]). split; [| reflexivity].
      apply (regime_block_listed r0 s Hs).
    - exists ([], []). split; [apply list_elem_of_here |].
      cbn [fst snd]. rewrite !app_nil_r. destruct h; reflexivity. }
  destruct Hr as (r & Hr & Hreg). rewrite Hreg in H. cbn [rbind fst snd] in H.
  unfold all_gathered.
  apply list_elem_of_bind. exists h. split; [| exact Hh].
  apply list_elem_of_bind. exists r. split; [| exact Hr].
  apply list_elem_of_bind.
  exists (match volatility analysis with
          | Some v => ([volatility_signal v], [15 # 100])
          | None => ([], [])
          end).
  split; [| destruct (volatility analysis);
            [apply volatility_block_listed | apply list_elem_of_here]].
  apply list_elem_of_bind.
  exists ([momentum_signal (get_sharpe analysis) (get_price_change analysis)],
          [20 # 100]).
  split; [| apply momentum_block_listed].
  apply list_elem_of_bind.
  exists (match cointegration analysis with
          | Some c => ([statistical_signal c (get_price_change analysis)], [10 # 100])
          | None => ([], [])
          end).
  split; [| destruct (cointegration analysis);
            [apply statistical_block_listed | apply list_elem_of_here]].
  destruct (volatility analysis), (cointegration analysis);
    cbn [fst snd] in *; injection H as <- <-;
    rewrite ?app_nil_r; apply list_elem_of_here.
Qed.

Lemma all_gathered_agree :
  forallb (fun sw => agrees_off_threshold sw.1 sw.2) all_gathered = true.
Proof. vm_compute. reflexivity. Qed.

Lemma gathered_agrees_off_threshold
      (analysis : Analysis) (price_series : Series) (signals weights : list Q) :
  gather_signals analysis price_series = Ok (signals, weights) ->
  agrees_off_threshold signals weights = true.
Proof.
  intros Hg. apply gather_signals_listed in Hg. apply list_elem_of_In in Hg.
  exact (proj1 (forallb_forall _ _) all_gathered_agree _ Hg).
Qed.

Variable format_float : nat -> Q -> string.

(** X21.  The result that [calculate_trading_signal] computes in
    binary64 is the result of exact arithmetic, unless the exact
    weighted signal is exactly 0.3 or -0.3: the category is the same,
    and the confidence and the signal strength are the floats nearest
    to the exact run's rounded numbers.  On a threshold the float
    rounding decides (see [boundary_decided_by_rounding]). *)
Theorem binary64_agrees_off_threshold
        (analysis : Analysis) (price_series returns : Series)
        (signals weights : list Q) (r : TradingSignal) :
  gather_signals analysis price_series = Ok (signals, weights) ->
  calculate_trading_signal format_float analysis price_series returns = Ok r ->
  ~ Qabs (weighted_signal_of signals weights) == 3 # 10 ->
  exists r',
    calculate_trading_signal_b64 format_float analysis price_series returns = Ok r'
    /\ recommendation r' = recommendation r
    /\ confidence r' == b64 (confidence r)
    /\ signal_strength r' == b64 (signal_strength r)
    /\ reasoning r' = reasoning r.
Proof.
  intros Hg Hr Hoff.
  destruct (gather_signals_nonempty _ _ _ _ Hg) as [Hne _].
  rewrite (calculate_trading_signal_gathered format_float _ _ _ _ _ Hg Hne) in Hr.
  injection Hr as <-.
  eexists. split;
    [apply (calculate_trading_signal_b64_gathered format_float _ _ _ _ _ Hg Hne) |].
  cbn [recommendation confidence signal_strength reasoning].
  pose proof (gathered_agrees_off_threshold _ _ _ _ Hg) as Hagree.
  unfold agrees_off_threshold in Hagree.
  apply orb_true_iff in Hagree. destruct Hagree as [Hon | Hagree].
  { apply Qeq_bool_iff in Hon. contradiction. }
  apply andb_true_iff in Hagree. destruct Hagree as [Hagree Hstrength].
  apply andb_true_iff in Hagree. destruct Hagree as [Hcat Hconf].
  apply Qeq_bool_iff in Hstrength. apply Qeq_bool_iff in Hconf.
  split; [| split; [exact Hconf | split; [exact Hstrength | reflexivity]]].
  destruct (decide_recommendation_b64 (weighted_signal_b64 signals weights)).1,
    (decide_recommendation (weighted_signal_of signals weights)).1;
    first [reflexivity | discriminate Hcat].
Qed.

End ExactAgainstBinary64.

Lemma binary64_agrees_off_threshold_witness :
  gather_signals calm_and_strong [] = Ok ([1 # 2; 1], [15 # 100; 20 # 100])
  /\ (exists r, calculate_trading_signal plain_format calm_and_strong [] [] = Ok r)
  /\ ~ Qabs (weighted_signal_of [1 # 2; 1] [15 # 100; 20 # 100]) == 3 # 10
  /\ exists r r',
       calculate_trading_signal plain_format calm_and_strong [] [] = Ok r
       /\ FusionBinary64.calculate_trading_signal_b64
            plain_format calm_and_strong [] [] = Ok r'
       /\ recommendation r' = recommendation r
       /\ confidence r' == Binary64.b64 (confidence r)
       /\ signal_strength r' == Binary64.b64 (signal_strength r)
       /\ reasoning r' = reasoning r.
Proof.
  assert (Hg : gather_signals calm_and_strong []
               = Ok ([1 # 2; 1], [15 # 100; 20 # 100])) by reflexivity.
  assert (Hoff : ~ Qabs (weighted_signal_of [1 # 2; 1] [15 # 100; 20 # 100])
                   == 3 # 10)
    by (intros H; vm_compute in H; discriminate H).
  split; [exact Hg |]. split; [eexists; reflexivity |]. split; [exact Hoff |].
  eexists.
  destruct (binary64_agrees_off_threshold plain_format calm_and_strong [] []
              [1 # 2; 1] [15 # 100; 20 # 100] _ Hg eq_refl Hoff)
    as (r' & Hr' & H).
  exists r'. split; [reflexivity |]. split; [exact Hr' | exact H].
Defined.
